(** * Orchestrator queue: event log, attention queue and push-socket transport

    A shallow embedding of [orchestrator/models.py], [orchestrator/store.py]
    and [orchestrator/server.py], and the properties of the attention queue,
    its resolution, the REST resolve endpoint, the poll-diff broadcaster and
    the hand-written WebSocket framing.

    Conventions of the embedding.
    - A Python [bytes] value is a [list Byte.byte]; a Python [int] is a [Z].
    - A Python [str] is a Rocq [string] holding its UTF-8 bytes, so
      [str.encode()] is [list_byte_of_string] and comparing two [str] values
      is the byte-wise lexicographic comparison [String.ltb].
    - A Python exception is a value of [exn]; a function that may raise
      returns a [result].
    - An [asyncio.StreamReader] is the list of bytes that the peer sends
      before end of file; an [asyncio.StreamWriter] is the list of chunks
      handed to the transport, with a flag for a lost connection. *)

From Stdlib Require Import ZArith Lia Bool.
From Stdlib.Strings Require Import String Ascii Byte.
From stdpp Require Import gmap strings list fin_maps pretty sorting.

Local Open Scope string_scope.
Local Open Scope list_scope.

(** ** Python runtime: exceptions and results *)

Inductive exn : Type :=
  | IncompleteReadError
  | ValueError
  | StructError
  | ConnectionResetError
  | UnicodeDecodeError
  | JSONDecodeError
  | AttributeError
  | KeyError_NotFound
  | OSError
  | CancelledError.

(** [except Exception] catches everything but the [BaseException]-only
    classes; [asyncio.CancelledError] is one of those. *)
Definition is_Exception (e : exn) : bool :=
  match e with
  | CancelledError => false
  | _ => true
  end.

Inductive result (A : Type) : Type :=
  | Ok (a : A)
  | Raise (e : exn).
Arguments Ok {A} a.
Arguments Raise {A} e.

#[global] Instance result_ret : MRet result := fun _ a => Ok a.
#[global] Instance result_bind : MBind result := fun _ _ k m =>
  match m with
  | Ok a => k a
  | Raise e => Raise e
  end.

#[global] Instance result_fmap : FMap result := fun _ _ f m =>
  match m with
  | Ok a => Ok (f a)
  | Raise e => Raise e
  end.

(** ** Bytes *)

Abbreviation bytes := (list byte).

Definition byte_to_Z (b : byte) : Z := Z.of_N (Byte.to_N b).

(** [bytearray.append(v)] and [bytes([v])] accept [0 <= v < 256] only. *)
Definition byte_of_Z (v : Z) : option byte :=
  if (v <? 0)%Z then None else Byte.of_N (Z.to_N v).

(** The byte with value [v mod 256]. *)
Definition byte_wrap (v : Z) : byte :=
  default x00 (byte_of_Z (v mod 256)).

(** [a ^ b] on two byte values. *)
Definition byte_xor (a b : byte) : byte :=
  byte_wrap (Z.lxor (byte_to_Z a) (byte_to_Z b)).

(** [struct.unpack("!H", data)[0]] and [struct.unpack("!Q", data)[0]]:
    the big-endian value of the bytes. *)
Definition be_decode (data : bytes) : Z :=
  fold_left (fun acc b => (acc * 256 + byte_to_Z b)%Z) data 0%Z.

(** The [w] low-order bytes of [n], most significant first. *)
Fixpoint be_encode (w : nat) (n : Z) : bytes :=
  match w with
  | O => []
  | S w' => be_encode w' (n / 256) ++ [byte_wrap n]
  end.

(** [struct.pack("!H", n)] *)
Definition struct_pack_H (n : Z) : result bytes :=
  if ((0 <=? n) && (n <? 65536))%Z then Ok (be_encode 2 n) else Raise StructError.

(** [struct.pack("!Q", n)] *)
Definition struct_pack_Q (n : Z) : result bytes :=
  if ((0 <=? n) && (n <? 2 ^ 64))%Z then Ok (be_encode 8 n) else Raise StructError.

(** ** WebSocket protocol helpers ([server.py]) *)

Definition OP_TEXT : Z := 1.
Definition OP_CLOSE : Z := 8.
Definition OP_PING : Z := 9.
Definition OP_PONG : Z := 10.

(** The bytes still to come on a stream before end of file. *)
Definition StreamReader := bytes.

(** [await reader.readexactly(n)] *)
Definition readexactly (n : Z) (reader : StreamReader) : result (bytes * StreamReader) :=
  if (n <? 0)%Z then Raise ValueError
  else if (n <=? Z.of_nat (length reader))%Z
       then Ok (take (Z.to_nat n) reader, drop (Z.to_nat n) reader)
       else Raise IncompleteReadError.

(** [bytes(b ^ mask[i % 4] for i, b in enumerate(payload))] *)
Definition unmask (mask : bytes) (payload : bytes) : bytes :=
  imap (fun i b => byte_xor b (nth (i mod 4) mask x00)) payload.

Definition ws_read_frame (reader : StreamReader) : result ((Z * bytes) * StreamReader) :=
  '(header, reader) ← readexactly 2 reader;
  let h0 := byte_to_Z (nth 0 header x00) in
  let h1 := byte_to_Z (nth 1 header x00) in
  let opcode := Z.land h0 0xF in
  let masked := Z.land (Z.shiftr h1 7) 1 in
  let length := Z.land h1 0x7F in
  '(length, reader) ←
     (if (length =? 126)%Z then
        '(data, reader) ← readexactly 2 reader; Ok (be_decode data, reader)
      else if (length =? 127)%Z then
        '(data, reader) ← readexactly 8 reader; Ok (be_decode data, reader)
      else Ok (length, reader));
  '(mask, reader) ←
     (if (masked =? 0)%Z then Ok (None, reader)
      else '(m, reader) ← readexactly 4 reader; Ok (Some m, reader));
  '(payload, reader) ← readexactly length reader;
  let payload :=
    match mask with
    | Some m => unmask m payload
    | None => payload
    end in
  Ok ((opcode, payload), reader).

(** The [frame] bytearray that [ws_write_frame] builds. *)
Definition ws_frame (opcode : Z) (payload : bytes) : result bytes :=
  match byte_of_Z (Z.lor 0x80 opcode) with
  | None => Raise ValueError
  | Some b0 =>
      let length := Z.of_nat (length payload) in
      ext ←
        (if (length <? 126)%Z then Ok [byte_wrap length]
         else if (length <? 65536)%Z then
           l ← struct_pack_H length; Ok (x7e :: l)
         else
           l ← struct_pack_Q length; Ok (x7f :: l));
      Ok (b0 :: ext ++ payload)
  end.

(** The transport behind a writer: the chunks that reached it, and whether
    the connection is lost or was closed. *)
Record StreamWriter : Type := mkWriter {
  wr_buf : list bytes;
  wr_lost : bool
}.

(** [writer.write(data)]: data handed to a lost transport is dropped. *)
Definition writer_write (data : bytes) (w : StreamWriter) : StreamWriter :=
  if wr_lost w then w else mkWriter (wr_buf w ++ [data]) false.

(** [await writer.drain()] *)
Definition writer_drain (w : StreamWriter) : result unit :=
  if wr_lost w then Raise ConnectionResetError else Ok tt.

(** [writer.close()]: what is handed to the writer afterwards does not
    reach the peer. *)
Definition writer_close (w : StreamWriter) : StreamWriter :=
  mkWriter (wr_buf w) true.

Definition ws_write_frame (w : StreamWriter) (opcode : Z) (payload : bytes)
  : result StreamWriter :=
  frame ← ws_frame opcode payload;
  let w := writer_write frame w in
  _ ← writer_drain w;
  Ok w.

(** ** [WebSocketConnection] *)

Record WebSocketConnection : Type := mkConn {
  conn_reader : StreamReader;
  conn_writer : StreamWriter;
  conn_closed : bool
}.

Definition set_reader (r : StreamReader) (c : WebSocketConnection) :=
  mkConn r (conn_writer c) (conn_closed c).
Definition set_writer (w : StreamWriter) (c : WebSocketConnection) :=
  mkConn (conn_reader c) w (conn_closed c).
Definition set_closed (c : WebSocketConnection) :=
  mkConn (conn_reader c) (conn_writer c) true.

(** The handler [except Exception: self.closed = True; return v]: an
    exception that is not an [Exception] keeps propagating. *)
Definition except_closed {A} (e : exn) (c : WebSocketConnection) (v : A)
  : result (WebSocketConnection * A) :=
  if is_Exception e then Ok (set_closed c, v) else Raise e.

(** [message.encode()] *)
Definition str_encode (message : string) : bytes := list_byte_of_string message.

Definition send (message : string) (c : WebSocketConnection)
  : result WebSocketConnection :=
  if conn_closed c then Ok c
  else match ws_write_frame (conn_writer c) OP_TEXT (str_encode message) with
       | Ok w => Ok (set_writer w c)
       | Raise e => if is_Exception e then Ok (set_closed c) else Raise e
       end.

Section Recv.
(** [payload.decode()], the UTF-8 decoder of the Python runtime: [None]
    stands for [UnicodeDecodeError]. *)
Variable decode : bytes -> option string.

(** [recv] calls itself after answering a ping. Every frame takes at least
    two bytes off the stream, so the length of the stream bounds the depth
    of the recursion; [recv] below starts with that much fuel and
    [recv_unfold] shows that it satisfies the equation of the source. After
    a failed read the stream is at end of file. *)
Fixpoint recv_fuel (fuel : nat) (c : WebSocketConnection)
  : result (WebSocketConnection * option string) :=
  match fuel with
  | O => Ok (set_closed c, None)
  | S fuel =>
      match ws_read_frame (conn_reader c) with
      | Raise e => except_closed e (set_reader [] c) None
      | Ok ((opcode, payload), r) =>
          let c := set_reader r c in
          if (opcode =? OP_CLOSE)%Z then Ok (set_closed c, None)
          else if (opcode =? OP_PING)%Z then
            match ws_write_frame (conn_writer c) OP_PONG payload with
            | Raise e => except_closed e c None
            | Ok w => recv_fuel fuel (set_writer w c)
            end
          else if (opcode =? OP_TEXT)%Z then
            match decode payload with
            | Some s => Ok (c, Some s)
            | None => except_closed UnicodeDecodeError c None
            end
          else Ok (c, None)
      end
  end.

Definition recv (c : WebSocketConnection)
  : result (WebSocketConnection * option string) :=
  recv_fuel (S (length (conn_reader c))) c.
End Recv.

Definition close (c : WebSocketConnection) : result WebSocketConnection :=
  if conn_closed c then Ok c
  else
    let c := set_closed c in
    match ws_write_frame (conn_writer c) OP_CLOSE [] with
    | Ok w => Ok (set_writer (writer_close w) c)
    | Raise e => if is_Exception e then Ok c else Raise e
    end.

Section ReadLoop.
Variable decode : bytes -> option string.

(** The loop of [_handle_ws_upgrade]:
    [while not conn.closed: msg = await conn.recv(); if msg is None: break].
    A message that is returned took a whole frame off the stream, so the
    length of the stream bounds the number of iterations as well. *)
Fixpoint read_loop_fuel (fuel : nat) (c : WebSocketConnection)
  : result WebSocketConnection :=
  match fuel with
  | O => Ok c
  | S fuel =>
      if conn_closed c then Ok c
      else
        '(c, msg) ← recv decode c;
        match msg with
        | None => Ok c
        | Some _ => read_loop_fuel fuel c
        end
  end.

Definition read_loop (c : WebSocketConnection) : result WebSocketConnection :=
  read_loop_fuel (S (length (conn_reader c))) c.
End ReadLoop.

(** ** Sample connections *)

(** A decoder that accepts every byte sequence. *)
Definition decode_any (payload : bytes) : option string :=
  Some (string_of_list_byte payload).

(** A peer that sends a ping with payload [hi], then a close frame. *)
Definition conn_ping_then_close : WebSocketConnection :=
  mkConn [x89; x02; x68; x69; x88; x00] (mkWriter [] false) false.

(** A peer that sends a close frame. *)
Definition conn_close_frame : WebSocketConnection :=
  mkConn [x88; x00; xff] (mkWriter [] false) false.

(** A peer whose text frame announces five bytes and delivers one. *)
Definition conn_truncated : WebSocketConnection :=
  mkConn [x81; x05; x68] (mkWriter [] false) false.

(** ** Data model ([models.py]) *)

Inductive EventKind : Type := STATUS | HANDOFF | NOTE | ERROR | APPROVAL.

Definition EventKind_value (k : EventKind) : string :=
  match k with
  | STATUS => "status"
  | HANDOFF => "handoff"
  | NOTE => "note"
  | ERROR => "error"
  | APPROVAL => "approval_needed"
  end.

(** [kind: EventKind | str], the tagged value or a raw string. *)
Inductive Kind : Type :=
  | Tagged (k : EventKind)
  | Raw (s : string).

(** [EventKind(s) if s in set(k.value for k in EventKind) else s] *)
Definition EventKind_of_value (s : string) : option EventKind :=
  find (fun k => String.eqb (EventKind_value k) s)
       [STATUS; HANDOFF; NOTE; ERROR; APPROVAL].

(** The [kind] part of [__post_init__]. An [EventKind] member is itself a
    [str] whose value is the member's value. *)
Definition post_init_kind (k : Kind) : Kind :=
  match k with
  | Tagged k => Tagged k
  | Raw s =>
      match EventKind_of_value s with
      | Some k => Tagged k
      | None => Raw s
      end
  end.

(** Decoded JSON, as [json.loads] returns it and [json.dumps] takes it. *)
#[warnings="-register-all"] Inductive json : Type :=
  | JNull
  | JBool (b : bool)
  | JInt (n : Z)
  | JFloat (repr : string)
  | JStr (s : string)
  | JArr (items : list json)
  | JObj (members : list (string * json)).

(** [d.get(key, default)] on a decoded JSON object. *)
Definition dict_get (key : string) (members : list (string * json)) (dflt : json) : json :=
  match find (fun kv => String.eqb (fst kv) key) members with
  | Some kv => snd kv
  | None => dflt
  end.

Record ContextEntry : Type := mkEntry {
  project_id : string;
  session_name : string;
  actor : string;
  kind : Kind;
  text : string;
  ts : string;
  refs : list (string * json);
  human_attention_needed : bool;
  id : string
}.

Definition kind_value (e : ContextEntry) : string :=
  match kind e with
  | Tagged k => EventKind_value k
  | Raw s => s
  end.

Definition to_dict (e : ContextEntry) : json :=
  JObj [("project_id", JStr (project_id e));
        ("session_name", JStr (session_name e));
        ("actor", JStr (actor e));
        ("kind", JStr (kind_value e));
        ("text", JStr (text e));
        ("ts", JStr (ts e));
        ("refs", JObj (refs e));
        ("human_attention_needed", JBool (human_attention_needed e));
        ("id", JStr (id e))].

(** [ContextEntry.parse(json.loads(line))] on a line that [append_entry]
    wrote: such a line is [to_dict] of the entry, with every field present
    and the timestamp that [utcnow_iso()] gave, so what parsing changes is
    the kind, which comes back as its string value and goes through
    [__post_init__] again. *)
Definition parse (line : ContextEntry) : ContextEntry :=
  mkEntry (project_id line) (session_name line) (actor line)
          (post_init_kind (Raw (kind_value line)))
          (text line) (ts line) (refs line) (human_attention_needed line) (id line).

Record ProjectContext : Type := mkProject {
  pc_project_id : string;
  pc_name : string;
  pc_goal : string;
  pc_status : string;
  pc_default_cwd : option string;
  pc_active_branch : option string;
  pc_owner : option string;
  pc_updated_at : string
}.

Record SessionContext : Type := mkSession {
  sc_project_id : string;
  sc_session_name : string;
  sc_role : string;
  sc_agent_id : option string;
  sc_state : string;
  sc_goal : option string;
  sc_next_action : option string;
  sc_last_signal : option string;
  sc_updated_at : string
}.

(** ** The store ([store.py]) *)

(** One project directory: [project.json], [sessions.json] and
    [events.jsonl], each possibly absent, and the persisted resolved ids.
    The event log holds one entry per non-blank line, in file order. *)
Record ProjectDir : Type := mkDir {
  project_file : option ProjectContext;
  session_file : option (list (string * SessionContext));
  events_file : option (list ContextEntry);
  resolved_file : option (list string)
}.

Definition empty_dir : ProjectDir := mkDir None None None None.

(** The state of a [ContextStore]: the directories under [projects_dir],
    by name. *)
Abbreviation ContextStore := (gmap string ProjectDir).

Definition get_project (st : ContextStore) (pid : string) : option ProjectContext :=
  st !! pid ≫= project_file.

(** [iterdir] yields the directories in an order of its own; here it is the
    order of [map_to_list]. *)
Definition list_projects (st : ContextStore) : list string :=
  (map_to_list st).*1.

(** [entry.ts = utcnow_iso()], where [now] is the value of the clock. *)
Definition stamped (now : string) (entry : ContextEntry) : ContextEntry :=
  mkEntry (project_id entry) (session_name entry) (actor entry) (kind entry)
          (text entry) now (refs entry) (human_attention_needed entry) (id entry).

(** [append_entry]: create the directory when missing, stamp the entry, add
    one line to the log. *)
Definition append_entry (now : string) (entry : ContextEntry) (st : ContextStore)
  : ContextStore :=
  let directory := default empty_dir (st !! project_id entry) in
  let entry := stamped now entry in
  <[project_id entry :=
      mkDir (project_file directory) (session_file directory)
            (Some (default [] (events_file directory) ++ [entry]))
            (resolved_file directory)]> st.

(** [seq[start:]] for a Python list and an [int] start. *)
Definition slice_from {A} (start : Z) (l : list A) : list A :=
  if (start <? 0)%Z
  then drop (Z.to_nat (Z.max 0 (Z.of_nat (length l) + start))) l
  else drop (Z.to_nat start) l.

(** Truth value of an [Optional[str]]: [None] and the empty string are
    false. *)
Definition truthy (s : option string) : bool :=
  match s with
  | None => false
  | Some s => negb (String.eqb s "")
  end.

(** [left > right] on two [str] values. *)
Definition str_gt (left right : string) : bool := String.ltb right left.

Definition get_events (st : ContextStore) (pid : string)
    (since_ts : option string) (limit : Z) : list ContextEntry :=
  match st !! pid ≫= events_file with
  | None => []
  | Some lines =>
      let parsed := parse <$> lines in
      let parsed :=
        if truthy since_ts
        then filter (fun event => str_gt (ts event) (default "" since_ts)) parsed
        else parsed in
      slice_from (- limit) parsed
  end.

Definition list_sessions (st : ContextStore) (pid : string) : list SessionContext :=
  (default [] (st !! pid ≫= session_file)).*2.

(** *** Queue derivation and resolution

    [test_queue.py] and [server.py] call [ContextStore.get_queue],
    [ContextStore.resolve_entry] and [ContextStore.get_resolved_ids], which
    [store.py] does not define. They are modelled from the specification. *)

(** Modelled from the spec: the full event history of a project, which
    [ContextStore.get_queue] and [ContextStore.resolve_entry] scan; the
    lines are read and parsed the way [get_events] reads them. *)
Definition all_events (st : ContextStore) (pid : string) : list ContextEntry :=
  parse <$> default [] (st !! pid ≫= events_file).

(** Modelled from the spec: [ContextStore.get_resolved_ids], the persisted
    resolved-id set of a project, in the order it is stored. *)
Definition get_resolved_ids (st : ContextStore) (pid : string) : list string :=
  default [] (st !! pid ≫= resolved_file).

(** Modelled from the spec: the attention predicate, [kind] in
    [{error, approval_needed}] or [human_attention_needed]. *)
Definition needs_attention (e : ContextEntry) : bool :=
  String.eqb (kind_value e) (EventKind_value ERROR)
  || String.eqb (kind_value e) (EventKind_value APPROVAL)
  || human_attention_needed e.

(** Modelled from the spec: the queue of one project. Scan the full
    history, select the entries that match the attention predicate, then
    subtract those whose id is in the resolved-id set of the project. *)
Definition project_queue (st : ContextStore) (pid : string) : list ContextEntry :=
  let selected := filter (fun e => needs_attention e) (all_events st pid) in
  filter (fun e => id e ∉ get_resolved_ids st pid) selected.

(** Modelled from the spec: [ContextStore.get_queue]. With no project it
    concatenates the queues of all known projects, in the order in which
    [list_projects] enumerates them. *)
Definition get_queue (st : ContextStore) (pid : option string) : list ContextEntry :=
  match pid with
  | Some pid => project_queue st pid
  | None => list_projects st ≫= project_queue st
  end.

(** Modelled from the spec: the idempotent insert into the persisted
    resolved-id set; inserting an id that is present is a no-op. *)
Definition record_resolved (pid entry_id : string) (st : ContextStore) : ContextStore :=
  if decide (entry_id ∈ get_resolved_ids st pid) then st
  else
    let directory := default empty_dir (st !! pid) in
    <[pid :=
        mkDir (project_file directory) (session_file directory)
              (events_file directory)
              (Some (get_resolved_ids st pid ++ [entry_id]))]> st.

(** Modelled from the spec: the text of a resolution record, which embeds
    the action and the rationale. The spec fixes no format; this one puts
    the action first and the rationale, when there is one, after it. *)
Definition resolution_text (action rationale : string) : string :=
  "Resolved: " +:+ action +:+
  (if String.eqb rationale "" then "" else " - " +:+ rationale).

(** Modelled from the spec: [ContextStore.resolve_entry]. The entry is
    looked up by a linear scan of the project's log; when it is absent the
    call fails with NotFound and changes nothing. Otherwise the id goes into
    the resolved-id set and a record with actor [human] and kind [note] is
    appended. The spec leaves the session of that record open; the model
    takes the session of the resolved entry. [now] is the clock and [new_id]
    the fresh id of the record. The result is the store after the call and
    the outcome of the call. *)
Definition resolve_entry (st : ContextStore) (pid entry_id action rationale : string)
    (now new_id : string) : ContextStore * result unit :=
  match find (fun e => String.eqb (id e) entry_id) (all_events st pid) with
  | None => (st, Raise KeyError_NotFound)
  | Some target =>
      let st := record_resolved pid entry_id st in
      let record :=
        mkEntry pid (session_name target) "human" (Tagged NOTE)
                (resolution_text action rationale) now [] false new_id in
      (append_entry now record st, Ok tt)
  end.

(** [needle in haystack] on two [str] values. *)
Definition str_contains (haystack needle : string) : Prop :=
  exists before after, haystack = before +:+ needle +:+ after.

#[global] Instance EventKind_eq_dec : EqDecision EventKind.
Proof. solve_decision. Defined.

#[global] Instance Kind_eq_dec : EqDecision Kind.
Proof. solve_decision. Defined.

(** The attention predicate in the words of the data model. *)
Definition attention_worthy (e : ContextEntry) : Prop :=
  kind e = Tagged ERROR \/ kind e = Tagged APPROVAL \/ human_attention_needed e = true.

#[global] Instance attention_worthy_dec e : Decision (attention_worthy e).
Proof. unfold attention_worthy. apply _. Defined.

(** ** Sample stores *)

Definition sample_entry (pid new_id : string) (k : EventKind) (attention : bool)
  : ContextEntry :=
  mkEntry pid "s1" "agent" (Tagged k) ("test " +:+ EventKind_value k) ""
          [] attention new_id.

(** Project [p1] with a status entry and an approval request. *)
Definition store_p1 : ContextStore :=
  append_entry "2024-05-01T10:00:01+00:00" (sample_entry "p1" "e2" APPROVAL false)
    (append_entry "2024-05-01T10:00:00+00:00" (sample_entry "p1" "e1" STATUS false) ∅).

(** Projects [p1] and [p2], each with one entry for the queue. *)
Definition store_p1_p2 : ContextStore :=
  append_entry "2024-05-01T10:00:02+00:00" (sample_entry "p2" "e3" ERROR false) store_p1.

(** The entries that [get_events] chooses from: the whole log, or, with a
    non-empty [since_ts], the entries stamped strictly after it. *)
Definition considered (st : ContextStore) (pid : string) (since_ts : option string)
  : list ContextEntry :=
  if truthy since_ts
  then filter (fun event => str_gt (ts event) (default "" since_ts)) (all_events st pid)
  else all_events st pid.

(** ** The server ([server.py]) *)

(** What the server takes from the Python runtime and does not implement
    itself. *)
Class Runtime : Type := {
  (** [json.loads(data)] on request bytes *)
  json_loads : bytes -> result json;
  (** [json.dumps(value)] *)
  json_dumps : json -> string;
  (** [str(value)] of a decoded JSON value, as string formatting applies it *)
  py_str : json -> string;
  (** [int(s)] *)
  py_int : string -> result Z;
  (** [payload.decode()]; [None] stands for [UnicodeDecodeError] *)
  bytes_decode : bytes -> option string;
  (** [base64.b64encode(hashlib.sha1(s.encode()).digest()).decode()] *)
  sha1_base64 : string -> string
}.

(** *** Strings *)

Definition CRLF : string := String "013"%char (String "010"%char EmptyString).
Definition DQUOTE : string := String "034"%char EmptyString.

(** [s.split(c, 1)[0]] *)
Fixpoint before_char (c : ascii) (s : string) : string :=
  match s with
  | EmptyString => EmptyString
  | String a s' => if Ascii.eqb a c then EmptyString else String a (before_char c s')
  end.

(** [s.rstrip(c)] for a single character [c] *)
Fixpoint rstrip_char (c : ascii) (s : string) : string :=
  match s with
  | EmptyString => EmptyString
  | String a s' =>
      match rstrip_char c s' with
      | EmptyString => if Ascii.eqb a c then EmptyString else String a EmptyString
      | r => String a r
      end
  end.

(** [s.split(c)] for a single character [c] *)
Fixpoint str_split (c : ascii) (s : string) : list string :=
  match s with
  | EmptyString => [EmptyString]
  | String a s' =>
      if Ascii.eqb a c then EmptyString :: str_split c s'
      else match str_split c s' with
           | head :: tail => String a head :: tail
           | [] => [String a EmptyString]
           end
  end.

(** [s.startswith(p)] *)
Fixpoint startswith (p s : string) : bool :=
  match p, s with
  | EmptyString, _ => true
  | String a p', String b s' => Ascii.eqb a b && startswith p' s'
  | String _ _, EmptyString => false
  end.

(** [s.endswith(p)] *)
Definition endswith (p s : string) : bool :=
  startswith (String.rev p) (String.rev s).

(** *** HTTP responses *)

Definition status_text (status : Z) : string :=
  if (status =? 200)%Z then "OK"
  else if (status =? 204)%Z then "No Content"
  else if (status =? 400)%Z then "Bad Request"
  else if (status =? 404)%Z then "Not Found"
  else "OK".

(** The bytes that [_send_response] hands to the writer. *)
Definition http_response (status : Z) (body : bytes) : bytes :=
  str_encode
    ("HTTP/1.1 " +:+ pretty status +:+ " " +:+ status_text status +:+ CRLF +:+
     "Content-Type: application/json" +:+ CRLF +:+
     "Content-Length: " +:+ pretty (length body) +:+ CRLF +:+
     "Access-Control-Allow-Origin: *" +:+ CRLF +:+
     "Access-Control-Allow-Methods: GET, POST, OPTIONS" +:+ CRLF +:+
     "Access-Control-Allow-Headers: Content-Type" +:+ CRLF +:+
     "Connection: close" +:+ CRLF +:+ CRLF)
  ++ body.

(** [_send_response]: the writer afterwards, and whether the call raised. *)
Definition _send_response (writer : StreamWriter) (status : Z) (body : bytes)
  : StreamWriter * result unit :=
  let writer := writer_write (http_response status body) writer in
  (writer, writer_drain writer).

(** [b'{"error":"..."}'] *)
Definition error_body (message : string) : bytes :=
  str_encode ("{" +:+ DQUOTE +:+ "error" +:+ DQUOTE +:+ ":" +:+
              DQUOTE +:+ message +:+ DQUOTE +:+ "}").

(** [headers.get(key, dflt)] *)
Definition headers_get (key : string) (headers : list (string * string)) (dflt : string)
  : string :=
  match find (fun kv => String.eqb (fst kv) key) headers with
  | Some kv => snd kv
  | None => dflt
  end.

Section Server.
Context `{Runtime}.

(** [_read_body]. The loop reads until the body has [content_length]
    bytes or the stream is at its end, however the bytes arrive in
    chunks; a body that is already longer is returned whole. *)
Definition _read_body (reader : StreamReader) (headers : list (string * string))
    (body_start : bytes) : result (bytes * StreamReader) :=
  content_length ← py_int (headers_get "content-length" headers "0");
  if (content_length =? 0)%Z then Ok (body_start, reader)
  else
    let missing := Z.to_nat (content_length - Z.of_nat (length body_start)) in
    Ok (body_start ++ take missing reader, drop missing reader).

(** [_resolve_entry]: the dict to answer with, or [None]; and the store
    afterwards. [payload.get] exists on a dict only. *)
Definition _resolve_entry (st : ContextStore) (entry_id : string) (payload : json)
    (now new_id : string) : ContextStore * result (option json) :=
  match payload with
  | JObj members =>
      let action := dict_get "action" members (JStr "acknowledge") in
      let text := dict_get "text" members (JStr "") in
      match
        find (fun pid =>
                existsb (fun event => String.eqb (id event) entry_id)
                        (get_events st pid None 1000))
             (list_projects st)
      with
      | Some pid =>
          let '(st, outcome) :=
            resolve_entry st pid entry_id (py_str action) (py_str text) now new_id in
          (st, _ ← outcome;
               Ok (Some (JObj [("resolved", JBool true); ("id", JStr entry_id);
                               ("action", action)])))
      | None => (st, Ok None)
      end
  | _ => (st, Raise AttributeError)
  end.

(** The [/projects] route. *)
Definition projects_listing (st : ContextStore) : json :=
  JArr (omap (fun pid =>
                project ← get_project st pid;
                Some (JObj [("project_id", JStr pid);
                            ("name", JStr (pc_name project));
                            ("status", JStr (pc_status project));
                            ("session_count",
                             JInt (Z.of_nat (length (list_sessions st pid))))]))
             (list_projects st)).

Definition json_option (s : option string) : json :=
  match s with
  | Some s => JStr s
  | None => JNull
  end.

(** [s.__dict__] of a [SessionContext] *)
Definition session_dict (s : SessionContext) : json :=
  JObj [("project_id", JStr (sc_project_id s));
        ("session_name", JStr (sc_session_name s));
        ("role", JStr (sc_role s));
        ("agent_id", json_option (sc_agent_id s));
        ("state", JStr (sc_state s));
        ("goal", json_option (sc_goal s));
        ("next_action", json_option (sc_next_action s));
        ("last_signal", json_option (sc_last_signal s));
        ("updated_at", JStr (sc_updated_at s))].

(** [_handle_http]: the writer and the store afterwards, and whether the
    call raised. [now] and [new_id] are the clock and the fresh id that a
    resolution uses. *)
Definition _handle_http (method path : string) (reader : StreamReader)
    (writer : StreamWriter) (headers : list (string * string)) (body_start : bytes)
    (st : ContextStore) (now new_id : string)
  : (StreamWriter * ContextStore) * result unit :=
  let respond st status body :=
    let '(writer, outcome) := _send_response writer status body in
    ((writer, st), outcome) in
  if String.eqb method "OPTIONS" then respond st 204%Z []
  else
    let clean_path := rstrip_char "/" (before_char "?" path) in
    if String.eqb clean_path "/queue" && String.eqb method "GET" then
      let entries := get_queue st None in
      respond st 200%Z (str_encode (json_dumps (JArr (to_dict <$> entries))))
    else if startswith "/queue/" clean_path && String.eqb method "POST" then
      let entry_id := nth 2 (str_split "/" clean_path) EmptyString in
      match _read_body reader headers body_start with
      | Raise e => ((writer, st), Raise e)
      | Ok (body_data, _) =>
          match (match body_data with [] => Ok (JObj []) | _ => json_loads body_data end) with
          | Raise JSONDecodeError => respond st 400%Z (error_body "invalid json")
          | Raise e => ((writer, st), Raise e)
          | Ok payload =>
              match _resolve_entry st entry_id payload now new_id with
              | (st, Raise e) => ((writer, st), Raise e)
              | (st, Ok (Some result)) =>
                  respond st 200%Z (str_encode (json_dumps result))
              | (st, Ok None) => respond st 404%Z (error_body "entry not found")
              end
          end
      end
    else if String.eqb clean_path "/projects" && String.eqb method "GET" then
      respond st 200%Z (str_encode (json_dumps (projects_listing st)))
    else if startswith "/projects/" clean_path && endswith "/sessions" clean_path
            && String.eqb method "GET" then
      let pid := nth 2 (str_split "/" clean_path) EmptyString in
      respond st 200%Z
        (str_encode (json_dumps (JArr (session_dict <$> list_sessions st pid))))
    else respond st 404%Z (error_body "not found").
End Server.

(** *** The queue server and its push sockets *)

(** A [QueueServer]. Connection objects live in [conns] under their
    identity; [ws_clients] is the set of registered ones. *)
Record QueueServer : Type := mkServer {
  store : ContextStore;
  conns : gmap nat WebSocketConnection;
  ws_clients : gset nat;
  _known_queue_ids : gset string
}.

Definition set_conn (cid : nat) (c : WebSocketConnection) (s : QueueServer) : QueueServer :=
  mkServer (store s) (<[cid := c]> (conns s)) (ws_clients s) (_known_queue_ids s).

Definition set_clients (clients : gset nat) (s : QueueServer) : QueueServer :=
  mkServer (store s) (conns s) clients (_known_queue_ids s).

Definition set_known (known : gset string) (s : QueueServer) : QueueServer :=
  mkServer (store s) (conns s) (ws_clients s) known.

Definition set_store (st : ContextStore) (s : QueueServer) : QueueServer :=
  mkServer st (conns s) (ws_clients s) (_known_queue_ids s).

Definition WS_GUID : string := "258EAFA5-E914-47DA-95CA-5AB9FBF10A37".

Definition queue_add_message (entry : ContextEntry) : json :=
  JObj [("type", JStr "queue_add"); ("entry", to_dict entry)].

Definition queue_remove_message (old_id : string) : json :=
  JObj [("type", JStr "queue_remove"); ("id", JStr old_id)].

Definition queue_snapshot_message (entries : list ContextEntry) : json :=
  JObj [("type", JStr "queue_snapshot"); ("entries", JArr (to_dict <$> entries))].

Section QueueServer.
Context `{Runtime}.

Definition ws_accept_key (key : string) : string := sha1_base64 (key +:+ WS_GUID).

(** One turn of the loop of [_broadcast]: a client whose [send] raises
    goes into [dead]. *)
Definition broadcast_to (message : string) (acc : QueueServer * gset nat) (cid : nat)
  : QueueServer * gset nat :=
  let '(s, dead) := acc in
  match conns s !! cid with
  | None => (s, dead)
  | Some client =>
      match send message client with
      | Ok client => (set_conn cid client s, dead)
      | Raise _ => (s, dead ∪ {[cid]})
      end
  end.

Definition _broadcast (message : string) (s : QueueServer) : QueueServer :=
  let '(s, dead) := foldl (broadcast_to message) (s, ∅) (elements (ws_clients s)) in
  set_clients (ws_clients s ∖ dead) s.

(** The body of the [try] in [_poll_queue]. [fault] is the exception, if
    any, that reading the store raises at this tick. The result is the
    server afterwards and whether the body raised. *)
Definition poll_body (fault : option exn) (s : QueueServer) : QueueServer * result unit :=
  match fault with
  | Some e => (s, Raise e)
  | None =>
      let current := get_queue (store s) None in
      let current_ids : gset string := list_to_set (id <$> current) in
      let s :=
        foldl (fun s entry =>
                 if decide (id entry ∉ _known_queue_ids s)
                 then _broadcast (json_dumps (queue_add_message entry)) s
                 else s)
              s current in
      let s :=
        foldl (fun s old_id => _broadcast (json_dumps (queue_remove_message old_id)) s)
              s (elements (_known_queue_ids s ∖ current_ids)) in
      (set_known current_ids s, Ok tt)
  end.

(** One iteration of [while True] in [_poll_queue], after the sleep:
    [except Exception] swallows the error, anything else ends the loop. *)
Definition poll_tick (fault : option exn) (s : QueueServer) : QueueServer * result unit :=
  match poll_body fault s with
  | (s, Ok _) => (s, Ok tt)
  | (s, Raise e) => if is_Exception e then (s, Ok tt) else (s, Raise e)
  end.

(** [_poll_queue] over the ticks of a run, each with the fault that the
    store raises at that tick and the store as other writers left it.
    [Ok] means that the loop is still going after the last of them. *)
Fixpoint _poll_queue (ticks : list (option exn * ContextStore)) (s : QueueServer)
  : QueueServer * result unit :=
  match ticks with
  | [] => (s, Ok tt)
  | (fault, st) :: ticks =>
      match poll_tick fault (set_store st s) with
      | (s, Ok _) => _poll_queue ticks s
      | (s, Raise e) => (s, Raise e)
      end
  end.

Definition handshake_response (headers : list (string * string)) : bytes :=
  let key := headers_get "sec-websocket-key" headers "" in
  let accept := ws_accept_key key in
  str_encode
    ("HTTP/1.1 101 Switching Protocols" +:+ CRLF +:+
     "Upgrade: websocket" +:+ CRLF +:+
     "Connection: Upgrade" +:+ CRLF +:+
     "Sec-WebSocket-Accept: " +:+ accept +:+ CRLF +:+
     "Access-Control-Allow-Origin: *" +:+ CRLF +:+ CRLF).

(** [_handle_ws_upgrade] up to its read loop: the handshake response, the
    new connection object, its registration, the snapshot. The connection
    gets an identity that no other connection has. [fault] is the
    exception, if any, that reading the store raises. *)
Definition ws_open (reader : StreamReader) (writer : StreamWriter)
    (headers : list (string * string)) (fault : option exn) (s : QueueServer)
  : QueueServer * result nat :=
  let writer := writer_write (handshake_response headers) writer in
  match writer_drain writer with
  | Raise e => (s, Raise e)
  | Ok _ =>
      let cid := fresh (dom (conns s)) in
      let conn := mkConn reader writer false in
      let s := set_clients (ws_clients s ∪ {[cid]}) (set_conn cid conn s) in
      match fault with
      | Some e => (s, Raise e)
      | None =>
          let entries := get_queue (store s) None in
          match send (json_dumps (queue_snapshot_message entries)) conn with
          | Ok conn => (set_conn cid conn s, Ok cid)
          | Raise e => (s, Raise e)
          end
      end
  end.

(** What [_handle_connection] adds around a handler: the exception is
    printed and the writer is closed. *)
Definition close_writer_of (cid : nat) (s : QueueServer) : QueueServer :=
  match conns s !! cid with
  | None => s
  | Some conn => set_conn cid (set_writer (writer_close (conn_writer conn)) conn) s
  end.

(** The [finally] of [_handle_ws_upgrade]:
    [self.ws_clients.discard(conn); await conn.close()]. *)
Definition ws_teardown (cid : nat) (s : QueueServer) : QueueServer * result unit :=
  let s := set_clients (ws_clients s ∖ {[cid]}) s in
  match conns s !! cid with
  | None => (s, Ok tt)
  | Some conn =>
      match close conn with
      | Ok conn => (set_conn cid conn s, Ok tt)
      | Raise e => (s, Raise e)
      end
  end.

(** The end of a push-socket handler: the [finally] of
    [_handle_ws_upgrade], then that of [_handle_connection]. *)
Definition ws_finish (cid : nat) (s : QueueServer) : QueueServer * result unit :=
  let '(s, outcome) := ws_teardown cid s in
  (close_writer_of cid s, outcome).

(** One turn of the read loop of [_handle_ws_upgrade] for connection
    [cid]: a [recv] while the connection is open, the end of the handler
    when the loop is left. *)
Definition ws_turn (cid : nat) (s : QueueServer) : QueueServer * result unit :=
  match conns s !! cid with
  | None => (s, Ok tt)
  | Some conn =>
      if conn_closed conn then ws_finish cid s
      else
        match recv bytes_decode conn with
        | Raise e => ((ws_finish cid s).1, Raise e)
        | Ok (conn, msg) =>
            let s := set_conn cid conn s in
            match msg with
            | None => ws_finish cid s
            | Some _ => (s, Ok tt)
            end
        end
  end.

(** *** Runs of the server

    The event loop interleaves the connection handlers and the poll task
    at their suspension points. An event is one stretch of code between
    two suspension points that this model tells apart. *)
Inductive event : Type :=
  (** a push-socket client connects and is upgraded *)
  | EvOpen (reader : StreamReader) (lost : bool) (headers : list (string * string))
           (fault : option exn)
  (** the read loop of a connection takes a turn *)
  | EvTurn (cid : nat)
  (** the poll task wakes up *)
  | EvTick (fault : option exn)
  (** the transport of a connection is lost *)
  | EvLost (cid : nat)
  (** some writer changes the files of the store *)
  | EvStore (st : ContextStore).

Definition step (s : QueueServer) (ev : event) : QueueServer :=
  match ev with
  | EvOpen reader lost headers fault =>
      match ws_open reader (mkWriter [] lost) headers fault s with
      | (s', Ok _) => s'
      | (s', Raise _) =>
          (* [_handle_connection]: [finally: writer.close()] *)
          close_writer_of (fresh (dom (conns s))) s'
      end
  | EvTurn cid => (ws_turn cid s).1
  | EvTick fault => (poll_tick fault s).1
  | EvLost cid =>
      match conns s !! cid with
      | None => s
      | Some conn =>
          set_conn cid (set_writer (mkWriter (wr_buf (conn_writer conn)) true) conn) s
      end
  | EvStore st => set_store st s
  end.

Definition run (s : QueueServer) (evs : list event) : QueueServer := foldl step s evs.

Definition initial_server (st : ContextStore) : QueueServer := mkServer st ∅ ∅ ∅.
End QueueServer.

(** ** Requests to the resolve route *)

(** [c in s] for a single character [c] *)
Fixpoint has_char (c : ascii) (s : string) : bool :=
  match s with
  | EmptyString => false
  | String a s' => Ascii.eqb a c || has_char c s'
  end.

(** The path [/queue/{id}/resolve]. *)
Definition resolve_path (entry_id : string) : string :=
  "/queue/" +:+ entry_id +:+ "/resolve".

(** The request body that [_handle_http] hands to [_resolve_entry]: no
    body at all, read as the empty object, or a JSON object. *)
Definition body_is_object `{Runtime} (body_data : bytes) (members : list (string * json))
  : Prop :=
  (body_data = [] /\ members = []) \/
  (body_data <> [] /\ json_loads body_data = Ok (JObj members)).

(** ** A sample runtime and a long log *)

Fixpoint digits_value (acc : Z) (s : string) : result Z :=
  match s with
  | EmptyString => Ok acc
  | String a s' =>
      match Ascii.is_nat a with
      | Some d => digits_value (acc * 10 + Z.of_nat d) s'
      | None => Raise ValueError
      end
  end.

(** [json.dumps] for values whose strings need no escapes. *)
Fixpoint sample_dumps (j : json) : string :=
  match j with
  | JNull => "null"
  | JBool true => "true"
  | JBool false => "false"
  | JInt n => pretty n
  | JFloat repr => repr
  | JStr s => DQUOTE +:+ s +:+ DQUOTE
  | JArr items =>
      "[" +:+
      (fix go (l : list json) : string :=
         match l with
         | [] => EmptyString
         | x :: l' =>
             sample_dumps x +:+
             match l' with [] => EmptyString | _ => ", " +:+ go l' end
         end) items +:+ "]"
  | JObj members =>
      "{" +:+
      (fix go (l : list (string * json)) : string :=
         match l with
         | [] => EmptyString
         | (k, v) :: l' =>
             DQUOTE +:+ k +:+ DQUOTE +:+ ": " +:+ sample_dumps v +:+
             match l' with [] => EmptyString | _ => ", " +:+ go l' end
         end) members +:+ "}"
  end.

(** A runtime for the concrete runs below. It reads unsigned decimal
    numbers, parses the body [{}] and takes every other request body for
    malformed JSON, prints JSON without escapes, and leaves the handshake
    key unhashed. *)
Definition sample_runtime : Runtime := {|
  json_loads := fun data =>
    match data with
    | [x7b; x7d] => Ok (JObj [])
    | _ => Raise JSONDecodeError
    end;
  json_dumps := sample_dumps;
  py_str := fun j => match j with JStr s => s | _ => sample_dumps j end;
  py_int := fun s => match s with EmptyString => Raise ValueError | _ => digits_value 0 s end;
  bytes_decode := decode_any;
  sha1_base64 := fun s => s
|}.

(** Project [p1] with an approval request [old] followed by a thousand
    status entries. *)
Definition store_long_log : ContextStore :=
  {[ "p1" := mkDir None None
       (Some (stamped "2024-05-01T10:00:00+00:00" (sample_entry "p1" "old" APPROVAL false)
              :: repeat (stamped "2024-05-01T10:00:01+00:00"
                           (sample_entry "p1" "new" STATUS false)) 1000))
       None ]}.

(** ** What a connection has been sent *)

(** The connection after [send]. *)
Definition sent (message : string) (c : WebSocketConnection) : WebSocketConnection :=
  match send message c with
  | Ok c => c
  | Raise _ => c
  end.

(** A connection that will not be delivered anything more: it is marked
    closed, or its transport is gone. *)
Definition quiet (c : WebSocketConnection) : Prop :=
  conn_closed c = true \/ wr_lost (conn_writer c) = true.

(** A text frame with the JSON of [message]. *)
Definition is_text_frame `{Runtime} (message : json) (chunk : bytes) : Prop :=
  ws_frame OP_TEXT (str_encode (json_dumps message)) = Ok chunk.

(** The chunks that may follow the snapshot on a connection: an add or a
    remove notification, a pong, the close frame. *)
Definition later_chunk `{Runtime} (chunk : bytes) : Prop :=
  (exists entry, is_text_frame (queue_add_message entry) chunk) \/
  (exists old_id, is_text_frame (queue_remove_message old_id) chunk) \/
  (exists payload, ws_frame OP_PONG payload = Ok chunk) \/
  ws_frame OP_CLOSE [] = Ok chunk.

(** The chunks delivered to a connection in their order: the handshake
    response and nothing more, on a connection that will get nothing more;
    or the handshake response, then one snapshot, then later chunks. *)
Definition snapshot_first `{Runtime} (c : WebSocketConnection) : Prop :=
  exists handshake,
    (wr_buf (conn_writer c) = [handshake] /\ quiet c) \/
    (exists entries snapshot rest,
       is_text_frame (queue_snapshot_message entries) snapshot /\
       wr_buf (conn_writer c) = handshake :: snapshot :: rest /\
       Forall later_chunk rest).

(** One connection between two states of the server: more chunks may have
    been delivered, all of them later chunks, and none if the connection was
    quiet, which it then still is. *)
Definition evolves `{Runtime} (c c' : WebSocketConnection) : Prop :=
  exists extra,
    wr_buf (conn_writer c') = wr_buf (conn_writer c) ++ extra /\
    Forall later_chunk extra /\
    (quiet c -> extra = [] /\ quiet c').

(** A server over [store_p1] with one registered connection, which
    remembers the id [gone] from an earlier tick. *)
Definition sample_server : QueueServer :=
  mkServer store_p1 {[ 0 := mkConn [] (mkWriter [] false) false ]} {[ 0 ]} {[ "gone" ]}.

(** The text frame of a message that is short enough to have one. *)
Definition text_frame (message : string) : bytes :=
  match ws_frame OP_TEXT (str_encode message) with
  | Ok frame => frame
  | Raise _ => []
  end.

(** Connection [cid] between two states of the server: an existing
    connection evolves, a new one starts with the snapshot. *)
Definition conn_step `{Runtime} (s s' : QueueServer) (cid : nat) : Prop :=
  match conns s !! cid with
  | Some c => exists c', conns s' !! cid = Some c' /\ evolves c c'
  | None => forall c', conns s' !! cid = Some c' -> snapshot_first c'
  end.

(** The server changes at most connection [cid], which evolves. *)
Definition updates `{Runtime} (cid : nat) (s s' : QueueServer) : Prop :=
  conns s' = conns s \/
  exists c c', conns s !! cid = Some c /\ evolves c c' /\
               conns s' = <[cid := c']> (conns s).

(** ** Reading a request body in chunks *)

(** [await reader.read(n)]. The stream is what the peer sends until it
    closes the connection; how much of it has arrived when the call returns
    is up to the transport: [arrived] bytes, though never none while the
    stream goes on. A negative [n] reads to the end of the stream. *)
Definition reader_read (arrived : nat) (n : Z) (r : StreamReader) : bytes * StreamReader :=
  if (n <? 0)%Z then (r, [])
  else
    let k := Nat.min (Z.to_nat n) (Nat.max 1 arrived) in
    (take k r, drop k r).

(** The [while] loop of [_read_body], where [arrivals i] is what has
    arrived at the [i]th read. *)
Fixpoint _read_body_loop (fuel : nat) (arrivals : nat -> nat) (i : nat)
    (content_length : Z) (body : bytes) (reader : StreamReader) : bytes * StreamReader :=
  match fuel with
  | O => (body, reader)
  | S fuel =>
      if (Z.of_nat (length body) <? content_length)%Z then
        let '(chunk, reader) :=
          reader_read (arrivals i) (content_length - Z.of_nat (length body)) reader in
        match chunk with
        | [] => (body, reader)
        | _ => _read_body_loop fuel arrivals (S i) content_length (body ++ chunk) reader
        end
      else (body, reader)
  end.

(** [_read_body] read by read. Every read that does not end the loop takes
    a byte off the stream, so the length of the stream bounds the number of
    iterations. *)
Definition _read_body_chunked `{Runtime} (arrivals : nat -> nat) (reader : StreamReader)
    (headers : list (string * string)) (body_start : bytes)
  : result (bytes * StreamReader) :=
  content_length ← py_int (headers_get "content-length" headers "0");
  if (content_length =? 0)%Z then Ok (body_start, reader)
  else Ok (_read_body_loop (S (length reader)) arrivals 0 content_length body_start reader).

(** A runtime that differs from [sample_runtime] in the request bodies it
    parses: [[]] is the empty array, [{}] the empty object. *)
Definition array_runtime : Runtime := {|
  json_loads := fun data =>
    match data with
    | [x5b; x5d] => Ok (JArr [])
    | [x7b; x7d] => Ok (JObj [])
    | _ => Raise JSONDecodeError
    end;
  json_dumps := sample_dumps;
  py_str := fun j => match j with JStr s => s | _ => sample_dumps j end;
  py_int := fun s => match s with EmptyString => Raise ValueError | _ => digits_value 0 s end;
  bytes_decode := decode_any;
  sha1_base64 := fun s => s
|}.

(** ** Sessions ([store.py]) *)

(** [_load_sessions]: the object in [sessions.json], in the order of the
    file; no sessions when the file is absent. *)
Definition _load_sessions (st : ContextStore) (pid : string)
  : list (string * SessionContext) :=
  default [] (st !! pid ≫= session_file).

(** [d[key] = value] on a dict, which keeps its keys in insertion order: a
    key that is present keeps its place, a new key goes last. *)
Definition dict_set {A} (key : string) (value : A) (d : list (string * A))
  : list (string * A) :=
  if existsb (fun kv => String.eqb (fst kv) key) d
  then (fun kv => if String.eqb (fst kv) key then (key, value) else kv) <$> d
  else d ++ [(key, value)].

(** The order of [sort_keys=True]. Python compares strings by code point,
    which on UTF-8 text is the order of the bytes. *)
Definition key_le {A} (a b : string * A) : Prop := String.leb (fst a) (fst b) = true.

#[global] Instance key_le_dec {A} (a b : string * A) : Decision (key_le a b).
Proof. unfold key_le. apply _. Defined.

(** The members of a dict as [json.dumps(..., sort_keys=True)] writes
    them. *)
Definition sort_keys {A} (d : list (string * A)) : list (string * A) :=
  merge_sort key_le d.

(** [session.updated_at = utcnow_iso()] *)
Definition stamp_session (now : string) (s : SessionContext) : SessionContext :=
  mkSession (sc_project_id s) (sc_session_name s) (sc_role s) (sc_agent_id s)
            (sc_state s) (sc_goal s) (sc_next_action s) (sc_last_signal s) now.

(** [upsert_session]: create the directory when missing, stamp the session,
    put it into the loaded object under its name, write the object back
    with sorted keys. *)
Definition upsert_session (now : string) (session : SessionContext) (st : ContextStore)
  : ContextStore :=
  let pid := sc_project_id session in
  let directory := default empty_dir (st !! pid) in
  let session := stamp_session now session in
  let sessions := dict_set (sc_session_name session) session (_load_sessions st pid) in
  <[pid :=
      mkDir (project_file directory) (Some (sort_keys sessions))
            (events_file directory) (resolved_file directory)]> st.

(** [get_session]. The payload of a session is never an empty dict, so
    [if not payload] tells only whether the name is there. *)
Definition get_session (st : ContextStore) (pid name : string) : option SessionContext :=
  snd <$> find (fun kv => String.eqb (fst kv) name) (_load_sessions st pid).

(** A developer session of project [p1]. *)
Definition sample_session (name : string) : SessionContext :=
  mkSession "p1" name "dev" None "running" (Some "ship it") (Some "waiting") None "".

(** ** The engine ([engine.py]) *)

(** [f"{count:03d}"]: the decimal digits of [count], with zeros in front
    up to three digits. *)
Definition format_03d (count : nat) : string :=
  if (count <? 1000)%nat then
    String (pretty_N_char (N.of_nat (count / 100)))
      (String (pretty_N_char (N.of_nat (count / 10 mod 10)))
         (String (pretty_N_char (N.of_nat (count mod 10))) EmptyString))
  else pretty count.

(** [f"{project_id}-{role}-{count:03d}"] *)
Definition session_candidate (pid role : string) (count : nat) : string :=
  pid +:+ "-" +:+ role +:+ "-" +:+ format_03d count.

(** The [while True] loop of [_next_session_name], from [count] on. *)
Fixpoint _next_session_name_loop (fuel : nat) (existing : list string)
    (pid role : string) (count : nat) : string :=
  let candidate := session_candidate pid role count in
  match fuel with
  | O => candidate
  | S fuel =>
      if bool_decide (candidate ∈ existing)
      then _next_session_name_loop fuel existing pid role (S count)
      else candidate
  end.

(** [_next_session_name]. Among one more candidate than there are sessions,
    one is free, so the loop is over after that many turns. *)
Definition _next_session_name (st : ContextStore) (pid role : string) : string :=
  let existing := sc_session_name <$> list_sessions st pid in
  _next_session_name_loop (S (length existing)) existing pid role 1.

(** A [ProjectSnapshot]. *)
Record ProjectSnapshot : Type := mkSnapshot {
  ps_project_id : string;
  ps_summary : string;
  ps_status : string;
  ps_open_blockers : list string;
  ps_next_steps : list string;
  ps_recent_highlights : list string;
  ps_updated_at : string
}.

(** [_build_snapshot], where [now] is the clock; [None] stands for the
    [RuntimeError] of a project that is not there. *)
Definition _build_snapshot (now : string) (st : ContextStore) (pid : string)
  : option ProjectSnapshot :=
  project ← get_project st pid;
  let events := get_events st pid None 5 in
  let blockers :=
    text <$> filter (fun entry => kind_value entry = EventKind_value ERROR) events in
  let highlights :=
    text <$> filter (fun entry => human_attention_needed entry = true \/
                                  kind_value entry = EventKind_value APPROVAL) events in
  let next_steps :=
    text <$> filter (fun entry => kind_value entry = EventKind_value STATUS) events in
  Some (mkSnapshot pid (pc_name project +:+ " status: " +:+ pc_status project)
          (pc_status project) (take 5 blockers) (take 10 next_steps)
          (take 10 highlights) now).

(* ===================================================================== *)
(** * Properties *)

(** ** Bytes and big-endian integers *)

Lemma byte_to_Z_range (b : byte) : (0 <= byte_to_Z b < 256)%Z.
Proof.
  unfold byte_to_Z. pose proof (Byte.to_N_bounded b). lia.
Qed.

Lemma byte_of_to_Z (b : byte) : byte_of_Z (byte_to_Z b) = Some b.
Proof.
  unfold byte_of_Z, byte_to_Z.
  destruct (Z.ltb_spec (Z.of_N (Byte.to_N b)) 0); [lia|].
  rewrite N2Z.id. apply Byte.of_to_N.
Qed.

Lemma byte_to_of_Z (v : Z) (b : byte) : byte_of_Z v = Some b -> byte_to_Z b = v.
Proof.
  unfold byte_of_Z, byte_to_Z.
  destruct (Z.ltb_spec v 0); [discriminate|].
  intros Hb. apply Byte.to_of_N in Hb. rewrite Hb. lia.
Qed.

Lemma byte_of_Z_Some (v : Z) : (0 <= v < 256)%Z -> exists b, byte_of_Z v = Some b.
Proof.
  intros Hv. unfold byte_of_Z.
  destruct (Z.ltb_spec v 0); [lia|].
  destruct (Byte.of_N (Z.to_N v)) as [b|] eqn:E; [eauto|].
  apply Byte.of_N_None_iff in E. lia.
Qed.

Lemma byte_to_Z_inj (a b : byte) : byte_to_Z a = byte_to_Z b -> a = b.
Proof.
  intros H. pose proof (byte_of_to_Z a) as Ha. rewrite H, byte_of_to_Z in Ha.
  congruence.
Qed.

Lemma byte_to_Z_wrap (v : Z) : byte_to_Z (byte_wrap v) = (v mod 256)%Z.
Proof.
  unfold byte_wrap.
  destruct (byte_of_Z_Some (v mod 256)) as [b Hb]; [apply Z.mod_pos_bound; lia|].
  rewrite Hb. simpl. by apply byte_to_of_Z.
Qed.

Lemma byte_to_Z_xor (a b : byte) :
  byte_to_Z (byte_xor a b) = Z.lxor (byte_to_Z a) (byte_to_Z b).
Proof.
  unfold byte_xor. rewrite byte_to_Z_wrap.
  pose proof (byte_to_Z_range a) as Ha. pose proof (byte_to_Z_range b) as Hb.
  apply Z.mod_small. split; [apply Z.lxor_nonneg; lia|].
  change 256%Z with (2 ^ 8)%Z.
  destruct (Z.eq_dec (Z.lxor (byte_to_Z a) (byte_to_Z b)) 0%Z) as [->|Hnz]; [lia|].
  apply Z.log2_lt_pow2; [assert (0 <= Z.lxor (byte_to_Z a) (byte_to_Z b))%Z by (apply Z.lxor_nonneg; lia); lia|].
  eapply Z.le_lt_trans; [apply Z.log2_lxor; lia|].
  apply Z.max_lub_lt.
  - destruct (Z.eq_dec (byte_to_Z a) 0%Z) as [->|]; [simpl; lia|].
    apply Z.log2_lt_pow2; lia.
  - destruct (Z.eq_dec (byte_to_Z b) 0%Z) as [->|]; [simpl; lia|].
    apply Z.log2_lt_pow2; lia.
Qed.

Lemma byte_xor_involutive (a b : byte) : byte_xor (byte_xor a b) b = a.
Proof.
  apply byte_to_Z_inj. rewrite !byte_to_Z_xor.
  by rewrite Z.lxor_assoc, Z.lxor_nilpotent, Z.lxor_0_r.
Qed.

Lemma be_decode_snoc (l : bytes) (b : byte) :
  be_decode (l ++ [b]) = (be_decode l * 256 + byte_to_Z b)%Z.
Proof. unfold be_decode. by rewrite fold_left_app. Qed.

Lemma be_encode_length (w : nat) (n : Z) : length (be_encode w n) = w.
Proof.
  revert n. induction w as [|w IH]; intros n; simpl; [done|].
  rewrite length_app, IH. simpl. lia.
Qed.

Lemma be_decode_encode (w : nat) (n : Z) :
  be_decode (be_encode w n) = (n mod 256 ^ Z.of_nat w)%Z.
Proof.
  revert n. induction w as [|w IH]; intros n.
  - simpl. by rewrite Z.mod_1_r.
  - cbn [be_encode]. rewrite be_decode_snoc, IH, byte_to_Z_wrap.
    rewrite Nat2Z.inj_succ, Z.pow_succ_r by lia.
    rewrite Z.rem_mul_r by lia. lia.
Qed.

Lemma be_decode_encode_small (w : nat) (n : Z) :
  (0 <= n < 256 ^ Z.of_nat w)%Z -> be_decode (be_encode w n) = n.
Proof. intros Hn. rewrite be_decode_encode. by apply Z.mod_small. Qed.

Lemma be_decode_bound (data : bytes) :
  (0 <= be_decode data < 256 ^ Z.of_nat (length data))%Z.
Proof.
  induction data as [|b data IH] using rev_ind.
  - simpl. unfold be_decode. simpl. lia.
  - rewrite be_decode_snoc, length_app. simpl.
    pose proof (byte_to_Z_range b) as Hb.
    replace (Z.of_nat (length data + 1)) with (Z.succ (Z.of_nat (length data))) by lia.
    rewrite Z.pow_succ_r by lia. lia.
Qed.

(** The 16-bit and 64-bit length fields are big-endian. *)
Lemma be_decode_2 (hi lo : byte) :
  be_decode [hi; lo] = (byte_to_Z hi * 256 + byte_to_Z lo)%Z.
Proof. unfold be_decode. simpl. lia. Qed.

Lemma be_decode_cons (b : byte) (data : bytes) :
  be_decode (b :: data) =
  (byte_to_Z b * 256 ^ Z.of_nat (length data) + be_decode data)%Z.
Proof.
  induction data as [|x data IH] using rev_ind.
  - unfold be_decode. simpl. lia.
  - rewrite app_comm_cons, !be_decode_snoc, IH, length_app. simpl.
    replace (Z.of_nat (length data + 1)) with (Z.succ (Z.of_nat (length data))) by lia.
    rewrite Z.pow_succ_r by lia. lia.
Qed.

(** ** Reading from a stream *)

Lemma readexactly_app (a : bytes) (rest : StreamReader) :
  readexactly (Z.of_nat (length a)) (a ++ rest) = Ok (a, rest).
Proof.
  unfold readexactly.
  destruct (Z.ltb_spec (Z.of_nat (length a)) 0); [lia|].
  destruct (Z.leb_spec (Z.of_nat (length a)) (Z.of_nat (length (a ++ rest)))) as [_|Hlt].
  - rewrite Nat2Z.id. by rewrite take_app_length, drop_app_length.
  - rewrite length_app in Hlt. lia.
Qed.

Lemma readexactly_Ok (n : Z) (r : StreamReader) (data : bytes) (r' : StreamReader) :
  readexactly n r = Ok (data, r') ->
  r = data ++ r' /\ Z.of_nat (length data) = n.
Proof.
  unfold readexactly.
  destruct (Z.ltb_spec n 0); [discriminate|].
  destruct (Z.leb_spec n (Z.of_nat (length r))); [|discriminate].
  intros [= <- <-]. split; [by rewrite take_drop|].
  rewrite length_take. lia.
Qed.

(** A failed read means that the stream ended early. *)
Lemma readexactly_Raise (n : Z) (r : StreamReader) (e : exn) :
  (0 <= n)%Z -> readexactly n r = Raise e ->
  e = IncompleteReadError /\ (Z.of_nat (length r) < n)%Z.
Proof.
  unfold readexactly. intros Hn.
  destruct (Z.ltb_spec n 0); [lia|].
  destruct (Z.leb_spec n (Z.of_nat (length r))); [discriminate|].
  intros [= <-]. done.
Qed.

(** ** Frames *)

Lemma opcode_of_first_byte (opcode : Z) :
  (0 <= opcode < 16)%Z -> Z.land (Z.lor 0x80 opcode) 0xF = opcode.
Proof.
  intros H. rewrite Z.land_lor_distr_l.
  change 0xF%Z with (Z.ones 4). rewrite !Z.land_ones by lia.
  change (128 mod 2 ^ 4)%Z with 0%Z. rewrite Z.lor_0_l.
  apply Z.mod_small. lia.
Qed.

Lemma first_byte_range (opcode : Z) :
  (0 <= opcode < 16)%Z -> (0 <= Z.lor 0x80 opcode < 256)%Z.
Proof.
  intros H. split; [apply Z.lor_nonneg; lia|].
  assert (Hd : Z.land 0x80 opcode = 0%Z).
  { change 0x80%Z with (Z.shiftl 1 7).
    apply Z.bits_inj'. intros n Hn. rewrite Z.land_spec, Z.bits_0.
    destruct (Z.ltb_spec n 7).
    - rewrite Z.shiftl_spec_low by lia. done.
    - rewrite andb_comm.
      replace (Z.testbit opcode n) with false; [done|].
      symmetry. destruct (Z.eq_dec opcode 0%Z) as [->|]; [apply Z.bits_0|].
      apply Z.bits_above_log2; [lia|].
      assert (Z.log2 opcode < 4)%Z by (apply Z.log2_lt_pow2; lia). lia. }
  pose proof (Z.add_lor_land 0x80 opcode) as E. rewrite Hd in E. lia.
Qed.

Lemma readexactly_prefix (n : Z) (a : bytes) (rest : StreamReader) :
  n = Z.of_nat (length a) -> readexactly n (a ++ rest) = Ok (a, rest).
Proof. intros ->. apply readexactly_app. Qed.

(** What [ws_read_frame] does on a stream that starts with a well-formed
    frame: two header bytes, the extended length [ext] that the 7-bit length
    field calls for, the mask key when the mask bit is set, the payload. *)
Lemma ws_read_frame_wire (b0 b1 : byte) (ext mask payload : bytes) (rest : StreamReader) :
  let len7 := Z.land (byte_to_Z b1) 0x7F in
  let masked := Z.land (Z.shiftr (byte_to_Z b1) 7) 1 in
  ((len7 < 126)%Z /\ ext = [] /\ Z.of_nat (length payload) = len7) \/
  (len7 = 126%Z /\ length ext = 2 /\ Z.of_nat (length payload) = be_decode ext) \/
  (len7 = 127%Z /\ length ext = 8 /\ Z.of_nat (length payload) = be_decode ext) ->
  (if (masked =? 0)%Z then mask = [] else length mask = 4) ->
  ws_read_frame (b0 :: b1 :: ext ++ mask ++ payload ++ rest) =
  Ok ((Z.land (byte_to_Z b0) 0xF,
       if (masked =? 0)%Z then payload else unmask mask payload), rest).
Proof.
  intros len7 masked Hlen Hmask. unfold ws_read_frame.
  change (b0 :: b1 :: ext ++ mask ++ payload ++ rest)
    with ([b0; b1] ++ (ext ++ mask ++ payload ++ rest)).
  rewrite (readexactly_prefix 2 [b0; b1]) by done.
  cbn [mbind result_bind nth]. fold len7. fold masked.
  assert (Htail : forall L : Z, L = Z.of_nat (length payload) ->
    ((if (masked =? 0)%Z
      then Ok (None, mask ++ payload ++ rest)
      else '(m, reader) ← readexactly 4 (mask ++ payload ++ rest); Ok (Some m, reader))
     ≫= λ '(mask0, reader0),
          readexactly L reader0
          ≫= λ '(payload0, reader1),
               Ok (Z.land (byte_to_Z b0) 15,
                   match mask0 with
                   | Some m => unmask m payload0
                   | None => payload0
                   end, reader1)) =
    Ok (Z.land (byte_to_Z b0) 15,
        if (masked =? 0)%Z then payload else unmask mask payload, rest)).
  { intros L ->. destruct (masked =? 0)%Z.
    - subst mask. cbn [mbind result_bind app]. by rewrite readexactly_app.
    - rewrite readexactly_prefix by lia. cbn [mbind result_bind].
      by rewrite readexactly_app. }
  destruct Hlen as [(Hlt & -> & Hp)|[(H7 & He & Hp)|(H7 & He & Hp)]].
  - destruct (Z.eqb_spec len7 126); [lia|].
    destruct (Z.eqb_spec len7 127); [lia|].
    cbn [mbind result_bind app]. by apply Htail.
  - rewrite H7. cbn [Z.eqb Pos.eqb]. rewrite readexactly_prefix by lia.
    cbn [mbind result_bind]. by apply Htail.
  - rewrite H7. cbn [Z.eqb Pos.eqb]. rewrite readexactly_prefix by lia.
    cbn [mbind result_bind]. by apply Htail.
Qed.

Lemma ws_frame_Ok (opcode : Z) (payload : bytes) :
  (0 <= opcode < 16)%Z -> (Z.of_nat (length payload) < 2 ^ 64)%Z ->
  exists b0 ext,
    ws_frame opcode payload = Ok (b0 :: ext ++ payload) /\
    byte_to_Z b0 = Z.lor 0x80 opcode /\
    ((Z.of_nat (length payload) < 126)%Z /\
       ext = [byte_wrap (Z.of_nat (length payload))] \/
     (126 <= Z.of_nat (length payload) < 65536)%Z /\
       ext = x7e :: be_encode 2 (Z.of_nat (length payload)) \/
     (65536 <= Z.of_nat (length payload))%Z /\
       ext = x7f :: be_encode 8 (Z.of_nat (length payload))).
Proof.
  intros Hop Hlen. unfold ws_frame.
  destruct (byte_of_Z_Some (Z.lor 0x80 opcode)) as [b0 Hb0];
    [by apply first_byte_range|].
  rewrite Hb0. exists b0.
  destruct (Z.ltb_spec (Z.of_nat (length payload)) 126).
  { eexists. cbn [mbind result_bind]. split; [done|].
    split; [by apply byte_to_of_Z|]. by left. }
  destruct (Z.ltb_spec (Z.of_nat (length payload)) 65536).
  { eexists. unfold struct_pack_H.
    destruct (Z.leb_spec 0 (Z.of_nat (length payload))); [|lia].
    destruct (Z.ltb_spec (Z.of_nat (length payload)) 65536); [|lia].
    cbn [andb mbind result_bind]. split; [done|].
    split; [by apply byte_to_of_Z|]. right; left. split; [lia|done]. }
  eexists. unfold struct_pack_Q.
  destruct (Z.leb_spec 0 (Z.of_nat (length payload))); [|lia].
  destruct (Z.ltb_spec (Z.of_nat (length payload)) (2 ^ 64)); [|lia].
  cbn [andb mbind result_bind]. split; [done|].
  split; [by apply byte_to_of_Z|]. right; right. split; [lia|done].
Qed.

(** Decoding what [ws_write_frame] encodes gives back the opcode and the
    payload, for every payload that a 64-bit length can describe. *)
Lemma ws_frame_roundtrip (opcode : Z) (payload : bytes) (rest : StreamReader) :
  (0 <= opcode < 16)%Z -> (Z.of_nat (length payload) < 2 ^ 64)%Z ->
  exists frame,
    ws_frame opcode payload = Ok frame /\
    ws_read_frame (frame ++ rest) = Ok ((opcode, payload), rest).
Proof.
  intros Hop Hlen.
  destruct (ws_frame_Ok opcode payload Hop Hlen) as (b0 & ext & Hf & Hb0 & Hext).
  exists (b0 :: ext ++ payload). split; [done|].
  assert (Hunmasked : forall b1 ext',
    (byte_to_Z b1 < 128)%Z ->
    ((Z.land (byte_to_Z b1) 0x7F < 126)%Z /\ ext' = [] /\
       Z.of_nat (length payload) = Z.land (byte_to_Z b1) 0x7F) \/
    (Z.land (byte_to_Z b1) 0x7F = 126%Z /\ length ext' = 2 /\
       Z.of_nat (length payload) = be_decode ext') \/
    (Z.land (byte_to_Z b1) 0x7F = 127%Z /\ length ext' = 8 /\
       Z.of_nat (length payload) = be_decode ext') ->
    ws_read_frame (b0 :: b1 :: ext' ++ payload ++ rest) = Ok ((opcode, payload), rest)).
  { intros b1 ext' Hb1 Hcase.
    pose proof (byte_to_Z_range b1) as Hr.
    assert (Hm : Z.land (Z.shiftr (byte_to_Z b1) 7) 1 = 0%Z).
    { rewrite Z.shiftr_div_pow2 by lia. rewrite Z.div_small by lia. done. }
    pose proof (ws_read_frame_wire b0 b1 ext' [] payload rest) as Hw.
    cbv zeta in Hw. rewrite Hm in Hw. cbn [Z.eqb app] in Hw.
    rewrite Hw by done. rewrite Hb0, opcode_of_first_byte by done. done. }
  assert (Hland : forall v, (0 <= v < 128)%Z -> Z.land v 0x7F = v).
  { intros v Hv. change 0x7F%Z with (Z.ones 7). rewrite Z.land_ones by lia.
    apply Z.mod_small. lia. }
  destruct Hext as [[Hl ->]|[[Hl ->]|[Hl ->]]].
  - cbn [app]. apply (Hunmasked _ []).
    + rewrite byte_to_Z_wrap, Z.mod_small by lia. lia.
    + left. rewrite byte_to_Z_wrap, Z.mod_small by lia.
      rewrite Hland by lia. split; [lia|done].
  - cbn [app]. rewrite <- app_assoc. apply Hunmasked; [done|].
    right; left. split; [done|]. split; [apply be_encode_length|].
    rewrite be_decode_encode_small; [done|]. simpl. lia.
  - cbn [app]. rewrite <- app_assoc. apply Hunmasked; [done|].
    right; right. split; [done|]. split; [apply be_encode_length|].
    rewrite be_decode_encode_small; [done|].
    change (256 ^ Z.of_nat 8)%Z with (2 ^ 64)%Z. lia.
Qed.

Lemma unmask_lookup (mask payload : bytes) (i : nat) :
  unmask mask payload !! i =
  (fun b => byte_xor b (nth (i mod 4) mask x00)) <$> payload !! i.
Proof. unfold unmask. by rewrite list_lookup_imap. Qed.

Lemma unmask_length (mask payload : bytes) :
  length (unmask mask payload) = length payload.
Proof. unfold unmask. by rewrite length_imap. Qed.

(** Masking is an involution: applying the same key twice restores the
    payload, which is what lets the decoder undo the peer's masking. *)
Lemma unmask_involutive (mask payload : bytes) :
  unmask mask (unmask mask payload) = payload.
Proof.
  apply list_eq. intros i. rewrite !unmask_lookup.
  destruct (payload !! i) as [b|]; simpl; [|done].
  by rewrite byte_xor_involutive.
Qed.

Lemma mask_bit_set (b1 : byte) :
  (128 <= byte_to_Z b1)%Z -> Z.land (Z.shiftr (byte_to_Z b1) 7) 1 = 1%Z.
Proof.
  intros H. pose proof (byte_to_Z_range b1) as Hr.
  rewrite Z.shiftr_div_pow2 by lia.
  assert (byte_to_Z b1 / 2 ^ 7 = 1)%Z as ->; [|done].
  symmetry. apply Z.div_unique with (r := (byte_to_Z b1 - 128)%Z); lia.
Qed.

Lemma ws_write_frame_Ok (w : StreamWriter) (opcode : Z) (payload frame : bytes) :
  wr_lost w = false -> ws_frame opcode payload = Ok frame ->
  ws_write_frame w opcode payload = Ok (mkWriter (wr_buf w ++ [frame]) false).
Proof.
  intros Hw Hf. unfold ws_write_frame, writer_write, writer_drain.
  rewrite Hf. cbn [mbind result_bind]. rewrite Hw. done.
Qed.

(** C5. Frame round trip: for every opcode and every payload of 0, 125, 126
    or 65536 bytes, [ws_read_frame] applied to the bytes that
    [ws_write_frame] puts on the wire returns the opcode and the payload
    unchanged. And on a masked frame the decoder returns the payload bytes
    each XOR-ed with [mask[i mod 4]], where the payload length is the 7-bit
    field itself below 126, the next two bytes read big-endian after 126,
    and the next eight bytes read big-endian after 127. *)
Theorem frame_roundtrip_and_unmasking
    (opcode : Z) (payload : bytes) (w : StreamWriter) (rest : StreamReader)
    (b0 b1 : byte) (ext mask wire_payload : bytes) (rest' : StreamReader) :
  (0 <= opcode < 16)%Z ->
  Z.of_nat (length payload) = 0%Z \/ Z.of_nat (length payload) = 125%Z \/
    Z.of_nat (length payload) = 126%Z \/ Z.of_nat (length payload) = 65536%Z ->
  wr_lost w = false ->
  (128 <= byte_to_Z b1)%Z ->
  length mask = 4 ->
  (let len7 := Z.land (byte_to_Z b1) 0x7F in
   ((len7 < 126)%Z /\ ext = [] /\ Z.of_nat (length wire_payload) = len7) \/
   (len7 = 126%Z /\ (exists hi lo, ext = [hi; lo] /\
      Z.of_nat (length wire_payload) = (byte_to_Z hi * 256 + byte_to_Z lo)%Z)) \/
   (len7 = 127%Z /\ length ext = 8 /\
      Z.of_nat (length wire_payload) =
      fold_left (fun acc b => (acc * 256 + byte_to_Z b)%Z) ext 0%Z)) ->
  (exists frame,
     ws_write_frame w opcode payload = Ok (mkWriter (wr_buf w ++ [frame]) false) /\
     ws_read_frame (frame ++ rest) = Ok ((opcode, payload), rest)) /\
  (exists decoded,
     ws_read_frame (b0 :: b1 :: ext ++ mask ++ wire_payload ++ rest') =
       Ok ((Z.land (byte_to_Z b0) 0xF, decoded), rest') /\
     length decoded = length wire_payload /\
     forall i b, wire_payload !! i = Some b ->
       exists d k, decoded !! i = Some d /\ mask !! (i mod 4) = Some k /\
         byte_to_Z d = Z.lxor (byte_to_Z b) (byte_to_Z k)).
Proof.
  intros Hop Hlen Hw Hb1 Hmask Hcase. split.
  - destruct (ws_frame_roundtrip opcode payload rest Hop) as (frame & Hf & Hr).
    { lia. }
    exists frame. split; [by apply ws_write_frame_Ok|done].
  - exists (unmask mask wire_payload).
    pose proof (ws_read_frame_wire b0 b1 ext mask wire_payload rest') as Hwire.
    cbv zeta in Hwire, Hcase. rewrite (mask_bit_set b1 Hb1) in Hwire.
    cbn [Z.eqb] in Hwire.
    split; [|split].
    + apply Hwire; [|done].
      destruct Hcase as [?|[(H7 & hi & lo & -> & Hp)|(H7 & He & Hp)]].
      * by left.
      * right; left. by rewrite be_decode_2.
      * right; right. done.
    + apply unmask_length.
    + intros i b Hi. rewrite unmask_lookup, Hi. simpl.
      destruct (lookup_lt_is_Some_2 mask (i mod 4)) as [k Hk].
      { rewrite Hmask. apply Nat.mod_upper_bound. lia. }
      exists (byte_xor b k), k.
      rewrite (nth_lookup_Some _ _ _ _ Hk). split; [done|]. split; [done|].
      apply byte_to_Z_xor.
Qed.

Lemma frame_roundtrip_and_unmasking_witness :
  (exists frame,
     ws_write_frame (mkWriter [] false) OP_PING [] =
       Ok (mkWriter ([] ++ [frame]) false) /\
     ws_read_frame (frame ++ [x01]) = Ok ((OP_PING, []), [x01])) /\
  (exists decoded,
     ws_read_frame
       (x81 :: x82 :: [] ++ [x01; x02; x03; x04] ++ [x69; x6b] ++ []) =
       Ok ((Z.land (byte_to_Z x81) 0xF, decoded), []) /\
     length decoded = length [x69; x6b] /\
     forall i b, [x69; x6b] !! i = Some b ->
       exists d k, decoded !! i = Some d /\
         [x01; x02; x03; x04] !! (i mod 4) = Some k /\
         byte_to_Z d = Z.lxor (byte_to_Z b) (byte_to_Z k)).
Proof.
  apply (frame_roundtrip_and_unmasking OP_PING [] (mkWriter [] false) [x01]
           x81 x82 [] [x01; x02; x03; x04] [x69; x6b] []).
  - unfold OP_PING. lia.
  - left. reflexivity.
  - reflexivity.
  - vm_compute. discriminate.
  - reflexivity.
  - left. vm_compute. split; [reflexivity|]. split; reflexivity.
Defined.

(** The boundary lengths of the length-escape scheme on concrete payloads:
    the round trip at 0, 125 and 126 bytes, and the header written for
    65536 bytes. *)
Example frame_roundtrip_boundaries :
  forall n, n ∈ [0; 125; 126] ->
  (ws_frame OP_TEXT (repeat x61 n) ≫= fun f => ws_read_frame (f ++ [xff]))
  = Ok ((OP_TEXT, repeat x61 n), [xff]).
Proof.
  intros n Hn.
  repeat (apply elem_of_cons in Hn as [-> | Hn]; [vm_compute; reflexivity|]).
  by apply elem_of_nil in Hn.
Qed.

Example frame_header_65536 :
  (take 11 <$> ws_frame OP_TEXT (repeat x61 (Z.to_nat 65536)) : result bytes) =
  Ok [x81; x7f; x00; x00; x00; x00; x00; x01; x00; x00; x61].
Proof. vm_compute. reflexivity. Qed.

(** ** Receiving *)

Lemma rbind_Ok {A B} (m : result A) (k : A -> result B) (b : B) :
  m ≫= k = Ok b -> exists a, m = Ok a /\ k a = Ok b.
Proof. destruct m as [a|e]; [eauto|discriminate]. Qed.

Lemma rbind_Raise {A B} (m : result A) (k : A -> result B) (e : exn) :
  m ≫= k = Raise e -> m = Raise e \/ exists a, m = Ok a /\ k a = Raise e.
Proof. destruct m as [a|e']; [eauto|]. intros [= ->]. by left. Qed.

Lemma len7_range (b1 : byte) : (0 <= Z.land (byte_to_Z b1) 0x7F < 128)%Z.
Proof.
  change 0x7F%Z with (Z.ones 7). rewrite Z.land_ones by lia.
  apply Z.mod_pos_bound. lia.
Qed.

(** A frame that was read took at least its two header bytes off the
    stream; its opcode is a 4-bit value and its payload is shorter than
    [2^64] bytes. *)
Lemma ws_read_frame_Ok (r : StreamReader) (opcode : Z) (payload : bytes) (r' : StreamReader) :
  ws_read_frame r = Ok ((opcode, payload), r') ->
  length r' + 2 <= length r /\ (0 <= opcode < 16)%Z /\
  (Z.of_nat (length payload) < 2 ^ 64)%Z.
Proof.
  unfold ws_read_frame. intros H.
  apply rbind_Ok in H as ([header r1] & Hh & H).
  apply readexactly_Ok in Hh as [-> Hhl].
  cbv zeta in H.
  apply rbind_Ok in H as ([len r2] & Hl & H).
  apply rbind_Ok in H as ([mask r3] & Hm & H).
  apply rbind_Ok in H as ([p r4] & Hp & H).
  injection H as <- <- ->.
  apply readexactly_Ok in Hp as [-> Hpl].
  assert (Hr2 : length r2 <= length r1 /\ (0 <= len < 2 ^ 64)%Z).
  { pose proof (len7_range (nth 1 header x00)) as H7.
    destruct (_ =? 126)%Z.
    - apply rbind_Ok in Hl as ([d r5] & Hd & [= <- <-]).
      apply readexactly_Ok in Hd as [-> Hdl]. rewrite length_app.
      pose proof (be_decode_bound d) as Hb.
      replace (Z.of_nat (length d)) with 2%Z in Hb by lia. lia.
    - destruct (_ =? 127)%Z.
      + apply rbind_Ok in Hl as ([d r5] & Hd & [= <- <-]).
        apply readexactly_Ok in Hd as [-> Hdl]. rewrite length_app.
        pose proof (be_decode_bound d) as Hb.
        replace (Z.of_nat (length d)) with 8%Z in Hb by lia.
        change (256 ^ 8)%Z with (2 ^ 64)%Z in Hb. lia.
      + injection Hl as <- <-. lia. }
  assert (Hr3 : length (p ++ r') <= length r2).
  { destruct (_ =? 0)%Z.
    - by injection Hm as <- <-.
    - apply rbind_Ok in Hm as ([d r5] & Hd & [= <- <-]).
      apply readexactly_Ok in Hd as [-> Hdl]. rewrite (length_app d). lia. }
  rewrite length_app in Hr3 |- *.
  split; [lia|]. split.
  - change 0xF%Z with (Z.ones 4). rewrite Z.land_ones by lia.
    apply Z.mod_pos_bound. lia.
  - destruct mask; rewrite ?unmask_length; lia.
Qed.

(** The only way for [ws_read_frame] to fail is a stream that ends before
    the frame does. *)
Lemma ws_read_frame_Raise (r : StreamReader) (e : exn) :
  ws_read_frame r = Raise e -> e = IncompleteReadError.
Proof.
  unfold ws_read_frame. intros H.
  apply rbind_Raise in H as [H|([header r1] & _ & H)];
    [by apply readexactly_Raise in H as [-> _]|].
  cbv zeta in H.
  pose proof (len7_range (nth 1 header x00)) as H7.
  apply rbind_Raise in H as [H|([len r2] & Hl & H)].
  { destruct (_ =? 126)%Z.
    - apply rbind_Raise in H as [H|([d r5] & _ & H)]; [|discriminate].
      by apply readexactly_Raise in H as [-> _].
    - destruct (_ =? 127)%Z; [|discriminate].
      apply rbind_Raise in H as [H|([d r5] & _ & H)]; [|discriminate].
      by apply readexactly_Raise in H as [-> _]. }
  assert (0 <= len)%Z.
  { destruct (_ =? 126)%Z.
    - apply rbind_Ok in Hl as ([d r5] & _ & [= <- <-]).
      pose proof (be_decode_bound d). lia.
    - destruct (_ =? 127)%Z.
      + apply rbind_Ok in Hl as ([d r5] & _ & [= <- <-]).
        pose proof (be_decode_bound d). lia.
      + injection Hl as <- <-. lia. }
  apply rbind_Raise in H as [H|([mask r3] & Hm & H)].
  { destruct (_ =? 0)%Z; [discriminate|].
    apply rbind_Raise in H as [H|([d r5] & _ & H)]; [|discriminate].
    by apply readexactly_Raise in H as [-> _]. }
  apply rbind_Raise in H as [H|([p r4] & _ & H)]; [|discriminate].
  by apply readexactly_Raise in H as [-> _].
Qed.

Lemma ws_write_frame_Raise (w : StreamWriter) (opcode : Z) (payload : bytes) (e : exn) :
  ws_write_frame w opcode payload = Raise e -> is_Exception e = true.
Proof.
  unfold ws_write_frame, ws_frame, struct_pack_H, struct_pack_Q, writer_drain, writer_write.
  intros H.
  repeat (match type of H with
          | context [match ?x with _ => _ end] => destruct x
          end; cbn [mbind result_bind wr_lost] in H; try discriminate);
    by injection H as <-.
Qed.

Section RecvProperties.
Variable decode : bytes -> option string.

(** More fuel than the stream has bytes is always enough. *)
Lemma recv_fuel_enough (n m : nat) (c : WebSocketConnection) :
  length (conn_reader c) < n -> length (conn_reader c) < m ->
  recv_fuel decode n c = recv_fuel decode m c.
Proof.
  revert m c. induction n as [|n IH]; intros [|m] c Hn Hm; try lia.
  simpl. destruct (ws_read_frame (conn_reader c)) as [[[op p] r]|e] eqn:Hr; [|done].
  apply ws_read_frame_Ok in Hr as (Hlen & _ & _).
  destruct (op =? OP_CLOSE)%Z; [done|].
  destruct (op =? OP_PING)%Z; [|done].
  destruct (ws_write_frame _ OP_PONG p) as [w|e]; [|done].
  apply IH; simpl; lia.
Qed.

(** [recv] satisfies the recursive equation of the source. *)
Lemma recv_unfold (c : WebSocketConnection) :
  recv decode c =
  match ws_read_frame (conn_reader c) with
  | Raise e => except_closed e (set_reader [] c) None
  | Ok ((opcode, payload), r) =>
      let c := set_reader r c in
      if (opcode =? OP_CLOSE)%Z then Ok (set_closed c, None)
      else if (opcode =? OP_PING)%Z then
        match ws_write_frame (conn_writer c) OP_PONG payload with
        | Raise e => except_closed e c None
        | Ok w => recv decode (set_writer w c)
        end
      else if (opcode =? OP_TEXT)%Z then
        match decode payload with
        | Some s => Ok (c, Some s)
        | None => except_closed UnicodeDecodeError c None
        end
      else Ok (c, None)
  end.
Proof.
  unfold recv at 1. cbn [recv_fuel].
  destruct (ws_read_frame (conn_reader c)) as [[[op p] r]|e] eqn:Hr; [|done].
  apply ws_read_frame_Ok in Hr as (Hlen & _ & _). cbv zeta.
  destruct (op =? OP_CLOSE)%Z; [done|].
  destruct (op =? OP_PING)%Z; [|done].
  destruct (ws_write_frame _ OP_PONG p) as [w|e]; [|done].
  unfold recv. apply recv_fuel_enough; simpl; lia.
Qed.

(** [recv] never lets an exception out, and never puts bytes back on the
    stream. *)
Lemma recv_fuel_returns (n : nat) (c : WebSocketConnection) :
  exists c' msg, recv_fuel decode n c = Ok (c', msg) /\
    length (conn_reader c') <= length (conn_reader c) /\
    (is_Some msg -> length (conn_reader c') + 2 <= length (conn_reader c)).
Proof.
  revert c. induction n as [|n IH]; intros c; simpl.
  { eexists _, _. split; [done|]. simpl. split; [lia|]. by intros [? [=]]. }
  destruct (ws_read_frame (conn_reader c)) as [[[op p] r]|e] eqn:Hr.
  - apply ws_read_frame_Ok in Hr as (Hlen & _ & _).
    destruct (op =? OP_CLOSE)%Z.
    { eexists _, _. split; [done|]. simpl. split; [lia|]. by intros [? [=]]. }
    destruct (op =? OP_PING)%Z.
    { destruct (ws_write_frame _ OP_PONG p) as [w|e] eqn:Hw.
      - destruct (IH (set_writer w (set_reader r c))) as (c' & msg & -> & Hl & Hs).
        simpl in Hl, Hs. eexists _, _. split; [done|]. split; [lia|].
        intros Hm. specialize (Hs Hm). lia.
      - apply ws_write_frame_Raise in Hw. unfold except_closed. rewrite Hw.
        eexists _, _. split; [done|]. simpl. split; [lia|]. by intros [? [=]]. }
    destruct (op =? OP_TEXT)%Z.
    { destruct (decode p).
      - eexists _, _. split; [done|]. simpl. split; lia.
      - eexists _, _. split; [done|]. simpl. split; [lia|]. by intros [? [=]]. }
    eexists _, _. split; [done|]. simpl. split; [lia|]. by intros [? [=]].
  - apply ws_read_frame_Raise in Hr as ->. simpl.
    eexists _, _. split; [done|]. simpl. split; [lia|]. by intros [? [=]].
Qed.

Lemma recv_returns (c : WebSocketConnection) :
  exists c' msg, recv decode c = Ok (c', msg) /\
    length (conn_reader c') <= length (conn_reader c) /\
    (is_Some msg -> length (conn_reader c') + 2 <= length (conn_reader c)).
Proof. apply recv_fuel_returns. Qed.

Lemma read_loop_fuel_enough (n m : nat) (c : WebSocketConnection) :
  length (conn_reader c) < n -> length (conn_reader c) < m ->
  read_loop_fuel decode n c = read_loop_fuel decode m c.
Proof.
  revert m c. induction n as [|n IH]; intros [|m] c Hn Hm; try lia.
  simpl. destruct (conn_closed c); [done|].
  destruct (recv_returns c) as (c' & msg & -> & Hl & Hs).
  cbn [mbind result_bind]. destruct msg as [s|]; [|done].
  specialize (Hs (ltac:(eauto))). apply IH; lia.
Qed.

(** [read_loop] satisfies the equation of the [while] loop. *)
Lemma read_loop_unfold (c : WebSocketConnection) :
  read_loop decode c =
  if conn_closed c then Ok c
  else
    '(c', msg) ← recv decode c;
    match msg with
    | None => Ok c'
    | Some _ => read_loop decode c'
    end.
Proof.
  unfold read_loop at 1. cbn [read_loop_fuel].
  destruct (conn_closed c); [done|].
  destruct (recv_returns c) as (c' & msg & -> & Hl & Hs).
  cbn [mbind result_bind]. destruct msg as [s|]; [|done].
  specialize (Hs (ltac:(eauto))). apply read_loop_fuel_enough; lia.
Qed.
End RecvProperties.

(** C8. What [WebSocketConnection.recv] does with the frame it reads. A
    ping makes it write a pong frame that carries the same payload and go on
    to the next frame: its result is that of receiving on the rest of the
    stream, the ping itself is not returned. A close frame marks the
    connection closed, returns [None], and the read loop stops there. A
    failed read (a stream that ends inside the frame, whatever length the
    header announced) marks the connection closed and returns [None]; no
    exception leaves [recv]. *)
Theorem recv_ping_close_error
    (decode : bytes -> option string) (c : WebSocketConnection)
    (payload : bytes) (r' : StreamReader) (e : exn) :
  (ws_read_frame (conn_reader c) = Ok ((OP_PING, payload), r') ->
   wr_lost (conn_writer c) = false ->
   exists pong,
     ws_frame OP_PONG payload = Ok pong /\
     (forall rest, ws_read_frame (pong ++ rest) = Ok ((OP_PONG, payload), rest)) /\
     recv decode c =
     recv decode (mkConn r' (mkWriter (wr_buf (conn_writer c) ++ [pong]) false)
                    (conn_closed c))) /\
  (ws_read_frame (conn_reader c) = Ok ((OP_CLOSE, payload), r') ->
   recv decode c = Ok (mkConn r' (conn_writer c) true, None) /\
   (conn_closed c = false ->
    read_loop decode c = Ok (mkConn r' (conn_writer c) true))) /\
  (ws_read_frame (conn_reader c) = Raise e ->
   recv decode c = Ok (mkConn [] (conn_writer c) true, None) /\
   (conn_closed c = false ->
    read_loop decode c = Ok (mkConn [] (conn_writer c) true))).
Proof.
  split; [|split].
  - intros Hr Hw.
    pose proof (ws_read_frame_Ok _ _ _ _ Hr) as (_ & _ & Hlen).
    assert (Hpong : (0 <= OP_PONG < 16)%Z) by (unfold OP_PONG; lia).
    destruct (ws_frame_roundtrip OP_PONG payload [] Hpong Hlen) as (pong & Hf & _).
    exists pong. split; [done|]. split.
    + intros rest.
      destruct (ws_frame_roundtrip OP_PONG payload rest Hpong Hlen) as (pong' & Hf' & Hrt).
      rewrite Hf in Hf'. by injection Hf' as <-.
    + rewrite recv_unfold, Hr. cbn [Z.eqb OP_PING OP_CLOSE Pos.eqb]. cbv zeta.
      cbn [set_reader conn_writer].
      rewrite (ws_write_frame_Ok _ _ _ pong Hw Hf). done.
  - intros Hr.
    assert (Hrecv : recv decode c = Ok (mkConn r' (conn_writer c) true, None)).
    { rewrite recv_unfold, Hr. done. }
    split; [done|]. intros Hc.
    rewrite read_loop_unfold, Hc, Hrecv. done.
  - intros Hr.
    assert (Hrecv : recv decode c = Ok (mkConn [] (conn_writer c) true, None)).
    { rewrite recv_unfold, Hr. apply ws_read_frame_Raise in Hr as ->. done. }
    split; [done|]. intros Hc.
    rewrite read_loop_unfold, Hc, Hrecv. done.
Qed.

Lemma recv_ping_close_error_witness :
  (exists pong,
     ws_frame OP_PONG [x68; x69] = Ok pong /\
     (forall rest, ws_read_frame (pong ++ rest) = Ok ((OP_PONG, [x68; x69]), rest)) /\
     recv decode_any conn_ping_then_close =
     recv decode_any (mkConn [x88; x00] (mkWriter ([] ++ [pong]) false) false)) /\
  (recv decode_any conn_close_frame = Ok (mkConn [xff] (mkWriter [] false) true, None) /\
   read_loop decode_any conn_close_frame = Ok (mkConn [xff] (mkWriter [] false) true)) /\
  (recv decode_any conn_truncated = Ok (mkConn [] (mkWriter [] false) true, None) /\
   read_loop decode_any conn_truncated = Ok (mkConn [] (mkWriter [] false) true)).
Proof.
  split; [|split].
  - apply (proj1 (recv_ping_close_error decode_any conn_ping_then_close
                    [x68; x69] [x88; x00] IncompleteReadError)).
    + vm_compute. reflexivity.
    + reflexivity.
  - destruct (proj1 (proj2 (recv_ping_close_error decode_any conn_close_frame
                              [] [xff] IncompleteReadError))) as [H1 H2].
    + vm_compute. reflexivity.
    + split; [exact H1|]. apply H2. reflexivity.
  - destruct (proj2 (proj2 (recv_ping_close_error decode_any conn_truncated
                              [] [] IncompleteReadError))) as [H1 H2].
    + vm_compute. reflexivity.
    + split; [exact H1|]. apply H2. reflexivity.
Defined.

Example recv_ping_then_close :
  recv decode_any conn_ping_then_close =
  Ok (mkConn [] (mkWriter [[x8a; x02; x68; x69]] false) true, None).
Proof. vm_compute. reflexivity. Qed.

(** ** The event log *)

Lemma post_init_kind_value (s : string) :
  match post_init_kind (Raw s) with
  | Tagged k => EventKind_value k = s
  | Raw s' => s' = s /\ forall k, EventKind_value k <> s
  end.
Proof.
  unfold post_init_kind, EventKind_of_value.
  destruct (find _ _) as [k|] eqn:Hf.
  - apply find_some in Hf as [_ Hk]. by apply String.eqb_eq in Hk.
  - split; [done|]. intros k Hk.
    assert (Hin : In k [STATUS; HANDOFF; NOTE; ERROR; APPROVAL])
      by (destruct k; simpl; tauto).
    pose proof (find_none _ _ Hf k Hin) as Hne. simpl in Hne.
    apply String.eqb_neq in Hne. done.
Qed.

(** Parsing keeps every field and leaves the kind in normal form: a raw
    string is never the value of a member of [EventKind]. *)
Lemma parse_kind_value (line : ContextEntry) :
  kind_value (parse line) = kind_value line.
Proof.
  unfold kind_value at 1.
  change (kind (parse line)) with (post_init_kind (Raw (kind_value line))).
  pose proof (post_init_kind_value (kind_value line)) as H.
  destruct (post_init_kind _); [done|]. by destruct H.
Qed.

Lemma parse_kind_tagged (line : ContextEntry) (k : EventKind) :
  kind (parse line) = Tagged k <-> kind_value (parse line) = EventKind_value k.
Proof.
  rewrite parse_kind_value.
  change (kind (parse line)) with (post_init_kind (Raw (kind_value line))).
  pose proof (post_init_kind_value (kind_value line)) as H.
  destruct (post_init_kind _) as [k'|s'].
  - split; [by intros [= ->]|]. intros Hk. rewrite Hk in H.
    f_equal. by destruct k, k'.
  - destruct H as [-> H]. split; [done|]. intros Hk. by destruct (H k).
Qed.

Lemma needs_attention_parse (line : ContextEntry) :
  needs_attention (parse line) <-> attention_worthy (parse line).
Proof.
  unfold needs_attention, attention_worthy.
  rewrite !orb_True, !parse_kind_tagged, !Is_true_true, !String.eqb_eq.
  tauto.
Qed.

Lemma elem_of_all_events (st : ContextStore) (pid : string) (e : ContextEntry) :
  e ∈ all_events st pid -> exists line, e = parse line.
Proof.
  unfold all_events. intros (line & -> & _)%list_elem_of_fmap. eauto.
Qed.

(** ** The attention queue *)

Lemma project_queue_filter (st : ContextStore) (pid : string) :
  project_queue st pid =
  filter (fun e => attention_worthy e /\ id e ∉ get_resolved_ids st pid)
         (all_events st pid).
Proof.
  unfold project_queue. cbv zeta. rewrite list_filter_filter.
  unfold all_events. induction (default [] _) as [|line lines IH]; [done|].
  rewrite fmap_cons, !filter_cons, IH.
  pose proof (needs_attention_parse line) as Hn.
  repeat case_decide; try done; tauto.
Qed.

Lemma elem_of_project_queue (st : ContextStore) (pid : string) (e : ContextEntry) :
  e ∈ project_queue st pid <->
  e ∈ all_events st pid /\ attention_worthy e /\ id e ∉ get_resolved_ids st pid.
Proof. rewrite project_queue_filter, list_elem_of_filter. tauto. Qed.

Lemma list_projects_NoDup (st : ContextStore) : NoDup (list_projects st).
Proof. apply NoDup_fst_map_to_list. Qed.

Lemma elem_of_list_projects (st : ContextStore) (pid : string) :
  pid ∈ list_projects st <-> is_Some (st !! pid).
Proof.
  unfold list_projects. rewrite list_elem_of_fmap. split.
  - intros ([p d] & -> & H%elem_of_map_to_list). eauto.
  - intros [d H]. exists (pid, d). split; [done|]. by apply elem_of_map_to_list.
Qed.

(** C1. The queue of a project is exactly the sub-sequence of its log, in
    append order, of the entries whose kind is [error] or [approval_needed]
    or whose attention flag is set, and whose id is not in the project's
    resolved-id set. With no project given the result is the concatenation
    of the queues of the known projects, each project once; every item is an
    entry of the log of the project it comes from, unchanged, so it carries
    the [project_id] it was logged with. *)
Theorem get_queue_derivation (st : ContextStore) :
  (forall pid,
     get_queue st (Some pid) =
     filter (fun e => attention_worthy e /\ id e ∉ get_resolved_ids st pid)
            (all_events st pid)) /\
  get_queue st None = concat ((fun pid => get_queue st (Some pid)) <$> list_projects st) /\
  NoDup (list_projects st) /\
  (forall pid, pid ∈ list_projects st <-> is_Some (st !! pid)) /\
  (forall e, e ∈ get_queue st None <->
     exists pid, is_Some (st !! pid) /\ e ∈ all_events st pid /\
       attention_worthy e /\ id e ∉ get_resolved_ids st pid).
Proof.
  split; [intros pid; apply project_queue_filter|].
  split.
  { simpl. induction (list_projects st) as [|p ps IH]; [done|].
    by rewrite fmap_cons, concat_cons, <- IH. }
  split; [apply list_projects_NoDup|].
  split; [apply elem_of_list_projects|].
  intros e. simpl. rewrite list_elem_of_bind. split.
  - intros (pid & He & Hp). exists pid.
    apply elem_of_list_projects in Hp. by apply elem_of_project_queue in He.
  - intros (pid & Hp & He). exists pid.
    split; [by apply elem_of_project_queue|by apply elem_of_list_projects].
Qed.

(** ** Resolution *)

Lemma all_events_record_resolved (st : ContextStore) (pid entry_id p : string) :
  all_events (record_resolved pid entry_id st) p = all_events st p.
Proof.
  unfold record_resolved. case_decide; [done|]. unfold all_events. cbv zeta.
  destruct (decide (pid = p)) as [->|Hne].
  - rewrite lookup_insert_eq. simpl. by destruct (st !! p).
  - by rewrite lookup_insert_ne.
Qed.

Lemma get_resolved_ids_record (st : ContextStore) (pid entry_id : string) :
  get_resolved_ids (record_resolved pid entry_id st) pid =
  if decide (entry_id ∈ get_resolved_ids st pid)
  then get_resolved_ids st pid
  else get_resolved_ids st pid ++ [entry_id].
Proof.
  unfold record_resolved. case_decide; [done|].
  unfold get_resolved_ids at 1. by rewrite lookup_insert_eq.
Qed.

Lemma get_resolved_ids_record_other (st : ContextStore) (pid entry_id p : string) :
  p <> pid ->
  get_resolved_ids (record_resolved pid entry_id st) p = get_resolved_ids st p.
Proof.
  intros Hne. unfold record_resolved. case_decide; [done|].
  unfold get_resolved_ids at 1 3. by rewrite lookup_insert_ne.
Qed.

Lemma get_resolved_ids_append (now : string) (entry : ContextEntry)
    (st : ContextStore) (p : string) :
  get_resolved_ids (append_entry now entry st) p = get_resolved_ids st p.
Proof.
  unfold append_entry, get_resolved_ids. cbv zeta.
  change (project_id (stamped now entry)) with (project_id entry).
  destruct (decide (project_id entry = p)) as [<-|Hne].
  - rewrite lookup_insert_eq. simpl. by destruct (st !! project_id entry).
  - by rewrite lookup_insert_ne.
Qed.

Lemma all_events_append (now : string) (entry : ContextEntry) (st : ContextStore) :
  all_events (append_entry now entry st) (project_id entry) =
  all_events st (project_id entry) ++ [parse (stamped now entry)].
Proof.
  unfold append_entry, all_events. cbv zeta.
  change (project_id (stamped now entry)) with (project_id entry).
  rewrite lookup_insert_eq. cbn [mbind option_bind events_file default from_option Datatypes.id].
  rewrite fmap_app. by destruct (st !! project_id entry).
Qed.

Lemma all_events_append_other (now : string) (entry : ContextEntry)
    (st : ContextStore) (p : string) :
  p <> project_id entry ->
  all_events (append_entry now entry st) p = all_events st p.
Proof.
  intros Hne. unfold append_entry, all_events. cbv zeta.
  change (project_id (stamped now entry)) with (project_id entry).
  by rewrite lookup_insert_ne.
Qed.

Lemma str_contains_middle (before needle after : string) :
  str_contains (before +:+ needle +:+ after) needle.
Proof. by exists before, after. Qed.

Lemma string_app_assoc (a b c : string) : (a +:+ b) +:+ c = a +:+ (b +:+ c).
Proof.
  induction a as [|x a IH]; [done|].
  change (String x ((a +:+ b) +:+ c) = String x (a +:+ (b +:+ c))).
  by f_equal.
Qed.

Lemma string_app_nil_r (a : string) : a +:+ "" = a.
Proof.
  induction a as [|x a IH]; [done|].
  change (String x (a +:+ "") = String x a). by f_equal.
Qed.

Lemma resolution_text_contains (action rationale : string) :
  str_contains (resolution_text action rationale) action /\
  str_contains (resolution_text action rationale) rationale.
Proof.
  unfold resolution_text. split.
  - apply str_contains_middle.
  - destruct (String.eqb_spec rationale "") as [->|_].
    + exists ("Resolved: " +:+ action), "". by rewrite !string_app_nil_r.
    + exists ("Resolved: " +:+ action +:+ " - "), "".
      by rewrite string_app_nil_r, !string_app_assoc.
Qed.

Lemma find_id_None (entry_id : string) (l : list ContextEntry) :
  find (fun e => String.eqb (id e) entry_id) l = None <->
  forall e, e ∈ l -> id e <> entry_id.
Proof.
  induction l as [|x l IH]; simpl.
  - split; [|done]. intros _ e He. by apply elem_of_nil in He.
  - destruct (String.eqb_spec (id x) entry_id) as [Hx|Hx].
    + split; [done|]. intros H. destruct (H x); [left|done].
    + rewrite IH. split.
      * intros H e [->|He]%elem_of_cons; auto.
      * intros H e He. apply H. by right.
Qed.

Lemma find_id_Some (entry_id : string) (l : list ContextEntry) (target : ContextEntry) :
  find (fun e => String.eqb (id e) entry_id) l = Some target ->
  target ∈ l /\ id target = entry_id.
Proof.
  intros H. apply find_some in H as [Hin Heq].
  split; [by apply list_elem_of_In|by apply String.eqb_eq].
Qed.

Lemma resolve_entry_found (st : ContextStore) (pid entry_id action rationale now new_id : string)
    (target : ContextEntry) :
  find (fun e => String.eqb (id e) entry_id) (all_events st pid) = Some target ->
  let record :=
    mkEntry pid (session_name target) "human" (Tagged NOTE)
            (resolution_text action rationale) now [] false new_id in
  let st' := (resolve_entry st pid entry_id action rationale now new_id).1 in
  (resolve_entry st pid entry_id action rationale now new_id).2 = Ok tt /\
  all_events st' pid = all_events st pid ++ [record] /\
  get_resolved_ids st' pid =
    (if decide (entry_id ∈ get_resolved_ids st pid)
     then get_resolved_ids st pid
     else get_resolved_ids st pid ++ [entry_id]) /\
  (forall p, p <> pid ->
     all_events st' p = all_events st p /\
     get_resolved_ids st' p = get_resolved_ids st p).
Proof.
  intros Hf record st'. subst st'. unfold resolve_entry. rewrite Hf. cbv zeta.
  fold record. cbn [fst snd]. split; [done|].
  change pid with (project_id record) at 1 3.
  rewrite all_events_append, get_resolved_ids_append.
  cbn [project_id record]. rewrite all_events_record_resolved, get_resolved_ids_record.
  split; [done|]. split; [done|].
  intros p Hp. rewrite all_events_append_other, get_resolved_ids_append by done.
  by rewrite all_events_record_resolved, get_resolved_ids_record_other.
Qed.

(** C2. [resolve_entry] on an id that no entry of the project's log has
    fails with NotFound and leaves the store as it was. On an id that some
    entry has, it succeeds, the id is in the project's resolved-id set
    afterwards, and the log has grown by exactly one record, whose actor is
    [human], whose kind is [note], which therefore is in no queue of any
    store, and whose text contains the action and the rationale. *)
Theorem resolve_entry_outcome
    (st : ContextStore) (pid entry_id action rationale now new_id : string) :
  ((forall e, e ∈ all_events st pid -> id e <> entry_id) ->
   resolve_entry st pid entry_id action rationale now new_id =
   (st, Raise KeyError_NotFound)) /\
  ((exists e, e ∈ all_events st pid /\ id e = entry_id) ->
   exists st' record,
     resolve_entry st pid entry_id action rationale now new_id = (st', Ok tt) /\
     entry_id ∈ get_resolved_ids st' pid /\
     all_events st' pid = all_events st pid ++ [record] /\
     actor record = "human" /\
     kind record = Tagged NOTE /\
     ~ attention_worthy record /\
     (forall st2 q, record ∉ get_queue st2 q) /\
     str_contains (text record) action /\
     str_contains (text record) rationale).
Proof.
  split.
  - intros Hnone. apply find_id_None in Hnone.
    unfold resolve_entry. by rewrite Hnone.
  - intros (e & He & Hid).
    destruct (find (fun e => String.eqb (id e) entry_id) (all_events st pid))
      as [target|] eqn:Hf.
    2:{ rewrite find_id_None in Hf. by destruct (Hf e He). }
    pose proof (resolve_entry_found st pid entry_id action rationale now new_id
                  target Hf) as (Hok & Hlog & Hres & _).
    cbv zeta in Hok, Hlog, Hres.
    destruct (resolve_entry st pid entry_id action rationale now new_id) as [st' out].
    cbn [fst snd] in Hok, Hlog, Hres. subst out.
    eexists st', _. split; [done|]. split.
    { rewrite Hres. case_decide; [done|]. apply elem_of_app. right. by left. }
    split; [exact Hlog|]. split; [done|]. split; [done|].
    assert (Hna : ~ attention_worthy
      (mkEntry pid (session_name target) "human" (Tagged NOTE)
               (resolution_text action rationale) now [] false new_id)).
    { unfold attention_worthy. simpl. intros [?|[?|?]]; discriminate. }
    split; [exact Hna|]. split.
    { intros st2 [q|] Hin; simpl in Hin.
      - apply elem_of_project_queue in Hin. tauto.
      - apply list_elem_of_bind in Hin as (q & Hin & _).
        apply elem_of_project_queue in Hin. tauto. }
    apply resolution_text_contains.
Qed.

(** C3. Resolving the same id a second time succeeds as well, leaves the
    persisted resolved-id set exactly as the first call left it, without a
    duplicate, and no entry with that id is in the project's queue after
    either call. *)
Theorem resolve_entry_idempotent
    (st st1 : ContextStore) (pid entry_id : string)
    (action1 rationale1 now1 new_id1 action2 rationale2 now2 new_id2 : string) :
  resolve_entry st pid entry_id action1 rationale1 now1 new_id1 = (st1, Ok tt) ->
  exists st2,
    resolve_entry st1 pid entry_id action2 rationale2 now2 new_id2 = (st2, Ok tt) /\
    get_resolved_ids st2 pid = get_resolved_ids st1 pid /\
    (NoDup (get_resolved_ids st pid) -> NoDup (get_resolved_ids st2 pid)) /\
    (forall e, e ∈ get_queue st1 (Some pid) -> id e <> entry_id) /\
    (forall e, e ∈ get_queue st2 (Some pid) -> id e <> entry_id).
Proof.
  intros H1.
  destruct (find (fun e => String.eqb (id e) entry_id) (all_events st pid))
    as [target|] eqn:Hf.
  2:{ unfold resolve_entry in H1. rewrite Hf in H1. discriminate. }
  pose proof (resolve_entry_found st pid entry_id action1 rationale1 now1 new_id1
                target Hf) as (_ & Hlog1 & Hres1 & _).
  cbv zeta in Hlog1, Hres1. rewrite H1 in Hlog1, Hres1. cbn [fst] in Hlog1, Hres1.
  destruct (find_id_Some _ _ _ Hf) as [Hin Hid].
  assert (Hmem1 : entry_id ∈ get_resolved_ids st1 pid).
  { rewrite Hres1. case_decide; [done|]. apply elem_of_app. right. by left. }
  destruct (find (fun e => String.eqb (id e) entry_id) (all_events st1 pid))
    as [target2|] eqn:Hf2.
  2:{ rewrite find_id_None in Hf2. destruct (Hf2 target); [|done].
      rewrite Hlog1. apply elem_of_app. by left. }
  pose proof (resolve_entry_found st1 pid entry_id action2 rationale2 now2 new_id2
                target2 Hf2) as (Hok2 & _ & Hres2 & _).
  cbv zeta in Hok2, Hres2.
  destruct (resolve_entry st1 pid entry_id action2 rationale2 now2 new_id2) as [st2 out].
  cbn [fst snd] in Hok2, Hres2. subst out.
  rewrite decide_True in Hres2 by done.
  exists st2. split; [done|]. split; [done|]. split.
  { intros Hnd. rewrite Hres2, Hres1. case_decide; [done|].
    apply NoDup_app. split; [done|]. split; [|apply NoDup_singleton].
    intros x Hx [->|Hx']%elem_of_cons; [done|]. by apply elem_of_nil in Hx'. }
  split.
  - intros e He. simpl in He. apply elem_of_project_queue in He as (_ & _ & Hn).
    intros Heq. by rewrite Heq in Hn.
  - intros e He. simpl in He. apply elem_of_project_queue in He as (_ & _ & Hn).
    intros Heq. rewrite Heq, Hres2 in Hn. done.
Qed.

Example queue_returns_approval_events :
  id <$> get_queue store_p1 None = ["e2"] /\
  id <$> get_queue store_p1 (Some "p1") = ["e2"].
Proof. split; vm_compute; reflexivity. Qed.

Example queue_across_projects :
  length (get_queue store_p1_p2 None) = 2 /\
  list_to_set (project_id <$> get_queue store_p1_p2 None) = ({["p1"; "p2"]} : gset string).
Proof.
  split; [vm_compute; reflexivity|].
  apply set_eq. intros p.
  replace (project_id <$> get_queue store_p1_p2 None) with ["p1"; "p2"]
    by (vm_compute; reflexivity).
  set_solver.
Qed.

Example resolve_removes_from_queue :
  let st := (resolve_entry store_p1 "p1" "e2" "approve" "LGTM"
               "2024-05-01T10:01:00+00:00" "r1").1 in
  get_queue st None = [] /\
  get_resolved_ids st "p1" = ["e2"] /\
  (text <$> filter (fun ev => actor ev = "human") (get_events st "p1" None 100)) =
    ["Resolved: approve - LGTM"].
Proof. vm_compute. repeat split; reflexivity. Qed.

Lemma resolve_entry_outcome_witness :
  resolve_entry store_p1 "p1" "unknown-id" "approve" "LGTM" "t" "r1" =
    (store_p1, Raise KeyError_NotFound) /\
  exists st' record,
    resolve_entry store_p1 "p1" "e2" "approve" "LGTM" "t" "r1" = (st', Ok tt) /\
    "e2" ∈ get_resolved_ids st' "p1" /\
    all_events st' "p1" = all_events store_p1 "p1" ++ [record] /\
    actor record = "human" /\
    kind record = Tagged NOTE /\
    ~ attention_worthy record /\
    (forall st2 q, record ∉ get_queue st2 q) /\
    str_contains (text record) "approve" /\
    str_contains (text record) "LGTM".
Proof.
  split.
  - apply (proj1 (resolve_entry_outcome store_p1 "p1" "unknown-id" "approve" "LGTM" "t" "r1")).
    intros e He. vm_compute in He.
    repeat (apply elem_of_cons in He as [->|He]; [simpl; discriminate|]).
    by apply elem_of_nil in He.
  - apply (proj2 (resolve_entry_outcome store_p1 "p1" "e2" "approve" "LGTM" "t" "r1")).
    exists (parse (stamped "2024-05-01T10:00:01+00:00"
                     (sample_entry "p1" "e2" APPROVAL false))).
    split; [|reflexivity]. vm_compute. right. left.
Defined.

Lemma resolve_entry_idempotent_witness :
  exists st2,
    resolve_entry
      (resolve_entry store_p1 "p1" "e2" "approve" "LGTM" "t1" "r1").1
      "p1" "e2" "reject" "" "t2" "r2" = (st2, Ok tt) /\
    get_resolved_ids st2 "p1" =
      get_resolved_ids (resolve_entry store_p1 "p1" "e2" "approve" "LGTM" "t1" "r1").1 "p1" /\
    (NoDup (get_resolved_ids store_p1 "p1") -> NoDup (get_resolved_ids st2 "p1")) /\
    (forall e,
       e ∈ get_queue (resolve_entry store_p1 "p1" "e2" "approve" "LGTM" "t1" "r1").1
             (Some "p1") -> id e <> "e2") /\
    (forall e, e ∈ get_queue st2 (Some "p1") -> id e <> "e2").
Proof.
  apply (resolve_entry_idempotent store_p1 _ "p1" "e2"
           "approve" "LGTM" "t1" "r1" "reject" "" "t2" "r2").
  vm_compute. reflexivity.
Defined.

(** ** Reading events *)

Lemma slice_from_last {A} (n : Z) (l : list A) :
  (0 < n)%Z -> slice_from (- n) l = drop (length l - Z.to_nat n) l.
Proof.
  intros Hn. unfold slice_from.
  destruct (Z.ltb_spec (- n) 0); [|lia]. f_equal. lia.
Qed.

Lemma slice_from_zero {A} (l : list A) : slice_from (- 0) l = l.
Proof. done. Qed.

Lemma get_events_considered (st : ContextStore) (pid : string)
    (since_ts : option string) (limit : Z) :
  get_events st pid since_ts limit = slice_from (- limit) (considered st pid since_ts).
Proof.
  unfold get_events, considered, all_events.
  destruct (st !! pid ≫= events_file) as [lines|]; [done|].
  cbn [default from_option]. unfold slice_from.
  destruct (truthy since_ts), (- limit <? 0)%Z;
    by rewrite ?fmap_nil, ?filter_nil, drop_nil.
Qed.

(** A project without a log reads as the empty sequence. *)
Lemma get_events_unknown (st : ContextStore) (pid : string)
    (since_ts : option string) (limit : Z) :
  st !! pid ≫= events_file = None -> get_events st pid since_ts limit = [].
Proof. intros H. unfold get_events. by rewrite H. Qed.

(** With a positive limit the result is the tail of the considered entries,
    in log order, of [limit] entries or all of them when there are fewer. *)
Lemma get_events_recent (st : ContextStore) (pid : string)
    (since_ts : option string) (limit : Z) :
  (0 < limit)%Z ->
  exists older,
    considered st pid since_ts = older ++ get_events st pid since_ts limit /\
    length (get_events st pid since_ts limit) =
      Nat.min (Z.to_nat limit) (length (considered st pid since_ts)).
Proof.
  intros Hl. rewrite get_events_considered, slice_from_last by done.
  exists (take (length (considered st pid since_ts) - Z.to_nat limit)
               (considered st pid since_ts)).
  split; [by rewrite take_drop|]. rewrite length_drop. lia.
Qed.

Lemma str_gt_empty (t : string) : str_gt t "" = negb (String.eqb t "").
Proof. by destruct t. Qed.

(** An empty [since_ts] counts as no [since_ts]; as [append_entry] never
    writes an empty timestamp, that is the same as filtering by it. *)
Lemma considered_since_empty (st : ContextStore) (pid : string) :
  (forall e, e ∈ all_events st pid -> ts e <> "") ->
  considered st pid (Some "") =
  filter (fun event => str_gt (ts event) "") (all_events st pid).
Proof.
  intros Hts. unfold considered. simpl.
  induction (all_events st pid) as [|e l IH]; [done|].
  rewrite filter_cons. rewrite <- IH by (intros x Hx; apply Hts; by right).
  rewrite decide_True; [done|].
  rewrite str_gt_empty. apply Is_true_true, negb_true_iff, String.eqb_neq.
  apply Hts. by left.
Qed.

(** C9, at [limit = 0]. The slice [parsed[-limit:]] is then [parsed[0:]]:
    [get_events] returns every considered entry instead of none. *)
Theorem get_events_limit_zero (st : ContextStore) (pid : string)
    (since_ts : option string) :
  get_events st pid since_ts 0 = considered st pid since_ts /\
  id <$> get_events store_p1 "p1" None 0 = ["e1"; "e2"] /\
  id <$> get_events store_p1 "p1" None 1 = ["e2"].
Proof.
  split; [by rewrite get_events_considered|].
  split; vm_compute; reflexivity.
Qed.

(** ** Request paths *)

Lemma before_char_absent (c : ascii) (s : string) :
  has_char c s = false -> before_char c s = s.
Proof.
  induction s as [|a s IH]; [done|]. cbn [has_char before_char].
  intros [Ha Hs]%orb_false_iff. rewrite Ha. by rewrite IH.
Qed.

Lemma has_char_app (c : ascii) (s t : string) :
  has_char c (s +:+ t) = has_char c s || has_char c t.
Proof.
  induction s as [|a s IH]; [done|].
  change (String a s +:+ t) with (String a (s +:+ t)). cbn [has_char].
  by rewrite IH, orb_assoc.
Qed.

Lemma rstrip_char_app (c : ascii) (s t : string) :
  rstrip_char c t <> EmptyString ->
  rstrip_char c (s +:+ t) = s +:+ rstrip_char c t.
Proof.
  intros Ht. induction s as [|a s IH]; [done|].
  change (String a s +:+ t) with (String a (s +:+ t)).
  change (String a s +:+ rstrip_char c t) with (String a (s +:+ rstrip_char c t)).
  cbn [rstrip_char]. rewrite IH.
  destruct (s +:+ rstrip_char c t) eqn:E; [|done].
  destruct s; [|discriminate]. by destruct Ht.
Qed.

Lemma str_split_absent (c : ascii) (s : string) :
  has_char c s = false -> str_split c s = [s].
Proof.
  induction s as [|a s IH]; [done|]. cbn [has_char str_split].
  intros [Ha Hs]%orb_false_iff. by rewrite Ha, IH.
Qed.

Lemma str_split_app (c : ascii) (s t : string) :
  has_char c s = false ->
  str_split c (s +:+ String c t) = s :: str_split c t.
Proof.
  induction s as [|a s IH].
  - intros _. change (EmptyString +:+ String c t) with (String c t).
    cbn [str_split]. by rewrite Ascii.eqb_refl.
  - cbn [has_char]. intros [Ha Hs]%orb_false_iff.
    change (String a s +:+ String c t) with (String a (s +:+ String c t)).
    cbn [str_split]. by rewrite Ha, IH.
Qed.

(** How [_handle_http] reads the path of a resolve request whose id has
    neither a slash nor a question mark. *)
Lemma resolve_path_routing (entry_id : string) :
  has_char "/" entry_id = false -> has_char "?" entry_id = false ->
  let clean_path := rstrip_char "/" (before_char "?" (resolve_path entry_id)) in
  clean_path = resolve_path entry_id /\
  startswith "/queue/" clean_path = true /\
  nth 2 (str_split "/" clean_path) EmptyString = entry_id.
Proof.
  intros Hs Hq. cbv zeta.
  assert (E : rstrip_char "/" (before_char "?" (resolve_path entry_id)) =
              resolve_path entry_id).
  { rewrite before_char_absent.
    - unfold resolve_path.
      assert (E1 : rstrip_char "/" (entry_id +:+ "/resolve") = entry_id +:+ "/resolve")
        by (by rewrite rstrip_char_app).
      rewrite rstrip_char_app; rewrite E1; [done|]. by destruct entry_id.
    - unfold resolve_path. rewrite !has_char_app, Hq. done. }
  rewrite E. split; [done|]. split; [reflexivity|].
  unfold resolve_path.
  change ("/queue/" +:+ entry_id +:+ "/resolve")
    with (EmptyString +:+ String "/" ("queue" +:+ String "/" (entry_id +:+ String "/" "resolve"))).
  rewrite !str_split_app by done. done.
Qed.

(** ** The resolve endpoint *)

Lemma elem_of_slice_from {A} (start : Z) (l : list A) (x : A) :
  x ∈ slice_from start l -> x ∈ l.
Proof.
  unfold slice_from. destruct (start <? 0)%Z; intros Hx;
    by eapply subseteq_drop.
Qed.

Lemma get_events_all_events (st : ContextStore) (pid : string)
    (since_ts : option string) (limit : Z) (e : ContextEntry) :
  e ∈ get_events st pid since_ts limit -> e ∈ all_events st pid.
Proof.
  rewrite get_events_considered. intros He%elem_of_slice_from.
  unfold considered in He. destruct (truthy since_ts); [|done].
  by apply list_elem_of_filter in He as [_ He].
Qed.

(** The window that the server scans: the entries at the last thousand
    positions of the log. *)
Lemma get_events_window (st : ContextStore) (pid : string) (e : ContextEntry) :
  e ∈ get_events st pid None 1000 <->
  exists i, all_events st pid !! i = Some e /\
            length (all_events st pid) <= i + 1000.
Proof.
  rewrite get_events_considered, slice_from_last by lia.
  unfold considered. simpl. rewrite list_elem_of_lookup. split.
  - intros [i Hi]. rewrite lookup_drop in Hi.
    exists (length (all_events st pid) - Z.to_nat 1000 + i). split; [done|]. lia.
  - intros (i & Hi & Hlen).
    exists (i - (length (all_events st pid) - Z.to_nat 1000)).
    rewrite lookup_drop. rewrite <- Hi. f_equal.
    apply lookup_lt_Some in Hi. lia.
Qed.

Lemma existsb_id (entry_id : string) (l : list ContextEntry) :
  existsb (fun event => String.eqb (id event) entry_id) l = true <->
  exists e, e ∈ l /\ id e = entry_id.
Proof.
  rewrite existsb_exists. split; intros (e & He & Hid); exists e.
  - split; [by apply list_elem_of_In|by apply String.eqb_eq].
  - split; [by apply list_elem_of_In|by apply String.eqb_eq].
Qed.

Section ResolveEndpoint.
Context `{Runtime}.

Lemma _resolve_entry_unknown (st : ContextStore) (entry_id : string)
    (members : list (string * json)) (now new_id : string) :
  (forall pid e, e ∈ get_events st pid None 1000 -> id e <> entry_id) ->
  _resolve_entry st entry_id (JObj members) now new_id = (st, Ok None).
Proof.
  intros Hnone. unfold _resolve_entry. cbv zeta.
  destruct (find _ (list_projects st)) as [pid|] eqn:Hf; [|done].
  apply find_some in Hf as [_ Hex]. apply existsb_id in Hex as (e & He & Hid).
  by destruct (Hnone pid e He).
Qed.

Lemma _resolve_entry_known (st : ContextStore) (entry_id : string)
    (members : list (string * json)) (now new_id : string) :
  (exists pid e, e ∈ get_events st pid None 1000 /\ id e = entry_id) ->
  exists pid st',
    (exists e, e ∈ get_events st pid None 1000 /\ id e = entry_id) /\
    resolve_entry st pid entry_id
      (py_str (dict_get "action" members (JStr "acknowledge")))
      (py_str (dict_get "text" members (JStr ""))) now new_id = (st', Ok tt) /\
    _resolve_entry st entry_id (JObj members) now new_id =
    (st', Ok (Some (JObj [("resolved", JBool true); ("id", JStr entry_id);
                          ("action", dict_get "action" members (JStr "acknowledge"))]))).
Proof.
  intros (pid0 & e0 & He0 & Hid0). unfold _resolve_entry. cbv zeta.
  destruct (find _ (list_projects st)) as [pid|] eqn:Hf.
  - apply find_some in Hf as [_ Hex]. apply existsb_id in Hex as (e & He & Hid).
    destruct (find (fun e => String.eqb (id e) entry_id) (all_events st pid))
      as [target|] eqn:Ht.
    2:{ rewrite find_id_None in Ht. destruct (Ht e); [|done].
        by eapply get_events_all_events. }
    pose proof (resolve_entry_found st pid entry_id
      (py_str (dict_get "action" members (JStr "acknowledge")))
      (py_str (dict_get "text" members (JStr ""))) now new_id target Ht)
      as (Hok & _).
    destruct (resolve_entry st pid entry_id _ _ now new_id) as [st' out] eqn:Hres.
    cbn [snd] in Hok. subst out.
    exists pid, st'. split; [eauto|]. split; [done|]. done.
  - exfalso.
    assert (Hp : pid0 ∈ list_projects st).
    { apply elem_of_list_projects. unfold get_events in He0.
      destruct (st !! pid0); [eauto|]. by apply elem_of_nil in He0. }
    apply list_elem_of_In in Hp.
    pose proof (find_none _ _ Hf pid0 Hp) as Hn. simpl in Hn.
    assert (Ht : existsb (fun event => String.eqb (id event) entry_id)
                   (get_events st pid0 None 1000) = true)
      by (apply existsb_id; eauto).
    congruence.
Qed.

(** A resolve request goes to the resolve branch of [_handle_http]. *)
Lemma _handle_http_resolve (entry_id : string) (reader : StreamReader)
    (writer : StreamWriter) (headers : list (string * string)) (body_start : bytes)
    (st : ContextStore) (now new_id : string) (body_data : bytes) (reader' : StreamReader) :
  has_char "/" entry_id = false -> has_char "?" entry_id = false ->
  _read_body reader headers body_start = Ok (body_data, reader') ->
  _handle_http "POST" (resolve_path entry_id) reader writer headers body_start st now new_id =
  match (match body_data with [] => Ok (JObj []) | _ => json_loads body_data end) with
  | Raise JSONDecodeError =>
      let '(writer, outcome) := _send_response writer 400 (error_body "invalid json") in
      ((writer, st), outcome)
  | Raise e => ((writer, st), Raise e)
  | Ok payload =>
      match _resolve_entry st entry_id payload now new_id with
      | (st, Raise e) => ((writer, st), Raise e)
      | (st, Ok (Some result)) =>
          let '(writer, outcome) :=
            _send_response writer 200 (str_encode (json_dumps result)) in
          ((writer, st), outcome)
      | (st, Ok None) =>
          let '(writer, outcome) :=
            _send_response writer 404 (error_body "entry not found") in
          ((writer, st), outcome)
      end
  end.
Proof.
  intros Hs Hq Hbody. unfold _handle_http.
  destruct (resolve_path_routing entry_id Hs Hq) as (-> & -> & ->).
  rewrite Hbody. cbn [String.eqb Ascii.eqb Bool.eqb andb].
  rewrite andb_false_r. done.
Qed.

Lemma _send_response_alive (writer : StreamWriter) (status : Z) (body : bytes) :
  wr_lost writer = false ->
  _send_response writer status body =
  (mkWriter (wr_buf writer ++ [http_response status body]) false, Ok tt).
Proof.
  intros Hw. unfold _send_response, writer_write, writer_drain. by rewrite Hw.
Qed.

Lemma body_is_object_payload (body_data : bytes) (members : list (string * json)) :
  body_is_object body_data members ->
  (match body_data with [] => Ok (JObj []) | _ => json_loads body_data end)
  = Ok (JObj members).
Proof.
  intros [[-> ->]|[Hne Hjson]]; [done|]. by destruct body_data.
Qed.

(** The answer to a resolve request for an id that is in no scanned
    window. *)
Lemma resolve_endpoint_not_found
    (entry_id : string) (reader : StreamReader) (writer : StreamWriter)
    (headers : list (string * string)) (body_start : bytes) (st : ContextStore)
    (now new_id : string) (body_data : bytes) (reader' : StreamReader)
    (members : list (string * json)) :
  has_char "/" entry_id = false -> has_char "?" entry_id = false ->
  _read_body reader headers body_start = Ok (body_data, reader') ->
  wr_lost writer = false ->
  body_is_object body_data members ->
  (forall pid e, e ∈ get_events st pid None 1000 -> id e <> entry_id) ->
  _handle_http "POST" (resolve_path entry_id) reader writer headers body_start
               st now new_id =
  ((mkWriter (wr_buf writer ++ [http_response 404 (error_body "entry not found")]) false,
    st), Ok tt).
Proof.
  intros Hs Hq Hbody Hw Hobj Hnone.
  rewrite (_handle_http_resolve _ _ _ _ _ _ _ _ _ _ Hs Hq Hbody).
  rewrite (body_is_object_payload _ _ Hobj).
  rewrite _resolve_entry_unknown by done. by rewrite _send_response_alive.
Qed.
End ResolveEndpoint.

(** C4, as the server has it. A resolve request whose body is not empty and
    does not parse as JSON is answered 400. A request with no body or with a
    JSON object for a body is answered 404 with [{"error":"entry not found"}]
    when no project has an entry with that id among its most recent 1000
    events, and otherwise 200 with the JSON of [resolved: true], the id and
    the action, after the entry was resolved in the store. *)
Theorem resolve_endpoint_responses `{Runtime}
    (entry_id : string) (reader : StreamReader) (writer : StreamWriter)
    (headers : list (string * string)) (body_start : bytes) (st : ContextStore)
    (now new_id : string) (body_data : bytes) (reader' : StreamReader) :
  has_char "/" entry_id = false -> has_char "?" entry_id = false ->
  _read_body reader headers body_start = Ok (body_data, reader') ->
  wr_lost writer = false ->
  let answered status body st' :=
    ((mkWriter (wr_buf writer ++ [http_response status body]) false, st'), Ok tt) in
  let outcome :=
    _handle_http "POST" (resolve_path entry_id) reader writer headers body_start
                 st now new_id in
  (body_data <> [] -> json_loads body_data = Raise JSONDecodeError ->
   outcome = answered 400%Z (error_body "invalid json") st) /\
  (forall members, body_is_object body_data members ->
     ((forall pid e, e ∈ get_events st pid None 1000 -> id e <> entry_id) ->
      outcome = answered 404%Z (error_body "entry not found") st) /\
     ((exists pid e, e ∈ get_events st pid None 1000 /\ id e = entry_id) ->
      exists pid st',
        let action := dict_get "action" members (JStr "acknowledge") in
        resolve_entry st pid entry_id (py_str action)
          (py_str (dict_get "text" members (JStr ""))) now new_id = (st', Ok tt) /\
        outcome =
        answered 200%Z
          (str_encode (json_dumps (JObj [("resolved", JBool true);
                                         ("id", JStr entry_id); ("action", action)])))
          st')).
Proof.
  intros Hs Hq Hbody Hw answered outcome. subst outcome answered.
  rewrite (_handle_http_resolve _ _ _ _ _ _ _ _ _ _ Hs Hq Hbody).
  split.
  - intros Hne Hjson. destruct body_data as [|b body_data]; [done|].
    rewrite Hjson. by rewrite _send_response_alive.
  - intros members Hobj. rewrite (body_is_object_payload _ _ Hobj). split.
    + intros Hnone. rewrite _resolve_entry_unknown by done.
      by rewrite _send_response_alive.
    + intros Hsome.
      destruct (_resolve_entry_known st entry_id members now new_id Hsome)
        as (pid & st' & _ & Hres & ->).
      exists pid, st'. split; [done|]. by rewrite _send_response_alive.
Qed.

(** C10. The resolve endpoint looks for the entry among the most recent
    1000 events of each project only. When every occurrence of the id lies
    at an earlier position of its log, the request is answered 404 with
    [{"error":"entry not found"}] and the store is left as it was, whether
    or not the log has the entry. *)
Theorem resolve_endpoint_window `{Runtime}
    (entry_id : string) (reader : StreamReader) (writer : StreamWriter)
    (headers : list (string * string)) (body_start : bytes) (st : ContextStore)
    (now new_id : string) (body_data : bytes) (reader' : StreamReader)
    (members : list (string * json)) :
  has_char "/" entry_id = false -> has_char "?" entry_id = false ->
  _read_body reader headers body_start = Ok (body_data, reader') ->
  wr_lost writer = false ->
  body_is_object body_data members ->
  (forall pid i e, all_events st pid !! i = Some e -> id e = entry_id ->
     i + 1000 < length (all_events st pid)) ->
  _handle_http "POST" (resolve_path entry_id) reader writer headers body_start
               st now new_id =
  ((mkWriter (wr_buf writer ++ [http_response 404 (error_body "entry not found")]) false,
    st), Ok tt).
Proof.
  intros Hs Hq Hbody Hw Hobj Hold.
  apply (resolve_endpoint_not_found entry_id reader writer headers body_start st
           now new_id body_data reader' members); try done.
  intros pid e (i & Hi & Hlen)%get_events_window Hid.
  specialize (Hold pid i e Hi Hid). lia.
Qed.

(** C4 read literally does not hold: the log of [p1] has an entry with id
    [old], at the first of its 1001 positions, and the resolve request for
    [old], with the JSON object [{}] for a body, is answered 404. *)
Lemma resolve_endpoint_misses_old_entry :
  (exists e, all_events store_long_log "p1" !! 0 = Some e /\ id e = "old") /\
  json_loads (Runtime := sample_runtime) [x7b; x7d] = Ok (JObj []) /\
  @_handle_http sample_runtime "POST" "/queue/old/resolve" [] (mkWriter [] false) []
    [x7b; x7d] store_long_log "t" "r1" =
  ((mkWriter [http_response 404 (error_body "entry not found")] false,
    store_long_log), Ok tt).
Proof.
  split; [|split].
  - eexists. split; [vm_compute; reflexivity|reflexivity].
  - reflexivity.
  - vm_compute. reflexivity.
Qed.

Lemma resolve_endpoint_responses_witness :
  (@_handle_http sample_runtime "POST" (resolve_path "e2") [] (mkWriter [] false) []
     [x7b] store_p1 "t" "r1" =
   ((mkWriter ([] ++ [http_response 400 (error_body "invalid json")]) false, store_p1),
    Ok tt)) /\
  (@_handle_http sample_runtime "POST" (resolve_path "nope") [] (mkWriter [] false) []
     [x7b; x7d] store_p1 "t" "r1" =
   ((mkWriter ([] ++ [http_response 404 (error_body "entry not found")]) false, store_p1),
    Ok tt)) /\
  (exists pid st',
     resolve_entry store_p1 pid "e2" "acknowledge" "" "t" "r1" = (st', Ok tt) /\
     @_handle_http sample_runtime "POST" (resolve_path "e2") [] (mkWriter [] false) []
       [] store_p1 "t" "r1" =
     ((mkWriter ([] ++ [http_response 200
                          (str_encode
                             (sample_dumps
                                (JObj [("resolved", JBool true); ("id", JStr "e2");
                                       ("action", JStr "acknowledge")])))]) false, st'),
      Ok tt)).
Proof.
  split; [|split].
  - apply (proj1 (@resolve_endpoint_responses sample_runtime "e2" [] (mkWriter [] false)
                    [] [x7b] store_p1 "t" "r1" [x7b] []
                    eq_refl eq_refl eq_refl eq_refl)).
    + discriminate.
    + reflexivity.
  - apply (proj2 (@resolve_endpoint_responses sample_runtime "nope" [] (mkWriter [] false)
                    [] [x7b; x7d] store_p1 "t" "r1" [x7b; x7d] []
                    eq_refl eq_refl eq_refl eq_refl) []).
    + right. split; [discriminate|reflexivity].
    + intros pid e He Hid.
      apply get_events_all_events in He. unfold all_events in He.
      destruct (decide (pid = "p1")) as [->|Hne].
      * vm_compute in He.
        repeat (apply elem_of_cons in He as [->|He]; [simpl in Hid; discriminate|]).
        by apply elem_of_nil in He.
      * unfold store_p1, append_entry in He. simpl in He.
        rewrite !lookup_insert_ne, lookup_empty in He by done.
        by apply elem_of_nil in He.
  - apply (proj2 (@resolve_endpoint_responses sample_runtime "e2" [] (mkWriter [] false)
                    [] [] store_p1 "t" "r1" [] []
                    eq_refl eq_refl eq_refl eq_refl) []).
    + left. split; reflexivity.
    + exists "p1", (parse (stamped "2024-05-01T10:00:01+00:00"
                              (sample_entry "p1" "e2" APPROVAL false))).
      split; [|reflexivity]. vm_compute. right. left.
Defined.

Lemma all_events_store_long_log (pid : string) :
  all_events store_long_log pid =
  if decide (pid = "p1")
  then parse (stamped "2024-05-01T10:00:00+00:00" (sample_entry "p1" "old" APPROVAL false))
       :: repeat (parse (stamped "2024-05-01T10:00:01+00:00"
                           (sample_entry "p1" "new" STATUS false))) 1000
  else [].
Proof.
  unfold all_events, store_long_log. case_decide as Hp.
  - subst pid. rewrite lookup_singleton_eq. vm_compute. reflexivity.
  - by rewrite lookup_singleton_ne.
Qed.

Lemma resolve_endpoint_window_witness :
  (exists e, all_events store_long_log "p1" !! 0 = Some e /\ id e = "old") /\
  @_handle_http sample_runtime "POST" (resolve_path "old") [] (mkWriter [] false) []
    [x7b; x7d] store_long_log "t" "r1" =
  ((mkWriter ([] ++ [http_response 404 (error_body "entry not found")]) false,
    store_long_log), Ok tt).
Proof.
  split.
  - rewrite all_events_store_long_log. eexists. split; reflexivity.
  - apply (@resolve_endpoint_window sample_runtime "old" [] (mkWriter [] false)
             [] [x7b; x7d] store_long_log "t" "r1" [x7b; x7d] [] []).
    + reflexivity.
    + reflexivity.
    + reflexivity.
    + reflexivity.
    + right. split; [discriminate|reflexivity].
    + intros pid i e. rewrite all_events_store_long_log.
      case_decide; [|by rewrite lookup_nil].
      destruct i as [|i].
      * intros _ _. cbn [length]. rewrite repeat_length. lia.
      * cbn [lookup list_lookup]. intros Hi Hid.
        apply list_elem_of_lookup_2, list_elem_of_In, repeat_spec in Hi.
        subst e. discriminate.
Defined.

(** ** Sending and broadcasting *)

Lemma send_sent (message : string) (c : WebSocketConnection) :
  send message c = Ok (sent message c).
Proof.
  unfold sent, send. destruct (conn_closed c); [done|].
  destruct (ws_write_frame _ OP_TEXT _) as [w|e] eqn:Hw; [done|].
  apply ws_write_frame_Raise in Hw. by rewrite Hw.
Qed.

(** [send] on an open connection with a live transport delivers one text
    frame; on any other connection it delivers nothing. *)
Lemma sent_cases (message : string) (c : WebSocketConnection) :
  (conn_closed c = false /\ wr_lost (conn_writer c) = false /\
   exists frame,
     ws_frame OP_TEXT (str_encode message) = Ok frame /\
     sent message c =
     mkConn (conn_reader c) (mkWriter (wr_buf (conn_writer c) ++ [frame]) false) false) \/
  (wr_buf (conn_writer (sent message c)) = wr_buf (conn_writer c) /\
   wr_lost (conn_writer (sent message c)) = wr_lost (conn_writer c) /\
   (conn_closed (sent message c) = true) /\
   (conn_closed c = false ->
    wr_lost (conn_writer c) = true \/
    exists e, ws_frame OP_TEXT (str_encode message) = Raise e)).
Proof.
  unfold sent, send. destruct (conn_closed c) eqn:Hc.
  { right. repeat split; try done. }
  unfold ws_write_frame.
  destruct (ws_frame OP_TEXT (str_encode message)) as [frame|e] eqn:Hf;
    cbn [mbind result_bind].
  - unfold writer_write, writer_drain.
    destruct (wr_lost (conn_writer c)) eqn:Hl.
    + rewrite Hl. cbn [mbind result_bind is_Exception]. right.
      repeat split; try done. by left.
    + cbn [wr_lost mbind result_bind]. left. repeat split; try done.
      exists frame. split; [done|]. unfold set_writer. by rewrite Hc.
  - right. assert (is_Exception e = true) as ->.
    { unfold ws_frame, struct_pack_H, struct_pack_Q in Hf.
      repeat (match type of Hf with
              | context [match ?x with _ => _ end] => destruct x
              end; cbn [mbind result_bind] in Hf; try discriminate);
        by injection Hf as <-. }
    repeat split; try done. intros _. right. by exists e.
Qed.

(** An open connection with a live transport is delivered the text frames
    of the messages sent to it, in their order. *)
Lemma foldl_sent_alive (messages : list string) (frames : list bytes)
    (c : WebSocketConnection) :
  conn_closed c = false -> wr_lost (conn_writer c) = false ->
  Forall2 (fun m frame => ws_frame OP_TEXT (str_encode m) = Ok frame) messages frames ->
  foldl (fun c m => sent m c) c messages =
  mkConn (conn_reader c) (mkWriter (wr_buf (conn_writer c) ++ frames) false) false.
Proof.
  intros Hc Hl Hf. revert c Hc Hl.
  induction Hf as [|m frame messages frames Hm _ IH]; intros c Hc Hl.
  - cbn [foldl]. rewrite app_nil_r. destruct c as [r [b l] cl].
    cbn in Hc, Hl. by subst.
  - cbn [foldl].
    destruct (sent_cases m c) as [(_ & _ & frame' & Hm' & ->)|(_ & _ & _ & Hno)].
    + rewrite Hm in Hm'. injection Hm' as <-. rewrite IH by done.
      cbn [conn_reader conn_writer wr_buf]. by rewrite <- app_assoc.
    + destruct (Hno Hc) as [?|[e He]]; congruence.
Qed.

Section Broadcast.
Context `{Runtime}.

Lemma foldl_broadcast_to (message : string) (l : list nat) (s : QueueServer)
    (dead : gset nat) :
  NoDup l ->
  exists s',
    foldl (broadcast_to message) (s, dead) l = (s', dead) /\
    store s' = store s /\ ws_clients s' = ws_clients s /\
    _known_queue_ids s' = _known_queue_ids s /\
    forall cid,
      conns s' !! cid =
      if decide (cid ∈ l) then sent message <$> conns s !! cid else conns s !! cid.
Proof.
  intros Hnd. revert s. induction Hnd as [|x l Hx Hnd IH]; intros s.
  { exists s. repeat split; try done. }
  cbn [foldl]. unfold broadcast_to at 2.
  destruct (conns s !! x) as [c|] eqn:Hc.
  - rewrite send_sent.
    destruct (IH (set_conn x (sent message c) s)) as (s' & -> & Hst & Hcl & Hk & Hconns).
    exists s'. repeat split; try done. intros cid. rewrite Hconns. cbn [conns set_conn].
    destruct (decide (cid = x)) as [->|Hne].
    + rewrite lookup_insert_eq, Hc. rewrite decide_False by done.
      rewrite decide_True by (by left). done.
    + rewrite lookup_insert_ne by done.
      destruct (decide (cid ∈ l)) as [Hin|Hin].
      * rewrite decide_True by (by right). done.
      * rewrite decide_False; [done|]. by intros [?|?]%elem_of_cons.
  - destruct (IH s) as (s' & -> & Hst & Hcl & Hk & Hconns).
    exists s'. repeat split; try done. intros cid. rewrite Hconns.
    destruct (decide (cid = x)) as [->|Hne].
    + rewrite decide_False by done. rewrite decide_True by (by left).
      by rewrite Hc.
    + destruct (decide (cid ∈ l)) as [Hin|Hin].
      * rewrite decide_True by (by right). done.
      * rewrite decide_False; [done|]. by intros [?|?]%elem_of_cons.
Qed.

(** [_broadcast] sends the message once to every registered connection and
    changes nothing else; no connection ends up in [dead]. *)
Lemma _broadcast_spec (message : string) (s : QueueServer) :
  store (_broadcast message s) = store s /\
  ws_clients (_broadcast message s) = ws_clients s /\
  _known_queue_ids (_broadcast message s) = _known_queue_ids s /\
  forall cid,
    conns (_broadcast message s) !! cid =
    if decide (cid ∈ ws_clients s) then sent message <$> conns s !! cid
    else conns s !! cid.
Proof.
  unfold _broadcast.
  destruct (foldl_broadcast_to message (elements (ws_clients s)) s ∅)
    as (s' & -> & Hst & Hcl & Hk & Hconns); [apply NoDup_elements|].
  cbn [store ws_clients _known_queue_ids conns set_clients].
  rewrite Hcl, difference_empty_L. repeat split; try done.
  intros cid. rewrite Hconns.
  destruct (decide (cid ∈ ws_clients s)) as [Hin|Hin].
  - rewrite decide_True; [done|]. by apply elem_of_elements.
  - rewrite decide_False; [done|]. by rewrite elem_of_elements.
Qed.

(** Broadcasting a sequence of messages, one after the other. *)
Lemma foldl_broadcast (messages : list string) (s : QueueServer) :
  let s' := foldl (fun s m => _broadcast m s) s messages in
  store s' = store s /\ ws_clients s' = ws_clients s /\
  _known_queue_ids s' = _known_queue_ids s /\
  forall cid,
    conns s' !! cid =
    if decide (cid ∈ ws_clients s)
    then (fun c => foldl (fun c m => sent m c) c messages) <$> conns s !! cid
    else conns s !! cid.
Proof.
  revert s. induction messages as [|m messages IH]; intros s; cbn [foldl].
  { repeat split; try done. intros cid. case_decide; [|done].
    by destruct (conns s !! cid). }
  destruct (_broadcast_spec m s) as (Hst & Hcl & Hk & Hconns).
  destruct (IH (_broadcast m s)) as (Hst' & Hcl' & Hk' & Hconns').
  cbv zeta. rewrite Hst', Hcl', Hk'. repeat split; try done.
  intros cid. rewrite Hconns', Hcl, Hconns.
  case_decide; [|done]. by destruct (conns s !! cid).
Qed.
End Broadcast.

(** ** The poll tick *)

Section PollTick.
Context `{Runtime}.

Lemma poll_adds (known : gset string) (current : list ContextEntry) (s : QueueServer) :
  _known_queue_ids s = known ->
  foldl (fun s entry =>
           if decide (id entry ∉ _known_queue_ids s)
           then _broadcast (json_dumps (queue_add_message entry)) s
           else s)
        s current =
  foldl (fun s m => _broadcast m s) s
        ((fun entry => json_dumps (queue_add_message entry)) <$>
           filter (fun entry => id entry ∉ known) current).
Proof.
  revert s. induction current as [|entry current IH]; intros s Hk; [done|].
  cbn [foldl]. rewrite filter_cons, Hk. case_decide.
  - rewrite fmap_cons. cbn [foldl]. apply IH.
    destruct (_broadcast_spec (json_dumps (queue_add_message entry)) s) as (_ & _ & -> & _).
    done.
  - by apply IH.
Qed.

(** The tick as one sequence of broadcasts. *)
Lemma poll_body_broadcasts (s : QueueServer) :
  let known := _known_queue_ids s in
  let current := get_queue (store s) None in
  let current_ids : gset string := list_to_set (id <$> current) in
  poll_body None s =
  (set_known current_ids
     (foldl (fun s m => _broadcast m s) s
        (((fun entry => json_dumps (queue_add_message entry)) <$>
            filter (fun entry => id entry ∉ known) current) ++
         ((fun old_id => json_dumps (queue_remove_message old_id)) <$>
            elements (known ∖ current_ids)))),
   Ok tt).
Proof.
  cbv zeta. unfold poll_body. cbv zeta.
  rewrite (poll_adds (_known_queue_ids s)) by done.
  destruct (foldl_broadcast
              ((fun entry => json_dumps (queue_add_message entry)) <$>
                 filter (fun entry => id entry ∉ _known_queue_ids s)
                        (get_queue (store s) None)) s) as (_ & _ & Hk & _).
  cbv zeta in Hk. rewrite Hk. by rewrite foldl_app, (foldl_fmap _ _ (elements _)).
Qed.

(** C6. A poll tick with remembered ids [K] and current queue [Q] sends to
    every registered connection, in this order, one add notification with
    the full entry for each entry of [Q] whose id is not in [K], in queue
    order, then one remove notification with the id for each id that is in
    [K] and not in [Q], each such id once; then the remembered set is the
    set of ids of [Q], and nothing else of the server changes. When the read
    of the store raises an error, nothing is sent, the remembered set stays
    as it was, and the loop goes on with the next tick. *)
Theorem poll_tick_notifications (s : QueueServer) (e : exn)
    (ticks : list (option exn * ContextStore)) (st' : ContextStore) :
  let K := _known_queue_ids s in
  let Q := get_queue (store s) None in
  (exists removed s',
     NoDup removed /\
     (forall old_id, old_id ∈ removed <-> old_id ∈ K /\ old_id ∉ (id <$> Q)) /\
     poll_tick None s = (s', Ok tt) /\
     store s' = store s /\ ws_clients s' = ws_clients s /\
     _known_queue_ids s' = list_to_set (id <$> Q) /\
     forall cid,
       conns s' !! cid =
       if decide (cid ∈ ws_clients s)
       then (fun c =>
               foldl (fun c m => sent m c) c
                 (((fun entry => json_dumps (queue_add_message entry)) <$>
                     filter (fun entry => id entry ∉ K) Q) ++
                  ((fun old_id => json_dumps (queue_remove_message old_id)) <$>
                     removed))) <$> conns s !! cid
       else conns s !! cid) /\
  (is_Exception e = true ->
   poll_tick (Some e) s = (s, Ok tt) /\
   _poll_queue ((Some e, st') :: ticks) s = _poll_queue ticks (set_store st' s) /\
   _known_queue_ids (set_store st' s) = K).
Proof.
  intros K Q. split.
  - pose proof (poll_body_broadcasts s) as Hb. cbv zeta in Hb. fold K Q in Hb.
    destruct (foldl_broadcast
                (((fun entry => json_dumps (queue_add_message entry)) <$>
                    filter (fun entry => id entry ∉ K) Q) ++
                 ((fun old_id => json_dumps (queue_remove_message old_id)) <$>
                    elements (K ∖ list_to_set (id <$> Q)))) s)
      as (Hst & Hcl & Hk & Hconns).
    cbv zeta in Hst, Hcl, Hk, Hconns.
    exists (elements (K ∖ list_to_set (id <$> Q))),
           (set_known (list_to_set (id <$> Q))
              (foldl (fun s m => _broadcast m s) s
                 (((fun entry => json_dumps (queue_add_message entry)) <$>
                     filter (fun entry => id entry ∉ K) Q) ++
                  ((fun old_id => json_dumps (queue_remove_message old_id)) <$>
                     elements (K ∖ list_to_set (id <$> Q)))))).
    split; [apply NoDup_elements|]. split.
    { intros old_id.
      rewrite elem_of_elements, elem_of_difference.
      by rewrite (elem_of_list_to_set (C := gset string)). }
    split; [unfold poll_tick; by rewrite Hb|].
    cbn [store ws_clients _known_queue_ids conns set_known].
    repeat split; try done.
  - intros He. unfold poll_tick at 1. cbn [poll_body]. rewrite He.
    split; [done|]. split; [|done].
    cbn [_poll_queue]. unfold poll_tick. cbn [poll_body]. by rewrite He.
Qed.
End PollTick.

Lemma poll_tick_notifications_witness :
  let s := sample_server in
  let K := _known_queue_ids s in
  let Q := get_queue (store s) None in
  (exists removed s',
     NoDup removed /\
     (forall old_id, old_id ∈ removed <-> old_id ∈ K /\ old_id ∉ (id <$> Q)) /\
     @poll_tick sample_runtime None s = (s', Ok tt) /\
     store s' = store s /\ ws_clients s' = ws_clients s /\
     _known_queue_ids s' = list_to_set (id <$> Q) /\
     forall cid,
       conns s' !! cid =
       if decide (cid ∈ ws_clients s)
       then (fun c =>
               foldl (fun c m => sent m c) c
                 (((fun entry => sample_dumps (queue_add_message entry)) <$>
                     filter (fun entry => id entry ∉ K) Q) ++
                  ((fun old_id => sample_dumps (queue_remove_message old_id)) <$>
                     removed))) <$> conns s !! cid
       else conns s !! cid) /\
  (@poll_tick sample_runtime (Some OSError) s = (s, Ok tt) /\
   @_poll_queue sample_runtime [(Some OSError, store_p1_p2); (None, store_p1_p2)] s =
     @_poll_queue sample_runtime [(None, store_p1_p2)] (set_store store_p1_p2 s) /\
   _known_queue_ids (set_store store_p1_p2 s) = K).
Proof.
  intros s K Q.
  destruct (@poll_tick_notifications sample_runtime sample_server OSError
              [(None, store_p1_p2)] store_p1_p2) as [Hok Herr].
  split; [exact Hok|]. apply Herr. reflexivity.
Defined.

(** The tick of [sample_server] on the wire: the registered connection gets
    the add notification for [e2], then the remove notification for [gone],
    and the server remembers [e2]. *)
Example poll_tick_sample :
  let s' := (@poll_tick sample_runtime None sample_server).1 in
  (wr_buf ∘ conn_writer <$> conns s' !! 0) =
    Some [text_frame (sample_dumps (queue_add_message
                (parse (stamped "2024-05-01T10:00:01+00:00"
                          (sample_entry "p1" "e2" APPROVAL false)))));
          text_frame (sample_dumps (queue_remove_message "gone"))] /\
  elements (_known_queue_ids s') = ["e2"].
Proof. vm_compute. split; reflexivity. Qed.

(** ** What reaches a push socket, and in which order *)

Section PushSocket.
Context `{Runtime}.

Lemma evolves_refl (c : WebSocketConnection) : evolves c c.
Proof. exists []. by rewrite app_nil_r. Qed.

Lemma evolves_trans (c1 c2 c3 : WebSocketConnection) :
  evolves c1 c2 -> evolves c2 c3 -> evolves c1 c3.
Proof.
  intros (x1 & Hb1 & Hf1 & Hq1) (x2 & Hb2 & Hf2 & Hq2).
  exists (x1 ++ x2). split; [by rewrite Hb2, Hb1, app_assoc|].
  split; [by apply Forall_app|].
  intros Hq. destruct (Hq1 Hq) as [-> Hq']. destruct (Hq2 Hq') as [-> Hq'']. done.
Qed.

(** Same delivered chunks, and quiet if it was: enough to evolve. *)
Lemma evolves_same_buf (c c' : WebSocketConnection) :
  wr_buf (conn_writer c') = wr_buf (conn_writer c) ->
  (quiet c -> quiet c') -> evolves c c'.
Proof. intros Hb Hq. exists []. rewrite app_nil_r. auto. Qed.

Lemma snapshot_first_evolves (c c' : WebSocketConnection) :
  snapshot_first c -> evolves c c' -> snapshot_first c'.
Proof.
  intros [hs [[Hb Hq]|(entries & snapshot & rest & Hs & Hb & Hrest)]]
         (extra & Hb' & Hextra & Hquiet); exists hs.
  - left. destruct (Hquiet Hq) as [-> Hq']. by rewrite Hb', app_nil_r.
  - right. exists entries, snapshot, (rest ++ extra).
    split; [done|]. split; [by rewrite Hb', Hb|]. by apply Forall_app.
Qed.

Lemma sent_evolves (message : string) (c : WebSocketConnection) :
  (forall frame, ws_frame OP_TEXT (str_encode message) = Ok frame -> later_chunk frame) ->
  evolves c (sent message c).
Proof.
  intros Hlater.
  destruct (sent_cases message c)
    as [(Hc & Hl & frame & Hf & ->)|(Hb & Hl & Hc & _)].
  - exists [frame]. split; [done|].
    split; [apply Forall_singleton; by apply Hlater|].
    intros [Hq|Hq]; congruence.
  - apply evolves_same_buf; [done|]. intros _. by left.
Qed.

Lemma foldl_sent_evolves (messages : list string) (c : WebSocketConnection) :
  Forall (fun m => forall frame,
            ws_frame OP_TEXT (str_encode m) = Ok frame -> later_chunk frame) messages ->
  evolves c (foldl (fun c m => sent m c) c messages).
Proof.
  intros Hm. revert c. induction Hm as [|m messages Hm _ IH]; intros c.
  - apply evolves_refl.
  - cbn [foldl]. eapply evolves_trans; [by apply sent_evolves|apply IH].
Qed.

Lemma close_evolves (c : WebSocketConnection) :
  exists c', close c = Ok c' /\ evolves c c'.
Proof.
  unfold close. destruct (conn_closed c) eqn:Hc.
  { exists c. split; [done|apply evolves_refl]. }
  unfold ws_write_frame. cbn [conn_writer set_closed].
  destruct (ws_frame OP_CLOSE []) as [frame|e] eqn:Hf; [|by vm_compute in Hf].
  cbn [mbind result_bind]. unfold writer_write, writer_drain.
  destruct (wr_lost (conn_writer c)) eqn:Hl.
  - rewrite Hl. cbn [mbind result_bind is_Exception].
    eexists. split; [done|]. apply evolves_same_buf; [done|]. intros _. by left.
  - cbn [wr_lost mbind result_bind]. eexists. split; [done|].
    exists [frame]. split; [done|]. split.
    + apply Forall_singleton. by repeat right.
    + intros [Hq|Hq]; congruence.
Qed.

(** [recv] on an open connection: what it writes are pongs, and it writes
    none when the transport is gone. *)
Lemma recv_fuel_evolves (n : nat) (c : WebSocketConnection) :
  conn_closed c = false ->
  exists c' msg, recv_fuel bytes_decode n c = Ok (c', msg) /\ evolves c c'.
Proof.
  revert c. induction n as [|n IH]; intros c Hc; cbn [recv_fuel].
  { eexists _, _. split; [done|]. apply evolves_same_buf; [done|]. intros _. by left. }
  destruct (ws_read_frame (conn_reader c)) as [[[op p] r]|e] eqn:Hr.
  2:{ apply ws_read_frame_Raise in Hr as ->. eexists _, _. split; [done|].
      apply evolves_same_buf; [done|]. intros _. by left. }
  destruct (op =? OP_CLOSE)%Z.
  { eexists _, _. split; [done|]. apply evolves_same_buf; [done|]. intros _. by left. }
  destruct (op =? OP_PING)%Z.
  { cbn [conn_writer set_reader].
    destruct (ws_write_frame (conn_writer c) OP_PONG p) as [w|e] eqn:Hw.
    - unfold ws_write_frame in Hw.
      destruct (ws_frame OP_PONG p) as [frame|] eqn:Hf; [|discriminate].
      cbn [mbind result_bind] in Hw. unfold writer_write, writer_drain in Hw.
      destruct (wr_lost (conn_writer c)) eqn:Hl.
      { rewrite Hl in Hw. discriminate. }
      cbn [wr_lost mbind result_bind] in Hw. injection Hw as <-.
      destruct (IH (set_writer (mkWriter (wr_buf (conn_writer c) ++ [frame]) false)
                      (mkConn r (conn_writer c) (conn_closed c))))
        as (c' & msg & Hrecv & Hev); [done|].
      exists c', msg. split; [done|].
      eapply evolves_trans; [|exact Hev].
      exists [frame]. split; [done|]. split.
      + apply Forall_singleton. right; right; left. by exists p.
      + intros [Hq|Hq]; congruence.
    - apply ws_write_frame_Raise in Hw. unfold except_closed. rewrite Hw.
      eexists _, _. split; [done|]. apply evolves_same_buf; [done|]. intros _. by left. }
  destruct (op =? OP_TEXT)%Z.
  { destruct (bytes_decode p).
    - eexists _, _. split; [done|]. by apply evolves_same_buf.
    - eexists _, _. split; [done|]. apply evolves_same_buf; [done|]. intros _. by left. }
  eexists _, _. split; [done|]. by apply evolves_same_buf.
Qed.
End PushSocket.

Section Runs.
Context `{Runtime}.

Lemma conn_step_refl (s s' : QueueServer) (cid : nat) :
  conns s' = conns s -> conn_step s s' cid.
Proof.
  intros E. unfold conn_step. rewrite E.
  destruct (conns s !! cid) as [c|]; [|done].
  exists c. split; [done|apply evolves_refl].
Qed.

Lemma conn_step_trans (s1 s2 s3 : QueueServer) (cid : nat) :
  conn_step s1 s2 cid -> conn_step s2 s3 cid -> conn_step s1 s3 cid.
Proof.
  unfold conn_step. destruct (conns s1 !! cid) as [c1|].
  - intros (c2 & -> & H12) (c3 & -> & H23). exists c3. split; [done|].
    by eapply evolves_trans.
  - intros H12. destruct (conns s2 !! cid) as [c2|].
    + intros (c3 & -> & H23) c' [= <-].
      eapply snapshot_first_evolves; [by apply H12|done].
    + done.
Qed.

Lemma updates_conn_step (cid0 : nat) (s s' : QueueServer) (cid : nat) :
  updates cid0 s s' -> conn_step s s' cid.
Proof.
  intros [E|(c & c' & Hc & Hev & E)]; [by apply conn_step_refl|].
  unfold conn_step. rewrite E. destruct (decide (cid = cid0)) as [->|Hne].
  - rewrite Hc, lookup_insert_eq. eauto.
  - rewrite lookup_insert_ne by done.
    destruct (conns s !! cid) as [d|]; [|done].
    exists d. split; [done|apply evolves_refl].
Qed.

Lemma updates_trans (cid : nat) (s1 s2 s3 : QueueServer) :
  updates cid s1 s2 -> updates cid s2 s3 -> updates cid s1 s3.
Proof.
  intros [E1|(c & c' & Hc & Hev & E1)] [E2|(d & d' & Hd & Hev' & E2)].
  - left. congruence.
  - right. exists d, d'. rewrite E1 in Hd, E2. done.
  - right. exists c, c'. rewrite E2. done.
  - right. rewrite E1, lookup_insert_eq in Hd. injection Hd as <-.
    exists c, d'. split; [done|]. split; [by eapply evolves_trans|].
    by rewrite E2, E1, insert_insert_eq.
Qed.

Lemma close_writer_of_updates (cid : nat) (s : QueueServer) :
  updates cid s (close_writer_of cid s).
Proof.
  unfold close_writer_of. destruct (conns s !! cid) as [c|] eqn:Hc; [|by left].
  right. exists c. eexists. split; [done|]. split; [|done].
  apply evolves_same_buf; [done|]. intros _. by right.
Qed.

Lemma ws_finish_updates (cid : nat) (s : QueueServer) :
  updates cid s (ws_finish cid s).1.
Proof.
  unfold ws_finish, ws_teardown. cbn [conns set_clients].
  destruct (conns s !! cid) as [c|] eqn:Hc.
  - destruct (close_evolves c) as (c' & -> & Hev). cbn [fst].
    eapply updates_trans; [|apply close_writer_of_updates].
    right. exists c, c'. done.
  - cbn [fst]. eapply updates_trans; [|apply close_writer_of_updates]. by left.
Qed.

Lemma ws_turn_updates (cid : nat) (s : QueueServer) :
  updates cid s (ws_turn cid s).1.
Proof.
  unfold ws_turn. destruct (conns s !! cid) as [c|] eqn:Hc; [|by left].
  destruct (conn_closed c) eqn:Hcl; [apply ws_finish_updates|].
  destruct (recv_fuel_evolves (S (length (conn_reader c))) c Hcl)
    as (c' & msg & Hrecv & Hev).
  unfold recv. rewrite Hrecv.
  assert (Hset : updates cid s (set_conn cid c' s)) by (right; by exists c, c').
  destruct msg as [m|]; [done|].
  eapply updates_trans; [exact Hset|apply ws_finish_updates].
Qed.

Lemma add_remove_later (message : string) :
  (exists entry, message = json_dumps (queue_add_message entry)) \/
  (exists old_id, message = json_dumps (queue_remove_message old_id)) ->
  forall frame, ws_frame OP_TEXT (str_encode message) = Ok frame -> later_chunk frame.
Proof.
  intros [[entry ->]|[old_id ->]] frame Hf.
  - left. by exists entry.
  - right; left. by exists old_id.
Qed.

Lemma poll_tick_conn_step (fault : option exn) (s : QueueServer) (cid : nat) :
  conn_step s (poll_tick fault s).1 cid.
Proof.
  unfold poll_tick. destruct fault as [e|].
  { cbn [poll_body]. destruct (is_Exception e); by apply conn_step_refl. }
  pose proof (poll_body_broadcasts s) as Hb. cbv zeta in Hb. rewrite Hb. cbn [fst].
  match type of Hb with
  | _ = (set_known _ (foldl _ s ?msgs), _) =>
      destruct (foldl_broadcast msgs s) as (_ & _ & _ & Hconns);
      assert (Hm : Forall (fun m => forall frame,
                    ws_frame OP_TEXT (str_encode m) = Ok frame -> later_chunk frame) msgs)
  end.
  { apply Forall_app. split; rewrite Forall_fmap; apply Forall_forall;
      intros x _; cbn [compose]; apply add_remove_later; eauto. }
  cbv zeta in Hconns. unfold conn_step. cbn [conns set_known]. rewrite Hconns.
  destruct (conns s !! cid) as [c|]; [|by case_decide].
  case_decide.
  - eexists. split; [done|]. by apply foldl_sent_evolves.
  - exists c. split; [done|apply evolves_refl].
Qed.
End Runs.

Section Upgrade.
Context `{Runtime}.

Lemma fresh_conn_None (s : QueueServer) : conns s !! fresh (dom (conns s)) = None.
Proof. apply not_elem_of_dom, is_fresh. Qed.

(** The upgrade of a new push-socket client, through [_handle_connection]:
    nothing happens when the transport is gone before the handshake is out;
    otherwise a new connection is registered, and what it has been sent
    starts with the snapshot. *)
Lemma open_result (reader : StreamReader) (lost : bool)
    (headers : list (string * string)) (fault : option exn) (s : QueueServer) :
  let cid := fresh (dom (conns s)) in
  let s' := step s (EvOpen reader lost headers fault) in
  (lost = true /\ s' = s) \/
  (lost = false /\
   exists c',
     snapshot_first c' /\
     conns s' = <[cid := c']> (conns s) /\
     ws_clients s' = ws_clients s ∪ {[cid]} /\
     store s' = store s /\
     (fault = None ->
      c' = sent (json_dumps (queue_snapshot_message (get_queue (store s) None)))
                (mkConn reader (mkWriter [handshake_response headers] false) false))).
Proof.
  cbv zeta. cbn [step]. unfold ws_open, writer_write, writer_drain. cbn [wr_lost wr_buf].
  destruct lost.
  { left. split; [done|]. cbn [wr_lost]. unfold close_writer_of.
    by rewrite fresh_conn_None. }
  right. split; [done|]. cbn [wr_lost app].
  set (cid := fresh (dom (conns s))).
  set (conn := mkConn reader (mkWriter [handshake_response headers] false) false).
  destruct fault as [e|].
  - unfold close_writer_of. cbn [conns set_clients set_conn].
    rewrite lookup_insert_eq.
    exists (set_writer (writer_close (conn_writer conn)) conn).
    split; [|split; [|split; [|split]]]; try done.
    + exists (handshake_response headers). left. split; [done|]. by right.
    + cbn [conns set_conn set_clients]. by rewrite insert_insert_eq.
  - cbn [store set_clients set_conn]. rewrite send_sent.
    exists (sent (json_dumps (queue_snapshot_message (get_queue (store s) None))) conn).
    split; [|split; [|split; [|split]]]; try done.
    2:{ cbn [conns set_conn set_clients]. by rewrite insert_insert_eq. }
    exists (handshake_response headers).
    destruct (sent_cases (json_dumps (queue_snapshot_message (get_queue (store s) None))) conn)
      as [(_ & _ & frame & Hf & ->)|(Hb & _ & Hc & _)].
    + right. exists (get_queue (store s) None), frame, []. done.
    + left. split; [by rewrite Hb|]. by left.
Qed.

Lemma step_conn_step (s : QueueServer) (ev : event) (cid : nat) :
  conn_step s (step s ev) cid.
Proof.
  destruct ev as [reader lost headers fault|cid0|fault|cid0|st].
  - destruct (open_result reader lost headers fault s)
      as [[_ ->]|(_ & c' & Hsf & E & _)]; [by apply conn_step_refl|].
    unfold conn_step. rewrite E.
    destruct (decide (cid = fresh (dom (conns s)))) as [->|Hne].
    + rewrite fresh_conn_None, lookup_insert_eq. by intros ? [= <-].
    + rewrite lookup_insert_ne by done.
      destruct (conns s !! cid) as [c|]; [|done].
      exists c. split; [done|apply evolves_refl].
  - eapply updates_conn_step, ws_turn_updates.
  - apply poll_tick_conn_step.
  - cbn [step]. destruct (conns s !! cid0) as [c|] eqn:Hc; [|by apply conn_step_refl].
    eapply (updates_conn_step cid0). right. exists c. eexists.
    split; [done|]. split; [|done].
    apply evolves_same_buf; [done|]. intros _. by right.
  - by apply conn_step_refl.
Qed.

(** Along every run, what a connection has been sent starts with the
    snapshot. *)
Lemma run_snapshot_first (s : QueueServer) (evs : list event) :
  (forall cid c, conns s !! cid = Some c -> snapshot_first c) ->
  forall cid c, conns (run s evs) !! cid = Some c -> snapshot_first c.
Proof.
  revert s. induction evs as [|ev evs IH]; intros s Hinv; [done|].
  cbn [run foldl]. apply IH. intros cid c Hc.
  pose proof (step_conn_step s ev cid) as Hstep. unfold conn_step in Hstep.
  destruct (conns s !! cid) as [c0|] eqn:Hc0.
  - destruct Hstep as (c' & Hc' & Hev). rewrite Hc in Hc'. injection Hc' as <-.
    eapply snapshot_first_evolves; [by eapply Hinv|done].
  - by apply Hstep.
Qed.

(** C7. When a push-socket client completes the upgrade handshake, its
    connection is in the registry, and the first thing sent to it after the
    handshake response is one text frame with the [queue_snapshot] message
    of the whole current queue, an empty [entries] array when the queue is
    empty. And in every state that the server reaches, what a connection has
    been sent after the handshake response is nothing at all, or that one
    snapshot followed by add and remove notifications, pongs and the close
    frame only. *)
Theorem snapshot_before_notifications
    (st : ContextStore) (evs : list event) (reader : StreamReader)
    (headers : list (string * string)) (fault : option exn) (snapshot : bytes) :
  let s := run (initial_server st) evs in
  let cid := fresh (dom (conns s)) in
  let Q := get_queue (store s) None in
  conns s !! cid = None /\
  cid ∈ ws_clients (step s (EvOpen reader false headers fault)) /\
  (is_text_frame (queue_snapshot_message Q) snapshot ->
   conns (step s (EvOpen reader false headers None)) !! cid =
   Some (mkConn reader (mkWriter [handshake_response headers; snapshot] false) false)) /\
  (Q = [] ->
   queue_snapshot_message Q =
   JObj [("type", JStr "queue_snapshot"); ("entries", JArr [])]) /\
  (forall cid' c, conns s !! cid' = Some c -> snapshot_first c).
Proof.
  intros s cid Q. split; [apply fresh_conn_None|]. split; [|split; [|split]].
  - destruct (open_result reader false headers fault s)
      as [[[=] _]|(_ & c' & _ & _ & -> & _)].
    apply elem_of_union_r. by apply elem_of_singleton.
  - intros Hsnap.
    destruct (open_result reader false headers None s)
      as [[[=] _]|(_ & c' & _ & -> & _ & _ & Hc')].
    rewrite lookup_insert_eq, (Hc' eq_refl). f_equal.
    destruct (sent_cases (json_dumps (queue_snapshot_message (get_queue (store s) None)))
                (mkConn reader (mkWriter [handshake_response headers] false) false))
      as [(_ & _ & frame & Hf & ->)|(_ & _ & _ & Hno)].
    + unfold is_text_frame in Hsnap. fold Q in Hf. rewrite Hsnap in Hf.
      by injection Hf as <-.
    + unfold is_text_frame in Hsnap. fold Q in Hno.
      destruct (Hno eq_refl) as [[=]|[e He]]. rewrite Hsnap in He. discriminate.
  - by intros ->.
  - apply run_snapshot_first. intros cid' c Hc. cbn in Hc.
    by rewrite lookup_empty in Hc.
Qed.
End Upgrade.

Lemma snapshot_before_notifications_witness :
  let s := @run sample_runtime (initial_server ∅) [] in
  let cid := fresh (dom (conns s)) in
  let snapshot := text_frame (sample_dumps (queue_snapshot_message [])) in
  conns s !! cid = None /\
  cid ∈ ws_clients (@step sample_runtime s (EvOpen [x88; x00] false [] None)) /\
  conns (@step sample_runtime s (EvOpen [x88; x00] false [] None)) !! cid =
    Some (mkConn [x88; x00]
            (mkWriter [@handshake_response sample_runtime []; snapshot] false) false) /\
  queue_snapshot_message (get_queue (store s) None) =
    JObj [("type", JStr "queue_snapshot"); ("entries", JArr [])] /\
  (forall cid' c, conns s !! cid' = Some c -> @snapshot_first sample_runtime c).
Proof.
  intros s cid snapshot.
  destruct (@snapshot_before_notifications sample_runtime ∅ [] [x88; x00] [] None snapshot)
    as (Hnew & Hreg & Hsnap & Hempty & Hinv).
  split; [exact Hnew|]. split; [exact Hreg|]. split; [|split; [|exact Hinv]].
  - apply Hsnap. vm_compute. reflexivity.
  - apply Hempty. vm_compute. reflexivity.
Defined.

(** A client connects while the queue is empty; then [p1] gets its entries
    and the poll task wakes up; then the client's close frame is read. The
    connection has been sent the handshake response, the empty snapshot and
    the add notification for [e2], and is out of the registry. *)
Example snapshot_then_add :
  let s := @run sample_runtime (initial_server ∅)
             [EvOpen [x88; x00] false [] None; EvStore store_p1; EvTick None; EvTurn 0] in
  (wr_buf ∘ conn_writer <$> conns s !! 0) =
    Some [@handshake_response sample_runtime [];
          text_frame (sample_dumps (queue_snapshot_message []));
          text_frame (sample_dumps (queue_add_message
             (parse (stamped "2024-05-01T10:00:01+00:00"
                       (sample_entry "p1" "e2" APPROVAL false)))))] /\
  elements (ws_clients s) = [].
Proof. vm_compute. split; reflexivity. Qed.

(* ===================================================================== *)
(** * Further properties of the transport *)

(** ** Frames on a stream *)

Lemma readexactly_more (n : Z) (r : StreamReader) (data : bytes) (r' more : StreamReader) :
  readexactly n r = Ok (data, r') ->
  readexactly n (r ++ more) = Ok (data, r' ++ more).
Proof.
  intros Hr. apply readexactly_Ok in Hr as [-> <-].
  rewrite <- app_assoc. apply readexactly_app.
Qed.

Lemma lor_0x80_range (opcode : Z) :
  (0 <= Z.lor 0x80 opcode < 256)%Z <-> (0 <= opcode < 256)%Z.
Proof.
  change 256%Z with (2 ^ 8)%Z. split.
  - intros [Hlo Hhi]. apply Z.lor_nonneg in Hlo as [_ Hop]. split; [done|].
    destruct (Z.eq_dec opcode 0%Z) as [->|Hnz]; [lia|].
    assert (0 < Z.lor 0x80 opcode)%Z.
    { assert (Z.lor 0x80 opcode <> 0)%Z; [|pose proof (proj2 (Z.lor_nonneg 0x80 opcode)); lia].
      intros E%Z.lor_eq_0_iff. lia. }
    apply Z.log2_lt_pow2; [lia|]. apply Z.log2_lt_pow2 in Hhi; [|done].
    rewrite Z.log2_lor in Hhi by lia. lia.
  - intros Hop. split; [apply Z.lor_nonneg; lia|].
    destruct (Z.eq_dec (Z.lor 0x80 opcode) 0%Z) as [->|Hnz]; [lia|].
    assert (0 <= Z.lor 0x80 opcode)%Z by (apply Z.lor_nonneg; lia).
    apply Z.log2_lt_pow2; [lia|].
    rewrite Z.log2_lor by lia. apply Z.max_lub_lt; [done|].
    destruct (Z.eq_dec opcode 0%Z) as [->|]; [done|]. apply Z.log2_lt_pow2; lia.
Qed.

Lemma ws_frame_inv (opcode : Z) (payload frame : bytes) :
  ws_frame opcode payload = Ok frame ->
  exists b0 ext,
    frame = b0 :: ext ++ payload /\
    byte_of_Z (Z.lor 0x80 opcode) = Some b0 /\
    ((Z.of_nat (length payload) < 126)%Z /\
       ext = [byte_wrap (Z.of_nat (length payload))] \/
     (126 <= Z.of_nat (length payload) < 65536)%Z /\
       ext = x7e :: be_encode 2 (Z.of_nat (length payload)) \/
     (65536 <= Z.of_nat (length payload) < 2 ^ 64)%Z /\
       ext = x7f :: be_encode 8 (Z.of_nat (length payload))).
Proof.
  unfold ws_frame. destruct (byte_of_Z (Z.lor 0x80 opcode)) as [b0|]; [|discriminate].
  intros Hf. exists b0.
  destruct (Z.ltb_spec (Z.of_nat (length payload)) 126).
  { cbn [mbind result_bind] in Hf. injection Hf as <-.
    exists [byte_wrap (Z.of_nat (length payload))]. split; [done|].
    split; [done|]. by left. }
  destruct (Z.ltb_spec (Z.of_nat (length payload)) 65536).
  { unfold struct_pack_H in Hf.
    destruct (Z.leb_spec 0 (Z.of_nat (length payload))); [|lia].
    destruct (Z.ltb_spec (Z.of_nat (length payload)) 65536); [|lia].
    cbn [andb mbind result_bind] in Hf. injection Hf as <-.
    exists (x7e :: be_encode 2 (Z.of_nat (length payload))). split; [done|].
    split; [done|]. right; left. split; [lia|done]. }
  unfold struct_pack_Q in Hf.
  destruct (Z.leb_spec 0 (Z.of_nat (length payload))); [|lia].
  destruct (Z.ltb_spec (Z.of_nat (length payload)) (2 ^ 64)); [|discriminate].
  cbn [andb mbind result_bind] in Hf. injection Hf as <-.
  exists (x7f :: be_encode 8 (Z.of_nat (length payload))). split; [done|].
  split; [done|]. right; right. split; [lia|done].
Qed.

(** X1. Frames written one after the other are read back one after the other:
    each read takes exactly one frame off the stream, whatever follows it. *)
Theorem frames_in_sequence
    (opcode1 opcode2 : Z) (payload1 payload2 : bytes) (w : StreamWriter)
    (rest : StreamReader) :
  (0 <= opcode1 < 16)%Z -> (0 <= opcode2 < 16)%Z ->
  (Z.of_nat (length payload1) < 2 ^ 64)%Z ->
  (Z.of_nat (length payload2) < 2 ^ 64)%Z ->
  wr_lost w = false ->
  exists frame1 frame2 w1,
    ws_write_frame w opcode1 payload1 = Ok w1 /\
    ws_write_frame w1 opcode2 payload2 =
      Ok (mkWriter (wr_buf w ++ [frame1; frame2]) false) /\
    ws_read_frame (frame1 ++ frame2 ++ rest) = Ok ((opcode1, payload1), frame2 ++ rest) /\
    ws_read_frame (frame2 ++ rest) = Ok ((opcode2, payload2), rest).
Proof.
  intros Ho1 Ho2 Hl1 Hl2 Hw.
  destruct (ws_frame_Ok opcode1 payload1 Ho1 Hl1) as (b1 & e1 & Hf1 & _).
  destruct (ws_frame_Ok opcode2 payload2 Ho2 Hl2) as (b2 & e2 & Hf2 & _).
  exists (b1 :: e1 ++ payload1), (b2 :: e2 ++ payload2),
         (mkWriter (wr_buf w ++ [b1 :: e1 ++ payload1]) false).
  split; [by apply ws_write_frame_Ok|]. split.
  { rewrite (ws_write_frame_Ok (mkWriter (wr_buf w ++ [b1 :: e1 ++ payload1]) false)
               _ _ _ eq_refl Hf2).
    cbn [wr_buf]. by rewrite <- app_assoc. }
  split.
  - destruct (ws_frame_roundtrip opcode1 payload1 ((b2 :: e2 ++ payload2) ++ rest) Ho1 Hl1)
      as (f & Hf & Hr). rewrite Hf1 in Hf. by injection Hf as <-.
  - destruct (ws_frame_roundtrip opcode2 payload2 rest Ho2 Hl2) as (f & Hf & Hr).
    rewrite Hf2 in Hf. by injection Hf as <-.
Qed.

Lemma frames_in_sequence_witness :
  exists frame1 frame2 w1,
    ws_write_frame (mkWriter [] false) OP_TEXT [x68; x69] = Ok w1 /\
    ws_write_frame w1 OP_CLOSE [] = Ok (mkWriter ([] ++ [frame1; frame2]) false) /\
    ws_read_frame (frame1 ++ frame2 ++ [xff]) =
      Ok ((OP_TEXT, [x68; x69]), frame2 ++ [xff]) /\
    ws_read_frame (frame2 ++ [xff]) = Ok ((OP_CLOSE, []), [xff]).
Proof.
  apply (frames_in_sequence OP_TEXT OP_CLOSE [x68; x69] [] (mkWriter [] false) [xff]).
  - unfold OP_TEXT. lia.
  - unfold OP_CLOSE. lia.
  - simpl. lia.
  - simpl. lia.
  - reflexivity.
Defined.

(** X2. Every frame that [ws_write_frame] builds has the FIN bit set and the
    mask bit clear, carries the payload unchanged at its end, and uses the
    shortest length form: 2 header bytes below 126 bytes of payload, 4 below
    65536, 10 from there on. *)
Theorem ws_frame_shape (opcode : Z) (payload frame : bytes) :
  ws_frame opcode payload = Ok frame ->
  exists b0 b1 tail,
    frame = b0 :: b1 :: tail /\
    byte_to_Z b0 = Z.lor 0x80 opcode /\ (128 <= byte_to_Z b0)%Z /\
    (byte_to_Z b1 < 128)%Z /\
    drop (length frame - length payload) frame = payload /\
    length frame =
      length payload +
      (if (Z.of_nat (length payload) <? 126)%Z then 2
       else if (Z.of_nat (length payload) <? 65536)%Z then 4 else 10).
Proof.
  intros Hf. apply ws_frame_inv in Hf as (b0 & ext & -> & Hb0 & Hext).
  pose proof (byte_to_of_Z _ _ Hb0) as Hv.
  assert (Hfin : (128 <= byte_to_Z b0)%Z).
  { pose proof (byte_to_Z_range b0) as Hr. rewrite Hv in Hr |- *.
    destruct (Z.lt_ge_cases (Z.lor 0x80 opcode) 128) as [Hlt|]; [exfalso|done].
    assert (Hbit : Z.testbit (Z.lor 0x80 opcode) 7 = true)
      by (by rewrite Z.lor_spec).
    destruct (Z.eq_dec (Z.lor 0x80 opcode) 0%Z) as [E|Hnz].
    - by rewrite E, Z.bits_0 in Hbit.
    - assert (Z.log2 (Z.lor 0x80 opcode) < 7)%Z by (apply Z.log2_lt_pow2; lia).
      rewrite Z.bits_above_log2 in Hbit; [done|lia|lia]. }
  destruct Hext as [[Hl ->]|[[Hl ->]|[Hl ->]]].
  - eexists _, _, _. split; [done|]. split; [done|]. split; [done|].
    split; [rewrite byte_to_Z_wrap, Z.mod_small by lia; lia|].
    destruct (Z.ltb_spec (Z.of_nat (length payload)) 126); [|lia].
    cbn [app length]. split; [|lia].
    replace (S (S (length payload)) - length payload) with 2 by lia. done.
  - eexists _, _, _. split; [done|]. split; [done|]. split; [done|].
    split; [done|].
    destruct (Z.ltb_spec (Z.of_nat (length payload)) 126); [lia|].
    destruct (Z.ltb_spec (Z.of_nat (length payload)) 65536); [|lia].
    cbn [app length]. rewrite length_app, be_encode_length. split; [|lia].
    replace (S (S (2 + length payload)) - length payload) with 4 by lia.
    cbn [drop]. rewrite <- (be_encode_length 2 (Z.of_nat (length payload))) at 1.
    by rewrite drop_app_length.
  - eexists _, _, _. split; [done|]. split; [done|]. split; [done|].
    split; [done|].
    destruct (Z.ltb_spec (Z.of_nat (length payload)) 126); [lia|].
    destruct (Z.ltb_spec (Z.of_nat (length payload)) 65536); [lia|].
    cbn [app length]. rewrite length_app, be_encode_length. split; [|lia].
    replace (S (S (8 + length payload)) - length payload) with 10 by lia.
    cbn [drop]. rewrite <- (be_encode_length 8 (Z.of_nat (length payload))) at 1.
    by rewrite drop_app_length.
Qed.

Lemma ws_frame_shape_witness :
  exists b0 b1 tail,
    [x8a; x02; x68; x69] = b0 :: b1 :: tail /\
    byte_to_Z b0 = Z.lor 0x80 OP_PONG /\ (128 <= byte_to_Z b0)%Z /\
    (byte_to_Z b1 < 128)%Z /\
    drop (length [x8a; x02; x68; x69] - length [x68; x69]) [x8a; x02; x68; x69]
      = [x68; x69] /\
    length [x8a; x02; x68; x69] =
      length [x68; x69] +
      (if (Z.of_nat (length [x68; x69]) <? 126)%Z then 2
       else if (Z.of_nat (length [x68; x69]) <? 65536)%Z then 4 else 10).
Proof.
  apply (ws_frame_shape OP_PONG [x68; x69] [x8a; x02; x68; x69]).
  vm_compute. reflexivity.
Defined.

(** X3. A frame that the peer masked is read back as the peer's payload: the
    decoder's XOR with the key undoes the XOR that masked it. *)
Theorem masked_frame_roundtrip
    (b0 b1 : byte) (ext mask payload : bytes) (rest : StreamReader) :
  (128 <= byte_to_Z b1)%Z ->
  length mask = 4 ->
  (let len7 := Z.land (byte_to_Z b1) 0x7F in
   ((len7 < 126)%Z /\ ext = [] /\ Z.of_nat (length payload) = len7) \/
   (len7 = 126%Z /\ length ext = 2 /\ Z.of_nat (length payload) = be_decode ext) \/
   (len7 = 127%Z /\ length ext = 8 /\ Z.of_nat (length payload) = be_decode ext)) ->
  ws_read_frame (b0 :: b1 :: ext ++ mask ++ unmask mask payload ++ rest) =
  Ok ((Z.land (byte_to_Z b0) 0xF, payload), rest).
Proof.
  intros Hb1 Hmask Hcase.
  pose proof (ws_read_frame_wire b0 b1 ext mask (unmask mask payload) rest) as Hw.
  cbv zeta in Hw, Hcase. rewrite (mask_bit_set b1 Hb1) in Hw. cbn [Z.eqb] in Hw.
  rewrite unmask_length, unmask_involutive in Hw. by apply Hw.
Qed.

Lemma masked_frame_roundtrip_witness :
  ws_read_frame
    (x81 :: x82 :: [] ++ [x01; x02; x03; x04] ++
     unmask [x01; x02; x03; x04] [x68; x69] ++ [xff]) =
  Ok ((Z.land (byte_to_Z x81) 0xF, [x68; x69]), [xff]).
Proof.
  apply (masked_frame_roundtrip x81 x82 [] [x01; x02; x03; x04] [x68; x69] [xff]).
  - vm_compute. discriminate.
  - reflexivity.
  - left. vm_compute. split; [reflexivity|]. split; reflexivity.
Defined.

(** X4. When [ws_write_frame] fails. An opcode outside [0, 256) is a
    [ValueError] from [bytearray.append], before anything else; a payload of
    [2^64] bytes or more is a [struct.error]; a transport that is gone is a
    [ConnectionResetError]. In each case nothing reaches the peer. In every
    other case the frame is written. *)
Theorem ws_write_frame_failures (w : StreamWriter) (opcode : Z) (payload : bytes) :
  ((opcode < 0 \/ 256 <= opcode)%Z ->
   ws_write_frame w opcode payload = Raise ValueError) /\
  ((0 <= opcode < 256)%Z -> (2 ^ 64 <= Z.of_nat (length payload))%Z ->
   ws_write_frame w opcode payload = Raise StructError) /\
  ((0 <= opcode < 256)%Z -> (Z.of_nat (length payload) < 2 ^ 64)%Z ->
   exists frame,
     ws_frame opcode payload = Ok frame /\
     ws_write_frame w opcode payload =
       if wr_lost w then Raise ConnectionResetError
       else Ok (mkWriter (wr_buf w ++ [frame]) false)).
Proof.
  assert (Hnone : (opcode < 0 \/ 256 <= opcode)%Z -> byte_of_Z (Z.lor 0x80 opcode) = None).
  { intros Hop. destruct (byte_of_Z (Z.lor 0x80 opcode)) as [b|] eqn:Hb; [|done].
    apply byte_to_of_Z in Hb. pose proof (byte_to_Z_range b) as Hr.
    rewrite Hb in Hr. apply (proj1 (lor_0x80_range opcode)) in Hr. lia. }
  assert (Hsome : (0 <= opcode < 256)%Z -> exists b, byte_of_Z (Z.lor 0x80 opcode) = Some b).
  { intros Hop. apply byte_of_Z_Some. by apply lor_0x80_range. }
  split; [|split].
  - intros Hop. unfold ws_write_frame, ws_frame. by rewrite (Hnone Hop).
  - intros Hop Hlen. destruct (Hsome Hop) as [b Hb].
    unfold ws_write_frame, ws_frame, struct_pack_Q. rewrite Hb.
    destruct (Z.ltb_spec (Z.of_nat (length payload)) 126); [lia|].
    destruct (Z.ltb_spec (Z.of_nat (length payload)) 65536); [lia|].
    destruct (Z.ltb_spec (Z.of_nat (length payload)) (2 ^ 64)); [lia|].
    by rewrite andb_false_r.
  - intros Hop Hlen. destruct (Hsome Hop) as [b Hb].
    assert (Hf : exists frame, ws_frame opcode payload = Ok frame).
    { unfold ws_frame, struct_pack_H, struct_pack_Q. rewrite Hb.
      destruct (Z.ltb_spec (Z.of_nat (length payload)) 126); [by eexists|].
      destruct (Z.ltb_spec (Z.of_nat (length payload)) 65536).
      - destruct (Z.leb_spec 0 (Z.of_nat (length payload))); [|lia]. by eexists.
      - destruct (Z.leb_spec 0 (Z.of_nat (length payload))); [|lia].
        destruct (Z.ltb_spec (Z.of_nat (length payload)) (2 ^ 64)); [|lia].
        by eexists. }
    destruct Hf as [frame Hf]. exists frame. split; [done|].
    unfold ws_write_frame, writer_write, writer_drain. rewrite Hf.
    cbn [mbind result_bind]. by destruct (wr_lost w) eqn:Hl; rewrite ?Hl.
Qed.

Lemma ws_write_frame_failures_witness :
  ws_write_frame (mkWriter [] false) 256 [x68] = Raise ValueError /\
  ws_write_frame (mkWriter [] false) (-1) [x68] = Raise ValueError /\
  (exists frame,
     ws_frame 0x8A [x68] = Ok frame /\
     ws_write_frame (mkWriter [[x00]] true) 0x8A [x68] =
       if wr_lost (mkWriter [[x00]] true) then Raise ConnectionResetError
       else Ok (mkWriter (wr_buf (mkWriter [[x00]] true) ++ [frame]) false)).
Proof.
  split; [|split].
  - apply (proj1 (ws_write_frame_failures (mkWriter [] false) 256 [x68])). lia.
  - apply (proj1 (ws_write_frame_failures (mkWriter [] false) (-1) [x68])). lia.
  - apply (proj2 (proj2 (ws_write_frame_failures (mkWriter [[x00]] true) 0x8A [x68]))).
    + lia.
    + simpl. lia.
Defined.

Lemma rbind_eq {A B} (m m' : result A) (k : A -> result B) :
  m = m' -> m ≫= k = m' ≫= k.
Proof. by intros ->. Qed.

(** X5. Reading a frame depends on the bytes of the frame only: what follows on
    the stream is left for the next read. And the one way a read fails is a
    stream that ends before the frame does. *)
Theorem ws_read_frame_framing (r : StreamReader) :
  (forall opcode payload r' more,
     ws_read_frame r = Ok ((opcode, payload), r') ->
     ws_read_frame (r ++ more) = Ok ((opcode, payload), r' ++ more) /\
     exists consumed, r = consumed ++ r' /\ 2 + length payload <= length consumed) /\
  (forall e, ws_read_frame r = Raise e -> e = IncompleteReadError) /\
  (length r < 2 -> ws_read_frame r = Raise IncompleteReadError).
Proof.
  split; [|split].
  - intros opcode payload r' more H. split.
    + unfold ws_read_frame in H |- *.
      apply rbind_Ok in H as ([header r1] & Hh & H).
      rewrite (readexactly_more _ _ _ _ more Hh). cbn [mbind result_bind].
      cbv zeta in H |- *.
      apply rbind_Ok in H as ([len r2] & Hl & H).
      assert (Hl' :
        (if (Z.land (byte_to_Z (nth 1 header x00)) 127 =? 126)%Z
         then '(data, reader) ← readexactly 2 (r1 ++ more); Ok (be_decode data, reader)
         else if (Z.land (byte_to_Z (nth 1 header x00)) 127 =? 127)%Z
              then '(data, reader) ← readexactly 8 (r1 ++ more);
                   Ok (be_decode data, reader)
              else Ok (Z.land (byte_to_Z (nth 1 header x00)) 127, r1 ++ more))
        = Ok (len, r2 ++ more)).
      { destruct (_ =? 126)%Z.
        - apply rbind_Ok in Hl as ([d r5] & Hd & [= <- <-]).
          by rewrite (readexactly_more _ _ _ _ more Hd).
        - destruct (_ =? 127)%Z.
          + apply rbind_Ok in Hl as ([d r5] & Hd & [= <- <-]).
            by rewrite (readexactly_more _ _ _ _ more Hd).
          + by injection Hl as <- <-. }
      etrans; [apply rbind_eq, Hl'|]. cbn [mbind result_bind].
      apply rbind_Ok in H as ([mask r3] & Hm & H).
      assert (Hm' :
        (if (Z.land (Z.shiftr (byte_to_Z (nth 1 header x00)) 7) 1 =? 0)%Z
         then Ok (None, r2 ++ more)
         else '(m, reader) ← readexactly 4 (r2 ++ more); Ok (Some m, reader))
        = Ok (mask, r3 ++ more)).
      { destruct (_ =? 0)%Z.
        - by injection Hm as <- <-.
        - apply rbind_Ok in Hm as ([d r5] & Hd & [= <- <-]).
          by rewrite (readexactly_more _ _ _ _ more Hd). }
      etrans; [apply rbind_eq, Hm'|]. cbn [mbind result_bind].
      apply rbind_Ok in H as ([p r4] & Hp & H).
      rewrite (readexactly_more _ _ _ _ more Hp). cbn [mbind result_bind].
      by injection H as <- <- <-.
    + unfold ws_read_frame in H.
      apply rbind_Ok in H as ([header r1] & Hh & H).
      apply readexactly_Ok in Hh as [-> Hhl]. cbv zeta in H.
      apply rbind_Ok in H as ([len r2] & Hl & H).
      apply rbind_Ok in H as ([mask r3] & Hm & H).
      apply rbind_Ok in H as ([p r4] & Hp & H).
      injection H as <- <- ->. apply readexactly_Ok in Hp as [-> Hpl].
      assert (Hr2 : exists x, r1 = x ++ r2).
      { destruct (_ =? 126)%Z.
        - apply rbind_Ok in Hl as ([d r5] & Hd & [= <- <-]).
          apply readexactly_Ok in Hd as [-> _]. eauto.
        - destruct (_ =? 127)%Z.
          + apply rbind_Ok in Hl as ([d r5] & Hd & [= <- <-]).
            apply readexactly_Ok in Hd as [-> _]. eauto.
          + injection Hl as <- <-. by exists []. }
      assert (Hr3 : exists y, r2 = y ++ p ++ r').
      { destruct (_ =? 0)%Z.
        - injection Hm as <- <-. by exists [].
        - apply rbind_Ok in Hm as ([d r5] & Hd & [= <- <-]).
          apply readexactly_Ok in Hd as [-> _]. eauto. }
      destruct Hr2 as [x ->]. destruct Hr3 as [y ->].
      exists (header ++ x ++ y ++ p). split; [by rewrite <- !app_assoc|].
      rewrite !length_app. destruct mask; rewrite ?unmask_length; lia.
  - apply ws_read_frame_Raise.
  - intros Hlen. unfold ws_read_frame, readexactly.
    destruct (Z.leb_spec 2 (Z.of_nat (length r))); [lia|]. done.
Qed.

Lemma ws_read_frame_framing_witness :
  ws_read_frame ([x81; x01; x68] ++ [x88; x00]) = Ok ((1%Z, [x68]), [] ++ [x88; x00]) /\
  ws_read_frame [x81] = Raise IncompleteReadError.
Proof.
  split.
  - apply (proj1 (ws_read_frame_framing [x81; x01; x68]) 1%Z [x68] [] [x88; x00]).
    reflexivity.
  - apply (proj2 (proj2 (ws_read_frame_framing [x81]))). simpl. lia.
Defined.

(** ** Connections *)

(** X6. What [recv] does with a frame that is neither a ping nor a close. A
    text frame is returned decoded, and the read loop goes on; a text frame
    that does not decode closes the connection. Any other frame (binary,
    pong, continuation) makes [recv] return [None] with the connection
    still open, and the read loop of the handler ends there all the same. *)
Theorem recv_data_frames
    (decode : bytes -> option string) (c : WebSocketConnection)
    (opcode : Z) (payload : bytes) (r' : StreamReader) :
  ws_read_frame (conn_reader c) = Ok ((opcode, payload), r') ->
  opcode <> OP_CLOSE -> opcode <> OP_PING ->
  let c' := mkConn r' (conn_writer c) (conn_closed c) in
  (opcode = OP_TEXT -> forall s, decode payload = Some s ->
   recv decode c = Ok (c', Some s) /\
   (conn_closed c = false -> read_loop decode c = read_loop decode c')) /\
  (opcode = OP_TEXT -> decode payload = None ->
   recv decode c = Ok (set_closed c', None)) /\
  (opcode <> OP_TEXT ->
   recv decode c = Ok (c', None) /\
   (conn_closed c = false -> read_loop decode c = Ok c' /\ conn_closed c' = false)).
Proof.
  intros Hr Hclose Hping c'.
  assert (Hrecv : recv decode c =
                  if (opcode =? OP_TEXT)%Z
                  then match decode payload with
                       | Some s => Ok (c', Some s)
                       | None => except_closed UnicodeDecodeError c' None
                       end
                  else Ok (c', None)).
  { rewrite recv_unfold, Hr. cbv zeta.
    apply Z.eqb_neq in Hclose, Hping. by rewrite Hclose, Hping. }
  split; [|split].
  - intros -> s Hs. rewrite Hrecv, Z.eqb_refl, Hs. split; [done|].
    intros Hc. by rewrite read_loop_unfold, Hc, Hrecv, Z.eqb_refl, Hs.
  - intros -> Hs. by rewrite Hrecv, Z.eqb_refl, Hs.
  - intros Htext. apply Z.eqb_neq in Htext. rewrite Hrecv, Htext.
    split; [done|]. intros Hc. split; [|done].
    by rewrite read_loop_unfold, Hc, Hrecv, Htext.
Qed.

Lemma recv_data_frames_witness :
  let c := mkConn [x8a; x00; x81; x02; x68; x69] (mkWriter [] false) false in
  let c' := mkConn [x81; x02; x68; x69] (mkWriter [] false) false in
  recv decode_any c = Ok (c', None) /\
  read_loop decode_any c = Ok c' /\ conn_closed c' = false.
Proof.
  intros c c'.
  destruct (proj2 (proj2 (recv_data_frames decode_any c OP_PONG [] [x81; x02; x68; x69]
                            eq_refl ltac:(discriminate) ltac:(discriminate))))
    as [H1 H2]; [discriminate|].
  split; [exact H1|]. apply H2. reflexivity.
Defined.

(** X7. A message that [send] writes on a live connection is what [recv]
    returns at the other end, when the runtime's decoder undoes its
    encoder; and [recv] leaves the rest of the stream for the next call. *)
Theorem send_recv_roundtrip
    (decode : bytes -> option string) (message : string)
    (c peer : WebSocketConnection) (rest : StreamReader) :
  conn_closed c = false -> wr_lost (conn_writer c) = false ->
  (Z.of_nat (length (str_encode message)) < 2 ^ 64)%Z ->
  decode (str_encode message) = Some message ->
  exists frame,
    send message c =
      Ok (mkConn (conn_reader c) (mkWriter (wr_buf (conn_writer c) ++ [frame]) false)
            false) /\
    recv decode (set_reader (frame ++ rest) peer) =
      Ok (set_reader rest peer, Some message).
Proof.
  intros Hc Hl Hlen Hdec.
  destruct (ws_frame_roundtrip OP_TEXT (str_encode message) rest) as (frame & Hf & Hrt);
    [unfold OP_TEXT; lia|done|].
  exists frame. split.
  - unfold send. rewrite Hc, (ws_write_frame_Ok _ _ _ frame Hl Hf).
    unfold set_writer. by rewrite Hc.
  - rewrite recv_unfold. cbn [conn_reader set_reader]. rewrite Hrt. cbv zeta.
    cbn [Z.eqb OP_TEXT OP_CLOSE OP_PING Pos.eqb]. by rewrite Hdec.
Qed.

Lemma send_recv_roundtrip_witness :
  exists frame,
    send "hi" (mkConn [] (mkWriter [] false) false) =
      Ok (mkConn [] (mkWriter ([] ++ [frame]) false) false) /\
    recv decode_any (set_reader (frame ++ [x88; x00]) conn_truncated) =
      Ok (set_reader [x88; x00] conn_truncated, Some "hi").
Proof.
  apply (send_recv_roundtrip decode_any "hi" (mkConn [] (mkWriter [] false) false)
           conn_truncated [x88; x00]).
  - reflexivity.
  - reflexivity.
  - vm_compute. reflexivity.
  - reflexivity.
Defined.

(** What [close] returns. *)
Lemma close_result (c : WebSocketConnection) :
  close c =
  Ok (mkConn (conn_reader c)
        (if conn_closed c || wr_lost (conn_writer c) then conn_writer c
         else mkWriter (wr_buf (conn_writer c) ++ [[x88; x00]]) true)
        true).
Proof.
  unfold close. destruct (conn_closed c) eqn:Hc.
  { destruct c as [r w cl]. cbn in Hc. by subst. }
  cbn [set_closed conn_writer orb].
  destruct (wr_lost (conn_writer c)) eqn:Hl.
  - assert (Hw : ws_write_frame (conn_writer c) OP_CLOSE [] = Raise ConnectionResetError).
    { unfold ws_write_frame, writer_write, writer_drain. cbn [ws_frame]. by rewrite Hl, Hl. }
    by rewrite Hw.
  - by rewrite (ws_write_frame_Ok _ OP_CLOSE [] [x88; x00] Hl eq_refl).
Qed.

(** X8. [close] never raises and leaves the connection closed. It writes the
    close frame, two bytes, when the connection was open and its transport
    alive, and closes the transport after it; in every other case nothing
    reaches the writer. Closing again, or sending afterwards, does
    nothing. *)
Theorem close_outcome (c : WebSocketConnection) :
  exists c',
    close c = Ok c' /\
    conn_closed c' = true /\ conn_reader c' = conn_reader c /\
    conn_writer c' =
      (if conn_closed c || wr_lost (conn_writer c) then conn_writer c
       else mkWriter (wr_buf (conn_writer c) ++ [[x88; x00]]) true) /\
    close c' = Ok c' /\
    forall message, send message c' = Ok c'.
Proof.
  eexists. split; [apply close_result|]. repeat split.
Qed.

(** ** The push sockets of the server *)

Section PushProperties.
Context `{Runtime}.

Lemma filter_known_nil (X : gset string) (l : list ContextEntry) :
  (forall e, e ∈ l -> id e ∈ X) -> filter (fun entry => id entry ∉ X) l = [].
Proof.
  induction l as [|a l IH]; intros HX; [done|].
  rewrite filter_cons, decide_False.
  - apply IH. intros e He. apply HX. by right.
  - intros Hn. apply Hn, HX. by left.
Qed.

(** A tick of a server that remembers exactly the ids of the current queue
    broadcasts nothing and leaves the server as it is. *)
Lemma poll_tick_settled (s : QueueServer) :
  _known_queue_ids s = list_to_set (id <$> get_queue (store s) None) ->
  poll_tick None s = (s, Ok tt).
Proof.
  intros Hk. unfold poll_tick.
  pose proof (poll_body_broadcasts s) as Hb. cbv zeta in Hb. rewrite Hb.
  assert (Hadd : filter (fun entry => id entry ∉ _known_queue_ids s)
                        (get_queue (store s) None) = []).
  { rewrite Hk. apply filter_known_nil. intros e He.
    apply elem_of_list_to_set. by apply list_elem_of_fmap_2. }
  rewrite Hadd, Hk, difference_diag_L, elements_empty. cbn [fmap list_fmap app foldl].
  rewrite <- Hk. by destruct s.
Qed.

(** X9. With the store unchanged between them, the second of two ticks finds
    nothing to report: it sends nothing and changes nothing, whatever the
    server remembered before the first. *)
Theorem poll_tick_twice (s : QueueServer) :
  poll_tick None (poll_tick None s).1 = ((poll_tick None s).1, Ok tt).
Proof.
  apply poll_tick_settled.
  unfold poll_tick. pose proof (poll_body_broadcasts s) as Hb. cbv zeta in Hb.
  rewrite Hb. cbn [fst store _known_queue_ids set_known].
  match goal with
  | |- context [foldl ?f s ?msgs] =>
      destruct (foldl_broadcast msgs s) as (Hst & _)
  end.
  cbv zeta in Hst. by rewrite Hst.
Qed.

(** On a connection whose transport is gone, [send] writes nothing and
    leaves the transport as it is. *)
Lemma foldl_sent_lost (messages : list string) (c : WebSocketConnection) :
  wr_lost (conn_writer c) = true ->
  conn_writer (foldl (fun c m => sent m c) c messages) = conn_writer c /\
  conn_reader (foldl (fun c m => sent m c) c messages) = conn_reader c /\
  (messages <> [] -> conn_closed (foldl (fun c m => sent m c) c messages) = true).
Proof.
  revert c. induction messages as [|m messages IH]; intros c Hl; [done|].
  cbn [foldl].
  assert (Hs : conn_writer (sent m c) = conn_writer c /\
               conn_reader (sent m c) = conn_reader c /\
               conn_closed (sent m c) = true).
  { unfold sent, send. destruct (conn_closed c) eqn:Hc; [done|].
    unfold ws_write_frame.
    destruct (ws_frame OP_TEXT (str_encode m)) as [frame|e] eqn:Hf;
      cbn [mbind result_bind].
    - unfold writer_write, writer_drain. rewrite Hl, Hl. done.
    - assert (is_Exception e = true) as ->; [|done].
      apply (ws_write_frame_Raise (conn_writer c) OP_TEXT (str_encode m)).
      unfold ws_write_frame. by rewrite Hf. }
  destruct Hs as (Hw & Hr & Hc).
  destruct (IH (sent m c)) as (Hw' & Hr' & Hc'); [by rewrite Hw|].
  rewrite Hw', Hr', Hw, Hr. repeat split; try done. intros _.
  destruct messages as [|m' messages]; [done|]. by apply Hc'.
Qed.

(** X10. [_broadcast] never takes a client out of the registry: [send] keeps
    every failure to itself, so no client gets into [dead]. A registered
    client whose transport is gone is marked closed, is written nothing,
    and stays registered. *)
Theorem broadcast_never_prunes (message : string) (s : QueueServer)
    (cid : nat) (c : WebSocketConnection) :
  cid ∈ ws_clients s -> conns s !! cid = Some c ->
  wr_lost (conn_writer c) = true ->
  ws_clients (_broadcast message s) = ws_clients s /\
  conns (_broadcast message s) !! cid =
    Some (mkConn (conn_reader c) (conn_writer c) true).
Proof.
  intros Hin Hc Hl.
  destruct (_broadcast_spec message s) as (_ & Hcl & _ & Hconns).
  split; [done|]. rewrite Hconns, decide_True, Hc by done. cbn [fmap option_fmap option_map].
  f_equal. destruct (foldl_sent_lost [message] c Hl) as (Hw & Hr & Hcd).
  cbn [foldl] in Hw, Hr, Hcd.
  destruct (sent message c) as [r w cl]. cbn in Hw, Hr, Hcd.
  rewrite Hw, Hr, Hcd; done.
Qed.

(** X11. The end of a push-socket handler. It does not raise. The connection
    leaves the registry, is closed, has been written the close frame if it
    was open on a live transport and nothing otherwise, and its transport
    is closed; nothing else of the server changes, and a later broadcast
    does not touch the connection. *)
Theorem ws_finish_outcome (cid : nat) (s : QueueServer) (c : WebSocketConnection) :
  conns s !! cid = Some c ->
  let c' :=
    mkConn (conn_reader c)
      (mkWriter (wr_buf (conn_writer c) ++
                   (if conn_closed c || wr_lost (conn_writer c) then []
                    else [[x88; x00]]))
         true)
      true in
  let s' := mkServer (store s) (<[cid := c']> (conns s)) (ws_clients s ∖ {[cid]})
              (_known_queue_ids s) in
  ws_finish cid s = (s', Ok tt) /\
  forall message, conns (_broadcast message s') !! cid = Some c'.
Proof.
  intros Hc c' s'.
  assert (Hfin : ws_finish cid s = (s', Ok tt)).
  { unfold ws_finish, ws_teardown. cbn [conns set_clients]. rewrite Hc.
    rewrite close_result.
    unfold close_writer_of. cbn [conns set_conn set_clients].
    rewrite lookup_insert_eq. unfold set_conn, set_clients.
    cbn [conns store ws_clients _known_queue_ids].
    rewrite insert_insert_eq. subst s' c'. do 3 f_equal.
    unfold set_writer, writer_close. cbn [conn_reader conn_writer conn_closed].
    destruct (conn_closed c || wr_lost (conn_writer c)); cbn [wr_buf];
      by rewrite ?app_nil_r. }
  split; [done|]. intros message.
  destruct (_broadcast_spec message s') as (_ & _ & _ & Hconns).
  rewrite Hconns. subst s'. cbn [ws_clients conns].
  rewrite decide_False; [by rewrite lookup_insert_eq|].
  intros [_ Hn]%elem_of_difference. apply Hn. by apply elem_of_singleton.
Qed.
End PushProperties.

Lemma ws_finish_outcome_witness :
  ws_finish 0 sample_server =
    (mkServer store_p1
       (<[0 := mkConn [] (mkWriter ([] ++ [[x88; x00]]) true) true]>
          (conns sample_server))
       ({[ 0 ]} ∖ {[ 0 ]}) {[ "gone" ]},
     Ok tt).
Proof.
  apply (proj1 (ws_finish_outcome 0 sample_server
                  (mkConn [] (mkWriter [] false) false) eq_refl)).
Defined.

Lemma broadcast_never_prunes_witness :
  let s := mkServer ∅ {[ 0 := mkConn [] (mkWriter [] true) false ]} {[ 0 ]} ∅ in
  ws_clients (_broadcast "hi" s) = ws_clients s /\
  conns (_broadcast "hi" s) !! 0 =
    Some (mkConn [] (mkWriter [] true) true).
Proof.
  intros s.
  apply (broadcast_never_prunes "hi" s 0
           (mkConn [] (mkWriter [] true) false)).
  - vm_compute. reflexivity.
  - reflexivity.
  - reflexivity.
Defined.

Section Registry.
Context `{Runtime}.

Lemma close_writer_of_clients (cid : nat) (s : QueueServer) :
  ws_clients (close_writer_of cid s) = ws_clients s.
Proof. unfold close_writer_of. by destruct (conns s !! cid). Qed.

Lemma ws_finish_clients (cid : nat) (s : QueueServer) :
  ws_clients (ws_finish cid s).1 = ws_clients s ∖ {[cid]}.
Proof.
  unfold ws_finish, ws_teardown. cbn [conns set_clients].
  destruct (conns s !! cid) as [c|].
  - rewrite close_result. cbn [fst].
    by rewrite close_writer_of_clients.
  - cbn [fst]. by rewrite close_writer_of_clients.
Qed.

Lemma ws_turn_clients (cid0 : nat) (s : QueueServer) (cid : nat) :
  cid <> cid0 -> cid ∈ ws_clients s -> cid ∈ ws_clients (ws_turn cid0 s).1.
Proof.
  intros Hne Hin.
  assert (Hfin : forall s0, ws_clients s0 = ws_clients s ->
                            cid ∈ ws_clients (ws_finish cid0 s0).1).
  { intros s0 E. rewrite ws_finish_clients, E.
    apply elem_of_difference. split; [done|]. by intros ?%elem_of_singleton. }
  unfold ws_turn. destruct (conns s !! cid0) as [c|]; [|done].
  destruct (conn_closed c); [by apply Hfin|].
  destruct (recv_returns bytes_decode c) as (c' & msg & -> & _).
  destruct msg as [m|]; [done|]. by apply Hfin.
Qed.

(** No step of the server takes a connection out of the registry, except
    the end of that connection's own handler. *)
Lemma step_keeps_registered (s : QueueServer) (ev : event) (cid : nat) :
  ev <> EvTurn cid -> cid ∈ ws_clients s -> cid ∈ ws_clients (step s ev).
Proof.
  intros Hev Hin. destruct ev as [reader lost headers fault|cid0|fault|cid0|st].
  - destruct (open_result reader lost headers fault s)
      as [[_ ->]|(_ & c' & _ & _ & -> & _)]; [done|].
    apply elem_of_union. by left.
  - apply ws_turn_clients; [|done]. by intros ->.
  - cbn [step]. unfold poll_tick. destruct fault as [e|].
    { cbn [poll_body]. by destruct (is_Exception e). }
    pose proof (poll_body_broadcasts s) as Hb. cbv zeta in Hb. rewrite Hb. cbn [fst].
    match type of Hb with
    | _ = (set_known _ (foldl _ s ?msgs), _) =>
        destruct (foldl_broadcast msgs s) as (_ & Hcl & _)
    end.
    cbv zeta in Hcl. cbn [ws_clients set_known]. by rewrite Hcl.
  - cbn [step]. by destruct (conns s !! cid0).
  - done.
Qed.

(** X12. When the upgrade of a client fails after the handshake response went
    out (the read of the queue for the snapshot raises), the handler is
    over, yet the connection it registered stays in the registry through
    every later step of the server: no other code takes it out. It has
    been sent the handshake response and is never sent anything more. *)
Theorem upgrade_fault_stays_registered
    (reader : StreamReader) (headers : list (string * string)) (e : exn)
    (s : QueueServer) (evs : list event) :
  let cid := fresh (dom (conns s)) in
  let s' := run (step s (EvOpen reader false headers (Some e))) evs in
  Forall (fun ev => ev <> EvTurn cid) evs ->
  cid ∈ ws_clients s' /\
  exists c,
    conns s' !! cid = Some c /\
    wr_buf (conn_writer c) = [handshake_response headers] /\ quiet c.
Proof.
  intros cid s' Hevs. subst s'.
  set (s1 := step s (EvOpen reader false headers (Some e))).
  assert (Hinv : cid ∈ ws_clients s1 /\
                 exists c, conns s1 !! cid = Some c /\
                           wr_buf (conn_writer c) = [handshake_response headers] /\
                           quiet c).
  { subst s1. cbn [step]. unfold ws_open, writer_write, writer_drain.
    cbn [wr_lost wr_buf app]. unfold close_writer_of. cbn [conns set_clients set_conn].
    fold cid. rewrite lookup_insert_eq. cbn [ws_clients conns set_conn].
    split; [apply elem_of_union; right; by apply elem_of_singleton|].
    eexists. rewrite lookup_insert_eq. split; [done|]. split; [done|]. by right. }
  clearbody s1. revert s1 Hinv.
  induction Hevs as [|ev evs Hev _ IH]; intros s1 Hinv; [done|].
  cbn [run foldl]. apply IH. destruct Hinv as (Hin & c & Hc & Hbuf & Hq).
  split; [by apply step_keeps_registered|].
  pose proof (step_conn_step s1 ev cid) as Hstep. unfold conn_step in Hstep.
  rewrite Hc in Hstep. destruct Hstep as (c' & Hc' & extra & Hextra & _ & Hquiet).
  destruct (Hquiet Hq) as [-> Hq']. exists c'.
  split; [done|]. split; [by rewrite Hextra, app_nil_r|done].
Qed.
End Registry.

Lemma upgrade_fault_stays_registered_witness :
  let s := initial_server store_p1 in
  let s' := @run sample_runtime
              (@step sample_runtime s (EvOpen [] false [] (Some OSError)))
              [EvTick None; EvStore store_p1_p2; EvTick None] in
  fresh (dom (conns s)) ∈ ws_clients s' /\
  exists c,
    conns s' !! fresh (dom (conns s)) = Some c /\
    wr_buf (conn_writer c) = [@handshake_response sample_runtime []] /\ quiet c.
Proof.
  apply (@upgrade_fault_stays_registered sample_runtime [] [] OSError
           (initial_server store_p1)
           [EvTick None; EvStore store_p1_p2; EvTick None]).
  repeat constructor; discriminate.
Defined.

(** ** Requests *)

Lemma take_chunk_rest {A} (k missing : nat) (r : list A) :
  k <= missing ->
  take k r ++ take (missing - length (take k r)) (drop k r) = take missing r /\
  drop (missing - length (take k r)) (drop k r) = drop missing r.
Proof.
  intros Hk. rewrite length_take.
  destruct (Nat.le_gt_cases k (length r)) as [Hle|Hgt].
  - rewrite Nat.min_l by done. rewrite take_take_drop, drop_drop.
    by replace (k + (missing - k)) with missing by lia.
  - rewrite Nat.min_r by lia. rewrite (drop_ge r k) by lia.
    rewrite take_nil, drop_nil, app_nil_r, !take_ge, drop_ge by lia. done.
Qed.

(** The loop of [_read_body] gathers the bytes that are missing from the
    body, or all that the stream still has, whatever the sizes of the
    chunks in which they arrive. *)
Lemma _read_body_loop_closed (fuel : nat) (arrivals : nat -> nat) (i : nat)
    (content_length : Z) (body : bytes) (reader : StreamReader) :
  length reader < fuel ->
  let missing := Z.to_nat (content_length - Z.of_nat (length body)) in
  _read_body_loop fuel arrivals i content_length body reader =
  (body ++ take missing reader, drop missing reader).
Proof.
  revert i body reader. induction fuel as [|fuel IH]; intros i body reader Hfuel; [lia|].
  cbv zeta. cbn [_read_body_loop].
  destruct (Z.ltb_spec (Z.of_nat (length body)) content_length) as [Hlt|Hge].
  2:{ replace (Z.to_nat (content_length - Z.of_nat (length body))) with 0 by lia.
      by rewrite take_0, drop_0, app_nil_r. }
  unfold reader_read.
  destruct (Z.ltb_spec (content_length - Z.of_nat (length body)) 0); [lia|].
  set (missing := Z.to_nat (content_length - Z.of_nat (length body))).
  set (k := Nat.min missing (Nat.max 1 (arrivals i))).
  assert (Hk : 1 <= k <= missing) by lia.
  destruct (take_chunk_rest k missing reader) as [Htake Hdrop]; [lia|].
  destruct (take k reader) as [|b chunk] eqn:Hchunk.
  - assert (reader = []) as ->.
    { destruct reader as [|b reader]; [done|]. destruct k; [lia|]. discriminate. }
    by rewrite take_nil, !drop_nil, app_nil_r.
  - rewrite IH.
    + cbv zeta. rewrite length_app, <- app_assoc.
      replace (Z.to_nat (content_length - Z.of_nat (length body + length (b :: chunk))))
        with (missing - length (b :: chunk)) by lia.
      by rewrite Htake, Hdrop.
    + rewrite length_drop.
      destruct reader as [|b' reader]; [by rewrite take_nil in Hchunk|].
      cbn [length] in Hfuel |- *. lia.
Qed.

(** X13. [_read_body] returns the same body however the transport cuts the
    stream into chunks, and takes off the stream exactly the bytes that it
    adds to the body. *)
Theorem read_body_chunking `{Runtime} (arrivals : nat -> nat) (reader : StreamReader)
    (headers : list (string * string)) (body_start : bytes) :
  _read_body_chunked arrivals reader headers body_start =
    _read_body reader headers body_start /\
  forall body rest,
    _read_body reader headers body_start = Ok (body, rest) ->
    body ++ rest = body_start ++ reader.
Proof.
  unfold _read_body_chunked, _read_body.
  destruct (py_int (headers_get "content-length" headers "0")) as [n|e];
    cbn [mbind result_bind]; [|done].
  destruct (n =? 0)%Z.
  { split; [done|]. by intros body rest [= <- <-]. }
  split.
  - by rewrite _read_body_loop_closed by lia.
  - intros body rest [= <- <-]. by rewrite <- app_assoc, take_drop.
Qed.

Lemma before_char_app (c : ascii) (s t : string) :
  has_char c s = false -> before_char c (s +:+ String c t) = s.
Proof.
  induction s as [|a s IH].
  - intros _. change (EmptyString +:+ String c t) with (String c t).
    cbn [before_char]. by rewrite Ascii.eqb_refl.
  - cbn [has_char]. intros [Ha Hs]%orb_false_iff.
    change (String a s +:+ String c t) with (String a (s +:+ String c t)).
    cbn [before_char]. by rewrite Ha, IH.
Qed.

Lemma rstrip_char_trailing (c : ascii) (s t : string) :
  rstrip_char c t = EmptyString -> rstrip_char c (s +:+ t) = rstrip_char c s.
Proof.
  intros Ht. induction s as [|a s IH]; [done|].
  change (String a s +:+ t) with (String a (s +:+ t)).
  cbn [rstrip_char]. by rewrite IH.
Qed.

Lemma rstrip_char_empty_has_char (c d : ascii) (t : string) :
  rstrip_char c t = EmptyString -> d <> c -> has_char d t = false.
Proof.
  intros Ht Hd. induction t as [|a t IH]; [done|].
  cbn [rstrip_char] in Ht. cbn [has_char].
  destruct (rstrip_char c t); [|discriminate].
  rewrite IH by done. destruct (Ascii.eqb_spec a c) as [->|]; [|discriminate].
  destruct (Ascii.eqb_spec c d); [by subst|done].
Qed.

Section Requests.
Context `{Runtime}.

(** X14. Routing looks at the path up to the first question mark and without
    its trailing slashes: the query string and the slashes before it make
    no difference to what a request does. *)
Theorem http_path_normalisation
    (method path trailing query : string) (reader : StreamReader)
    (writer : StreamWriter) (headers : list (string * string)) (body_start : bytes)
    (st : ContextStore) (now new_id : string) :
  has_char "?" path = false -> rstrip_char "/" trailing = EmptyString ->
  _handle_http method (path +:+ trailing) reader writer headers body_start st now new_id =
    _handle_http method path reader writer headers body_start st now new_id /\
  _handle_http method (path +:+ trailing +:+ "?" +:+ query)
               reader writer headers body_start st now new_id =
    _handle_http method path reader writer headers body_start st now new_id.
Proof.
  intros Hq Ht.
  assert (Hq' : has_char "?" (path +:+ trailing) = false).
  { rewrite has_char_app, Hq. by apply (rstrip_char_empty_has_char "/"). }
  assert (E1 : rstrip_char "/" (before_char "?" (path +:+ trailing)) =
               rstrip_char "/" (before_char "?" path)).
  { rewrite !before_char_absent by done. by apply rstrip_char_trailing. }
  assert (E2 : rstrip_char "/" (before_char "?" (path +:+ trailing +:+ "?" +:+ query)) =
               rstrip_char "/" (before_char "?" path)).
  { change ("?" +:+ query) with (String "?" query).
    rewrite <- string_app_assoc, before_char_app by done.
    rewrite before_char_absent by done. by apply rstrip_char_trailing. }
  unfold _handle_http. by rewrite E1, E2.
Qed.

Lemma _resolve_entry_cases (st : ContextStore) (entry_id : string) (payload : json)
    (now new_id : string) :
  (exists st' result,
     _resolve_entry st entry_id payload now new_id = (st', Ok (Some result))) \/
  _resolve_entry st entry_id payload now new_id = (st, Ok None) \/
  exists e, _resolve_entry st entry_id payload now new_id = (st, Raise e).
Proof.
  unfold _resolve_entry.
  destruct payload; try (right; right; by eexists).
  cbv zeta. destruct (find _ (list_projects st)) as [pid|]; [|by right; left].
  unfold resolve_entry.
  destruct (find _ (all_events st pid)).
  - left. by eexists _, _.
  - right; right. by eexists.
Qed.

(** The ways a request ends: with one call of [_send_response], with a
    status among four, and the store changed only when a resolution is
    answered 200; or with an exception out of the resolve branch, nothing
    written and nothing changed. *)
Lemma _handle_http_cases
    (method path : string) (reader : StreamReader) (writer : StreamWriter)
    (headers : list (string * string)) (body_start : bytes)
    (st : ContextStore) (now new_id : string) :
  let clean_path := rstrip_char "/" (before_char "?" path) in
  let res := _handle_http method path reader writer headers body_start st now new_id in
  (exists status body,
     status ∈ [200; 204; 400; 404]%Z /\
     (res.1.1, res.2) = _send_response writer status body /\
     (res.1.2 = st \/
      (status = 200%Z /\ method = "POST" /\ startswith "/queue/" clean_path = true))) \/
  (exists e, res = ((writer, st), Raise e) /\
             method = "POST" /\ startswith "/queue/" clean_path = true).
Proof.
  cbv zeta. unfold _handle_http.
  set (clean_path := rstrip_char "/" (before_char "?" path)).
  assert (Hsend : forall status body st',
            status ∈ [200; 204; 400; 404]%Z ->
            st' = st \/
            (status = 200%Z /\ method = "POST" /\ startswith "/queue/" clean_path = true) ->
            let res := (let '(writer, outcome) := _send_response writer status body in
                        ((writer, st'), outcome)) in
            (exists status body,
               status ∈ [200; 204; 400; 404]%Z /\
               (res.1.1, res.2) = _send_response writer status body /\
               (res.1.2 = st \/
                (status = 200%Z /\ method = "POST" /\
                 startswith "/queue/" clean_path = true))) \/
            (exists e, res = ((writer, st), Raise e) /\
                       method = "POST" /\ startswith "/queue/" clean_path = true)).
  { intros status body st' Hs Hst. cbv zeta. left. exists status, body.
    destruct (_send_response writer status body) as [w o]. done. }
  assert (H200 : (200 : Z) ∈ [200; 204; 400; 404]%Z) by (by left).
  assert (H204 : (204 : Z) ∈ [200; 204; 400; 404]%Z) by (right; by left).
  assert (H400 : (400 : Z) ∈ [200; 204; 400; 404]%Z) by (right; right; by left).
  assert (H404 : (404 : Z) ∈ [200; 204; 400; 404]%Z) by (right; right; right; by left).
  destruct (String.eqb method "OPTIONS"); [apply Hsend; auto|].
  destruct (String.eqb clean_path "/queue" && String.eqb method "GET");
    [apply Hsend; auto|].
  destruct (startswith "/queue/" clean_path) eqn:Hstart; cbn [andb].
  2:{ destruct (String.eqb clean_path "/projects" && String.eqb method "GET");
        [apply Hsend; auto|].
      destruct (startswith "/projects/" clean_path && endswith "/sessions" clean_path
                && String.eqb method "GET"); apply Hsend; auto. }
  destruct (String.eqb_spec method "POST") as [Hpost|Hpost].
  2:{ destruct (String.eqb clean_path "/projects" && String.eqb method "GET");
        [apply Hsend; auto|].
      destruct (startswith "/projects/" clean_path && endswith "/sessions" clean_path
                && String.eqb method "GET"); apply Hsend; auto. }
  destruct (_read_body reader headers body_start) as [[body_data r']|e];
    [|right; by exists e].
  destruct (match body_data with [] => Ok (JObj []) | _ => json_loads body_data end)
    as [payload|e].
  2:{ destruct e; try (right; by eexists). apply Hsend; auto. }
  destruct (_resolve_entry_cases st (nth 2 (str_split "/" clean_path) EmptyString)
              payload now new_id) as [(st' & result & ->)|[->|[e ->]]].
  - apply Hsend; auto.
  - apply Hsend; auto.
  - right. by exists e.
Qed.

(** X15. A request is answered with one response or, when it ends in an
    exception, with none: the writer is handed one chunk, a response with
    status 200, 204, 400 or 404, exactly when the call returns. *)
Theorem http_one_response
    (method path : string) (reader : StreamReader) (writer : StreamWriter)
    (headers : list (string * string)) (body_start : bytes)
    (st : ContextStore) (now new_id : string) :
  let res := _handle_http method path reader writer headers body_start st now new_id in
  (res.2 = Ok tt /\ wr_lost writer = false /\
   exists status body,
     status ∈ [200; 204; 400; 404]%Z /\
     res.1.1 = mkWriter (wr_buf writer ++ [http_response status body]) false) \/
  (exists e, res.2 = Raise e /\ res.1.1 = writer).
Proof.
  intros res.
  destruct (_handle_http_cases method path reader writer headers body_start st now new_id)
    as [(status & body & Hs & Hres & _)|(e & Hres & _)]; fold res in Hres.
  - destruct (wr_lost writer) eqn:Hl.
    + right. exists ConnectionResetError.
      unfold _send_response, writer_write, writer_drain in Hres. rewrite Hl, Hl in Hres.
      by injection Hres as -> ->.
    + left. rewrite _send_response_alive in Hres by done.
      injection Hres as Hw ->. split; [done|]. split; [done|]. by exists status, body.
  - right. exists e. by rewrite Hres.
Qed.

(** X16. Only a resolution changes the store: when the store is not the same
    after a request, the request was a [POST] under [/queue/], and what it
    was answered, if the transport took it, was a 200. *)
Theorem http_store_change
    (method path : string) (reader : StreamReader) (writer : StreamWriter)
    (headers : list (string * string)) (body_start : bytes)
    (st : ContextStore) (now new_id : string) :
  let res := _handle_http method path reader writer headers body_start st now new_id in
  res.1.2 <> st ->
  method = "POST" /\
  startswith "/queue/" (rstrip_char "/" (before_char "?" path)) = true /\
  exists body, (res.1.1, res.2) = _send_response writer 200 body.
Proof.
  intros res Hst.
  destruct (_handle_http_cases method path reader writer headers body_start st now new_id)
    as [(status & body & Hs & Hres & [Hsame|(-> & Hm & Hp)])|(e & Hres & _)];
    fold res in Hres |- *.
  - done.
  - split; [done|]. split; [done|]. by exists body.
  - fold res in Hst. rewrite Hres in Hst. done.
Qed.

(** X17. A resolve request whose body is JSON but not an object gets no
    response: [payload.get] raises [AttributeError] before anything is
    written or resolved. *)
Theorem resolve_non_object_body
    (path : string) (reader : StreamReader) (writer : StreamWriter)
    (headers : list (string * string)) (body_start : bytes)
    (st : ContextStore) (now new_id : string)
    (body_data : bytes) (reader' : StreamReader) (payload : json) :
  startswith "/queue/" (rstrip_char "/" (before_char "?" path)) = true ->
  _read_body reader headers body_start = Ok (body_data, reader') ->
  body_data <> [] -> json_loads body_data = Ok payload ->
  (forall members, payload <> JObj members) ->
  _handle_http "POST" path reader writer headers body_start st now new_id =
  ((writer, st), Raise AttributeError).
Proof.
  intros Hstart Hbody Hne Hjson Hobj. unfold _handle_http.
  rewrite Hstart, Hbody. cbn [String.eqb Ascii.eqb Bool.eqb andb].
  rewrite andb_false_r.
  destruct body_data as [|b body_data]; [done|]. rewrite Hjson.
  destruct payload; try done. by destruct (Hobj members).
Qed.
End Requests.

Lemma http_path_normalisation_witness :
  @_handle_http sample_runtime "GET" ("/queue" +:+ "//") [] (mkWriter [] false) [] []
                store_p1 "" "" =
    @_handle_http sample_runtime "GET" "/queue" [] (mkWriter [] false) [] []
                  store_p1 "" "" /\
  @_handle_http sample_runtime "GET" ("/queue" +:+ "//" +:+ "?" +:+ "a=1?b=/") []
                (mkWriter [] false) [] [] store_p1 "" "" =
    @_handle_http sample_runtime "GET" "/queue" [] (mkWriter [] false) [] []
                  store_p1 "" "".
Proof.
  apply (@http_path_normalisation sample_runtime "GET" "/queue" "//" "a=1?b=/").
  - reflexivity.
  - reflexivity.
Defined.

Lemma http_store_change_witness :
  let res := @_handle_http sample_runtime "POST" "/queue/e2/resolve" []
               (mkWriter [] false) [] [] store_p1 "2024-05-01T10:00:09+00:00" "r1" in
  "POST" = "POST" /\
  startswith "/queue/" (rstrip_char "/" (before_char "?" "/queue/e2/resolve")) = true /\
  exists body, (res.1.1, res.2) = _send_response (mkWriter [] false) 200 body.
Proof.
  apply (@http_store_change sample_runtime "POST" "/queue/e2/resolve" []
           (mkWriter [] false) [] [] store_p1 "2024-05-01T10:00:09+00:00" "r1").
  intros Heq. apply (f_equal (fun st => get_resolved_ids st "p1")) in Heq.
  vm_compute in Heq. discriminate.
Defined.

Lemma resolve_non_object_body_witness :
  @_handle_http array_runtime "POST" "/queue/e2/resolve" [] (mkWriter [] false)
                [] [x5b; x5d] store_p1 "" "" =
  ((mkWriter [] false, store_p1), Raise AttributeError).
Proof.
  apply (@resolve_non_object_body array_runtime "/queue/e2/resolve" []
           (mkWriter [] false) [] [x5b; x5d] store_p1 "" "" [x5b; x5d] [] (JArr [])).
  - reflexivity.
  - reflexivity.
  - discriminate.
  - reflexivity.
  - discriminate.
Defined.

(** ** The event log *)

(** X18. Reading a line back and writing it again gives the same line, and
    reading is idempotent: [parse] changes the kind of an entry only, to
    the member of [EventKind] with the same value when there is one. *)
Theorem parse_roundtrip (e : ContextEntry) :
  to_dict (parse e) = to_dict e /\
  parse (parse e) = parse e /\
  (forall s, kind (parse e) = Raw s ->
             s = kind_value e /\ forall k, EventKind_value k <> s).
Proof.
  split; [|split].
  - unfold to_dict. by rewrite parse_kind_value.
  - unfold parse at 1. rewrite parse_kind_value. done.
  - intros s Hs.
    change (kind (parse e)) with (post_init_kind (Raw (kind_value e))) in Hs.
    pose proof (post_init_kind_value (kind_value e)) as Hk.
    rewrite Hs in Hk. by destruct Hk as [-> Hk].
Qed.

(** X19. An appended entry is the last event of its project: reading one event
    more than before gives what was read before, then the entry as the clock
    stamped it. The logs of the other projects, the project records and
    the sessions are as before, and the project of the entry is listed. *)
Theorem append_then_read (now : string) (e : ContextEntry) (st : ContextStore)
    (limit : Z) :
  (0 < limit)%Z ->
  let st' := append_entry now e st in
  get_events st' (project_id e) None (limit + 1) =
    get_events st (project_id e) None limit ++ [parse (stamped now e)] /\
  (forall pid since_ts n, pid <> project_id e ->
     get_events st' pid since_ts n = get_events st pid since_ts n) /\
  (forall pid, get_project st' pid = get_project st pid /\
               list_sessions st' pid = list_sessions st pid) /\
  project_id e ∈ list_projects st'.
Proof.
  intros Hl st'. subst st'. split; [|split; [|split]].
  - rewrite !get_events_considered. unfold considered. cbn [truthy].
    rewrite all_events_append, !slice_from_last by lia.
    rewrite length_app. cbn [length].
    replace (length (all_events st (project_id e)) + 1 - Z.to_nat (limit + 1))
      with (length (all_events st (project_id e)) - Z.to_nat limit) by lia.
    apply drop_app_le. lia.
  - intros pid since_ts n Hne. unfold get_events, append_entry. cbv zeta.
    change (project_id (stamped now e)) with (project_id e).
    by rewrite lookup_insert_ne.
  - intros pid. unfold get_project, list_sessions, append_entry. cbv zeta.
    change (project_id (stamped now e)) with (project_id e).
    destruct (decide (project_id e = pid)) as [<-|Hne].
    + rewrite lookup_insert_eq. by destruct (st !! project_id e).
    + by rewrite lookup_insert_ne.
  - apply elem_of_list_projects. unfold append_entry. cbv zeta.
    change (project_id (stamped now e)) with (project_id e).
    by rewrite lookup_insert_eq.
Qed.

Lemma append_then_read_witness :
  get_events (append_entry "2024-05-01T10:00:02+00:00" (sample_entry "p1" "e3" NOTE false)
                store_p1)
             (project_id (sample_entry "p1" "e3" NOTE false)) None (1 + 1) =
  get_events store_p1 (project_id (sample_entry "p1" "e3" NOTE false)) None 1 ++
  [parse (stamped "2024-05-01T10:00:02+00:00" (sample_entry "p1" "e3" NOTE false))].
Proof.
  apply (proj1 (append_then_read "2024-05-01T10:00:02+00:00"
                  (sample_entry "p1" "e3" NOTE false) store_p1 1 ltac:(lia))).
Defined.

(** X20. What [get_events] selects, whatever its arguments: a sub-sequence of
    the log in log order, which is a tail of the entries considered; with a
    non-empty [since_ts] every selected entry is stamped strictly after it.
    A positive [limit] bounds the number of entries. A negative [limit]
    does not: the slice [parsed[-limit:]] then counts from the front, and
    the result is all the entries considered but the [-limit] oldest. *)
Theorem get_events_selection (st : ContextStore) (pid : string)
    (since_ts : option string) (limit : Z) :
  get_events st pid since_ts limit `sublist_of` all_events st pid /\
  (exists older, considered st pid since_ts = older ++ get_events st pid since_ts limit) /\
  (forall since, since_ts = Some since -> since <> "" ->
     Forall (fun event => str_gt (ts event) since = true)
            (get_events st pid since_ts limit)) /\
  ((0 < limit)%Z ->
   length (get_events st pid since_ts limit) =
     Nat.min (Z.to_nat limit) (length (considered st pid since_ts))) /\
  ((limit < 0)%Z ->
   get_events st pid since_ts limit =
     drop (Z.to_nat (- limit)) (considered st pid since_ts)).
Proof.
  split; [|split; [|split; [|split]]].
  4:{ intros Hl. by destruct (get_events_recent st pid since_ts limit Hl) as (_ & _ & ?). }
  4:{ intros Hl. rewrite get_events_considered. unfold slice_from.
      destruct (Z.ltb_spec (- limit) 0); [lia|done]. }
  all: rewrite get_events_considered.
  all: assert (Hdrop : exists n, slice_from (- limit) (considered st pid since_ts) =
                                 drop n (considered st pid since_ts))
         by (unfold slice_from; destruct (- limit <? 0)%Z; eauto).
  all: destruct Hdrop as [n ->].
  - trans (considered st pid since_ts); [apply sublist_drop|].
    unfold considered. destruct (truthy since_ts); [apply sublist_filter|done].
  - exists (take n (considered st pid since_ts)). by rewrite take_drop.
  - intros since -> Hne. apply Forall_forall. intros event Hin.
    apply (subseteq_drop n) in Hin. unfold considered in Hin. cbn [truthy default] in Hin.
    apply String.eqb_neq in Hne. rewrite Hne in Hin. cbn [negb from_option] in Hin.
    apply list_elem_of_filter in Hin as [Hgt _]. by apply Is_true_true.
Qed.

(** With [limit = -1] the oldest event of [store_p1] is left out. *)
Example get_events_negative_limit :
  id <$> get_events store_p1 "p1" None (-1) = ["e2"] /\
  id <$> get_events store_p1 "p1" None (-2) = [].
Proof. vm_compute. split; reflexivity. Qed.

(** ** Sessions *)

Lemma key_unique {A} (l : list (string * A)) (k : string) (x y : A) :
  NoDup l.*1 -> (k, x) ∈ l -> (k, y) ∈ l -> x = y.
Proof.
  intros Hnd Hx Hy.
  apply (elem_of_list_to_map (M := gmap string) l k x Hnd) in Hx.
  apply (elem_of_list_to_map (M := gmap string) l k y Hnd) in Hy.
  congruence.
Qed.

(** Looking a key up in a dict whose keys are distinct. *)
Lemma find_key {A} (k : string) (l : list (string * A)) (kv : string * A) :
  NoDup l.*1 ->
  find (fun kv => String.eqb (fst kv) k) l = Some kv <-> kv ∈ l /\ fst kv = k.
Proof.
  intros Hnd. split.
  - intros [Hin Hk]%find_some. split; [by apply list_elem_of_In|].
    by apply String.eqb_eq.
  - intros [Hin Hk]. destruct (find _ l) as [kv'|] eqn:Hf.
    + apply find_some in Hf as [Hin' Hk']. apply list_elem_of_In in Hin'.
      apply String.eqb_eq in Hk'. destruct kv as [k1 x], kv' as [k2 y].
      cbn in Hk, Hk'. subst k1 k2. f_equal. f_equal. by eapply key_unique.
    + apply list_elem_of_In in Hin. pose proof (find_none _ _ Hf kv Hin) as Hn.
      cbn in Hn. apply String.eqb_neq in Hn. done.
Qed.

Lemma find_key_ext {A} (k : string) (l l' : list (string * A)) :
  NoDup l.*1 -> NoDup l'.*1 ->
  (forall kv, fst kv = k -> kv ∈ l <-> kv ∈ l') ->
  find (fun kv => String.eqb (fst kv) k) l = find (fun kv => String.eqb (fst kv) k) l'.
Proof.
  intros Hnd Hnd' Hext.
  destruct (find _ l) as [kv|] eqn:Hf.
  - apply (find_key k l kv Hnd) in Hf as [Hin Hk]. symmetry.
    apply (find_key k l' kv Hnd'). split; [by apply Hext|done].
  - destruct (find _ l') as [kv'|] eqn:Hf'; [|done].
    apply (find_key k l' kv' Hnd') in Hf' as [Hin Hk].
    assert (Hsome : find (fun kv => String.eqb (fst kv) k) l = Some kv').
    { apply (find_key k l kv' Hnd). split; [by apply Hext|done]. }
    congruence.
Qed.

Lemma existsb_key {A} (k : string) (d : list (string * A)) :
  existsb (fun kv => String.eqb (fst kv) k) d = true <-> k ∈ d.*1.
Proof.
  rewrite existsb_exists, list_elem_of_fmap. split.
  - intros (kv & Hin & Hk). exists kv. apply String.eqb_eq in Hk.
    split; [done|]. by apply list_elem_of_In.
  - intros (kv & -> & Hin). exists kv. split; [by apply list_elem_of_In|].
    apply String.eqb_refl.
Qed.

(** The keys of a dict after an assignment. *)
Lemma dict_set_keys {A} (k : string) (v : A) (d : list (string * A)) :
  (dict_set k v d).*1 =
  if existsb (fun kv => String.eqb (fst kv) k) d then d.*1 else d.*1 ++ [k].
Proof.
  unfold dict_set. destruct (existsb _ d).
  - rewrite <- list_fmap_compose. apply list_fmap_ext. intros i [k' x] _. cbn.
    destruct (String.eqb_spec k' k); by subst.
  - by rewrite fmap_app.
Qed.

(** The items of a dict after an assignment: the new item is one of them,
    it is the only one under its key, and the items under other keys are
    those from before. *)
Lemma dict_set_items {A} (k : string) (v : A) (d : list (string * A)) :
  (k, v) ∈ dict_set k v d /\
  (forall kv, kv ∈ dict_set k v d -> fst kv = k -> kv = (k, v)) /\
  (forall kv, fst kv <> k -> kv ∈ dict_set k v d <-> kv ∈ d).
Proof.
  unfold dict_set. destruct (existsb _ d) eqn:Hex.
  - split; [|split].
    + apply existsb_exists in Hex as (kv & Hin & Hk).
      apply list_elem_of_fmap. exists kv. rewrite Hk.
      split; [done|]. by apply list_elem_of_In.
    + intros kv (kv' & -> & Hin)%list_elem_of_fmap Hk.
      destruct (String.eqb_spec (fst kv') k) as [E|E]; [done|]. done.
    + intros kv Hk. rewrite list_elem_of_fmap. split.
      * intros (kv' & -> & Hin). destruct (String.eqb_spec (fst kv') k); [done|done].
      * intros Hin. exists kv. split; [|done].
        destruct (String.eqb_spec (fst kv) k); [done|done].
  - assert (Hno : forall kv, kv ∈ d -> fst kv <> k).
    { intros kv Hin Hk. assert (Ht : existsb (fun kv => String.eqb (fst kv) k) d = true).
      { apply existsb_key. apply list_elem_of_fmap. by exists kv. }
      congruence. }
    split; [|split].
    + apply elem_of_app. right. by apply list_elem_of_singleton.
    + intros kv [Hin|Hin%list_elem_of_singleton]%elem_of_app Hk; [|done].
      by destruct (Hno kv Hin).
    + intros kv Hk. rewrite elem_of_app, list_elem_of_singleton. split; [|by left].
      intros [Hin | ->]; [done|]. by destruct Hk.
Qed.

Lemma dict_set_NoDup {A} (k : string) (v : A) (d : list (string * A)) :
  NoDup d.*1 -> NoDup (dict_set k v d).*1.
Proof.
  intros Hnd. rewrite dict_set_keys.
  destruct (existsb _ d) eqn:Hex; [done|].
  apply NoDup_app. split; [done|]. split; [|apply NoDup_singleton].
  intros x Hx ->%list_elem_of_singleton. apply existsb_key in Hx. congruence.
Qed.

Lemma sort_keys_Permutation {A} (d : list (string * A)) : sort_keys d ≡ₚ d.
Proof. apply merge_sort_Permutation. Qed.

Lemma _load_sessions_upsert (now : string) (s : SessionContext) (st : ContextStore) :
  _load_sessions (upsert_session now s st) (sc_project_id s) =
  sort_keys (dict_set (sc_session_name s) (stamp_session now s)
               (_load_sessions st (sc_project_id s))).
Proof.
  unfold upsert_session. cbv zeta. unfold _load_sessions at 1.
  by rewrite lookup_insert_eq.
Qed.

(** X21. A session that was upserted is the one that [get_session] returns
    under its name, with the time of the upsert. The sessions of other
    projects, the event logs and the project records are as before. *)
Theorem upsert_then_get_session (now : string) (s : SessionContext) (st : ContextStore) :
  let st' := upsert_session now s st in
  get_session st' (sc_project_id s) (sc_session_name s) = Some (stamp_session now s) /\
  (forall pid name, pid <> sc_project_id s ->
     get_session st' pid name = get_session st pid name /\
     list_sessions st' pid = list_sessions st pid) /\
  (forall pid since_ts limit,
     get_events st' pid since_ts limit = get_events st pid since_ts limit) /\
  (forall pid, get_project st' pid = get_project st pid).
Proof.
  intros st'. subst st'. split; [|split; [|split]].
  - unfold get_session. rewrite _load_sessions_upsert.
    set (d := dict_set _ _ _).
    destruct (dict_set_items (sc_session_name s) (stamp_session now s)
                (_load_sessions st (sc_project_id s))) as (Hin & Huniq & _).
    fold d in Hin, Huniq.
    destruct (find _ (sort_keys d)) as [kv|] eqn:Hf.
    + apply find_some in Hf as [Hkv Hk]. apply list_elem_of_In in Hkv.
      rewrite sort_keys_Permutation in Hkv. apply String.eqb_eq in Hk.
      by rewrite (Huniq kv Hkv Hk).
    + rewrite <- sort_keys_Permutation in Hin. apply list_elem_of_In in Hin.
      pose proof (find_none _ _ Hf _ Hin) as Hn. cbn in Hn.
      by rewrite String.eqb_refl in Hn.
  - intros pid name Hne.
    unfold get_session, list_sessions, _load_sessions, upsert_session. cbv zeta.
    by rewrite lookup_insert_ne.
  - intros pid since_ts limit. unfold get_events, upsert_session. cbv zeta.
    destruct (decide (sc_project_id s = pid)) as [<-|Hne].
    + rewrite lookup_insert_eq. by destruct (st !! sc_project_id s).
    + by rewrite lookup_insert_ne.
  - intros pid. unfold get_project, upsert_session. cbv zeta.
    destruct (decide (sc_project_id s = pid)) as [<-|Hne].
    + rewrite lookup_insert_eq. by destruct (st !! sc_project_id s).
    + by rewrite lookup_insert_ne.
Qed.

(** X22. An upsert leaves the sessions under other names as they are. *)
Theorem upsert_keeps_other_sessions (now : string) (s : SessionContext)
    (st : ContextStore) (name : string) :
  NoDup (_load_sessions st (sc_project_id s)).*1 ->
  name <> sc_session_name s ->
  get_session (upsert_session now s st) (sc_project_id s) name =
  get_session st (sc_project_id s) name.
Proof.
  intros Hnd Hne. unfold get_session. rewrite _load_sessions_upsert. f_equal.
  apply find_key_ext; [|done|].
  - rewrite sort_keys_Permutation. by apply dict_set_NoDup.
  - intros kv Hk. rewrite sort_keys_Permutation.
    apply dict_set_items. by rewrite Hk.
Qed.

Lemma upsert_keeps_other_sessions_witness :
  get_session
    (upsert_session "2024-05-01T10:00:05+00:00" (sample_session "p1-dev-001")
       (upsert_session "2024-05-01T10:00:00+00:00" (sample_session "p1-dev-002") ∅))
    (sc_project_id (sample_session "p1-dev-001")) "p1-dev-002" =
  get_session (upsert_session "2024-05-01T10:00:00+00:00" (sample_session "p1-dev-002") ∅)
    (sc_project_id (sample_session "p1-dev-001")) "p1-dev-002".
Proof.
  apply (upsert_keeps_other_sessions "2024-05-01T10:00:05+00:00"
           (sample_session "p1-dev-001")
           (upsert_session "2024-05-01T10:00:00+00:00" (sample_session "p1-dev-002") ∅)
           "p1-dev-002").
  - vm_compute. apply NoDup_singleton.
  - discriminate.
Defined.

(** X23. After an upsert the sessions of the project are stored in the order of
    their names: they are the sessions from before with the upserted one
    put in, under distinct names when the names were distinct before, and
    one more than before exactly when the name is new. *)
Theorem sessions_sorted_after_upsert (now : string) (s : SessionContext)
    (st : ContextStore) :
  let before := _load_sessions st (sc_project_id s) in
  let after := _load_sessions (upsert_session now s st) (sc_project_id s) in
  Sorted key_le after /\
  after ≡ₚ dict_set (sc_session_name s) (stamp_session now s) before /\
  length (list_sessions (upsert_session now s st) (sc_project_id s)) =
    (if decide (sc_session_name s ∈ before.*1) then length before
     else S (length before)) /\
  (NoDup before.*1 -> NoDup after.*1).
Proof.
  cbv zeta. rewrite _load_sessions_upsert. split; [|split; [|split]].
  - apply Sorted_merge_sort. intros a b. apply String.leb_total.
  - apply sort_keys_Permutation.
  - unfold list_sessions. fold (_load_sessions (upsert_session now s st) (sc_project_id s)).
    rewrite _load_sessions_upsert, length_fmap, sort_keys_Permutation.
    rewrite <- (length_fmap fst), dict_set_keys.
    destruct (existsb _ _) eqn:Hex.
    + apply existsb_key in Hex. rewrite decide_True by done. by rewrite length_fmap.
    + rewrite decide_False; [by rewrite length_app, length_fmap, Nat.add_1_r|].
      intros Hin%existsb_key. congruence.
  - intros Hnd. rewrite sort_keys_Permutation. by apply dict_set_NoDup.
Qed.

(** ** The engine *)

Lemma pretty_N_char_inj (a b : nat) :
  a < 10 -> b < 10 ->
  pretty_N_char (N.of_nat a) = pretty_N_char (N.of_nat b) -> a = b.
Proof.
  intros Ha Hb.
  do 10 (destruct a as [|a];
         [do 10 (destruct b as [|b];
                 [vm_compute; first [intros _; reflexivity | intros E; discriminate E]|]);
          lia|]).
  lia.
Qed.

Lemma pretty_N_go_length (x : N) (s : string) :
  String.length s <= String.length (pretty_N_go x s).
Proof.
  revert s. induction (N.lt_wf_0 x) as [x _ IH]. intros s.
  destruct (decide (x = 0%N)) as [->|Hx]; [by rewrite pretty_N_go_0|].
  rewrite pretty_N_go_step by lia.
  etrans; [|apply IH; apply N.div_lt; lia]. cbn [String.length]. lia.
Qed.

(** A number of four digits or more is printed with four characters or
    more. *)
Lemma pretty_nat_long (n : nat) : 1000 <= n -> 4 <= String.length (pretty n).
Proof.
  intros Hn. unfold pretty, pretty_nat, pretty, pretty_N.
  destruct (decide (N.of_nat n = 0%N)) as [E|_]; [lia|].
  assert (H1 : (0 < N.of_nat n)%N) by lia.
  assert (H2 : (0 < N.of_nat n / 10)%N)
    by (apply N.div_str_pos; lia).
  assert (H3 : (0 < (N.of_nat n / 10) / 10)%N).
  { apply N.div_str_pos. split; [lia|]. apply N.div_le_lower_bound; lia. }
  assert (H4 : (0 < ((N.of_nat n / 10) / 10) / 10)%N).
  { apply N.div_str_pos. split; [lia|].
    apply N.div_le_lower_bound; [lia|]. apply N.div_le_lower_bound; lia. }
  rewrite (pretty_N_go_step _ _ H1), (pretty_N_go_step _ _ H2),
    (pretty_N_go_step _ _ H3), (pretty_N_go_step _ _ H4).
  etrans; [|apply pretty_N_go_length]. cbn [String.length]. lia.
Qed.

(** Different counts are formatted differently. *)
Lemma format_03d_inj (n m : nat) : format_03d n = format_03d m -> n = m.
Proof.
  unfold format_03d.
  destruct (Nat.ltb_spec n 1000) as [Hn|Hn], (Nat.ltb_spec m 1000) as [Hm|Hm].
  - intros E. injection E as E1 E2 E3.
    change (pretty_N_char (N.of_nat (n / 100)) = pretty_N_char (N.of_nat (m / 100))) in E1.
    change (pretty_N_char (N.of_nat (n / 10 mod 10)) =
            pretty_N_char (N.of_nat (m / 10 mod 10))) in E2.
    change (pretty_N_char (N.of_nat (n mod 10)) = pretty_N_char (N.of_nat (m mod 10))) in E3.
    assert (B1 : n / 100 < 10) by (apply Nat.Div0.div_lt_upper_bound; lia).
    assert (B2 : m / 100 < 10) by (apply Nat.Div0.div_lt_upper_bound; lia).
    assert (B3 : n / 10 mod 10 < 10) by (apply Nat.mod_upper_bound; lia).
    assert (B4 : m / 10 mod 10 < 10) by (apply Nat.mod_upper_bound; lia).
    assert (B5 : n mod 10 < 10) by (apply Nat.mod_upper_bound; lia).
    assert (B6 : m mod 10 < 10) by (apply Nat.mod_upper_bound; lia).
    apply pretty_N_char_inj in E1; [|lia|lia].
    apply pretty_N_char_inj in E2; [|lia|lia].
    apply pretty_N_char_inj in E3; [|lia|lia].
    pose proof (Nat.div_mod_eq n 10). pose proof (Nat.div_mod_eq m 10).
    pose proof (Nat.div_mod_eq (n / 10) 10). pose proof (Nat.div_mod_eq (m / 10) 10).
    assert (E4 : n / 10 / 10 = m / 10 / 10)
      by (by rewrite !Nat.Div0.div_div).
    lia.
  - intros E. apply (f_equal String.length) in E.
    pose proof (pretty_nat_long m Hm). cbn [String.length] in E. lia.
  - intros E. apply (f_equal String.length) in E.
    pose proof (pretty_nat_long n Hn). cbn [String.length] in E. lia.
  - apply pretty_nat_inj.
Qed.

Lemma session_candidate_inj (pid role : string) (n m : nat) :
  session_candidate pid role n = session_candidate pid role m -> n = m.
Proof.
  unfold session_candidate. intros E.
  do 4 apply String.app_inj in E. by apply format_03d_inj.
Qed.

(** Of the first candidates, one more than there are names, one is not a
    name. *)
Lemma session_candidate_free (existing : list string) (pid role : string) :
  exists count, 1 <= count <= S (length existing) /\
                session_candidate pid role count ∉ existing.
Proof.
  destruct (decide (Forall (fun count => session_candidate pid role count ∈ existing)
                           (seq 1 (S (length existing))))) as [Hall|Hex].
  - exfalso.
    assert (Hsub : session_candidate pid role <$> seq 1 (S (length existing)) ⊆+ existing).
    { apply NoDup_submseteq.
      - apply NoDup_fmap_2_strong; [|apply NoDup_seq].
        intros x y _ _. apply session_candidate_inj.
      - intros x (count & -> & Hin)%list_elem_of_fmap.
        rewrite Forall_forall in Hall. by apply Hall. }
    apply submseteq_length in Hsub. rewrite length_fmap, length_seq in Hsub. lia.
  - apply not_Forall_Exists in Hex; [|apply _].
    apply Exists_exists in Hex as (count & Hin & Hfree).
    apply elem_of_seq in Hin. exists count. split; [lia|done].
Qed.

Lemma _next_session_name_loop_first (fuel : nat) (existing : list string)
    (pid role : string) (count free : nat) :
  count <= free < count + fuel ->
  session_candidate pid role free ∉ existing ->
  exists c, count <= c <= free /\
    _next_session_name_loop fuel existing pid role count = session_candidate pid role c /\
    (session_candidate pid role c ∉ existing) /\
    forall c', count <= c' < c -> session_candidate pid role c' ∈ existing.
Proof.
  revert count. induction fuel as [|fuel IH]; intros count Hrange Hfree; [lia|].
  cbn [_next_session_name_loop]. case_bool_decide as Hin.
  - assert (Hne : free <> count) by (by intros ->).
    destruct (IH (S count)) as (c & Hc & -> & Hc' & Hbefore); [lia|done|].
    exists c. split; [lia|]. split; [done|]. split; [done|].
    intros c' Hc''. destruct (decide (c' = count)) as [->|]; [done|].
    apply Hbefore. lia.
  - exists count. split; [lia|]. split; [done|]. split; [done|]. intros c'. lia.
Qed.

(** X24. [_next_session_name] returns: the loop ends within one turn more than
    there are sessions, however long it is allowed to run. The name it
    returns is the first candidate, counting from one, that is not the name
    of a session of the project. *)
Theorem next_session_name_fresh (st : ContextStore) (pid role : string) :
  let existing := sc_session_name <$> list_sessions st pid in
  exists count,
    1 <= count <= S (length existing) /\
    _next_session_name st pid role = session_candidate pid role count /\
    (session_candidate pid role count ∉ existing) /\
    (forall c, 1 <= c < count -> session_candidate pid role c ∈ existing) /\
    forall fuel, length existing < fuel ->
      _next_session_name_loop fuel existing pid role 1 = session_candidate pid role count.
Proof.
  intros existing.
  destruct (session_candidate_free existing pid role) as (free & Hrange & Hfree).
  destruct (_next_session_name_loop_first (S (length existing)) existing pid role 1 free)
    as (c & Hc & Hres & Hcfree & Hbefore); [lia|done|].
  exists c. split; [lia|]. split; [done|]. split; [done|]. split; [done|].
  intros fuel Hfuel.
  destruct (_next_session_name_loop_first fuel existing pid role 1 free)
    as (c2 & Hc2 & -> & Hc2free & Hbefore2); [lia|done|].
  f_equal. destruct (Nat.lt_trichotomy c c2) as [Hlt|[->|Hgt]]; [|done|].
  - destruct Hcfree. apply Hbefore2. lia.
  - destruct Hc2free. apply Hbefore. lia.
Qed.

Lemma filter_exclusive_length {A} (P Q : A -> Prop)
    `{forall x, Decision (P x)} `{forall x, Decision (Q x)} (l : list A) :
  (forall x, P x -> Q x -> False) ->
  length (filter P l) + length (filter Q l) <= length l.
Proof.
  intros Hex. induction l as [|x l IH]; [done|].
  rewrite !filter_cons. destruct (decide (P x)) as [HP|], (decide (Q x)) as [HQ|];
    cbn [length]; try lia.
  by destruct (Hex x).
Qed.

(** X25. The snapshot that [_build_snapshot] makes of a project is taken from
    its last five events, so none of its lists is ever cut short: the
    slices [[:5]] and [[:10]] leave them whole. Blockers and next steps
    together are five at most. *)
Theorem build_snapshot_untruncated (now : string) (st : ContextStore) (pid : string)
    (project : ProjectContext) :
  get_project st pid = Some project ->
  let events := get_events st pid None 5 in
  exists snapshot,
    _build_snapshot now st pid = Some snapshot /\
    length events <= 5 /\
    ps_open_blockers snapshot =
      text <$> filter (fun entry => kind_value entry = EventKind_value ERROR) events /\
    ps_next_steps snapshot =
      text <$> filter (fun entry => kind_value entry = EventKind_value STATUS) events /\
    ps_recent_highlights snapshot =
      text <$> filter (fun entry => human_attention_needed entry = true \/
                                    kind_value entry = EventKind_value APPROVAL) events /\
    length (ps_open_blockers snapshot) + length (ps_next_steps snapshot) <= 5.
Proof.
  intros Hp events. unfold _build_snapshot. rewrite Hp. cbn [mbind option_bind].
  fold events.
  assert (Hlen : length events <= 5).
  { destruct (get_events_recent st pid None 5) as (_ & _ & Hl); [lia|].
    subst events. lia. }
  assert (Hfilter : forall (P : ContextEntry -> Prop) `{forall x, Decision (P x)} n,
             5 <= n -> take n (text <$> filter P events) = text <$> filter P events).
  { intros P ? n Hn. apply take_ge. rewrite length_fmap.
    pose proof (length_filter P events). lia. }
  eexists. split; [done|]. cbn [ps_open_blockers ps_next_steps ps_recent_highlights].
  rewrite !Hfilter by lia. repeat split; try done.
  rewrite !length_fmap.
  etrans; [apply filter_exclusive_length|done].
  intros x E1 E2. rewrite E1 in E2. discriminate.
Qed.

Lemma build_snapshot_untruncated_witness :
  let st : ContextStore :=
    {[ "p1" := mkDir (Some (mkProject "p1" "demo" "ship it" "active" None None None ""))
                 None
                 (Some (repeat (stamped "2024-05-01T10:00:00+00:00"
                                  (sample_entry "p1" "e" ERROR false)) 7))
                 None ]} in
  let events := get_events st "p1" None 5 in
  exists snapshot,
    _build_snapshot "2024-05-01T10:00:09+00:00" st "p1" = Some snapshot /\
    length events <= 5 /\
    ps_open_blockers snapshot =
      text <$> filter (fun entry => kind_value entry = EventKind_value ERROR) events /\
    ps_next_steps snapshot =
      text <$> filter (fun entry => kind_value entry = EventKind_value STATUS) events /\
    ps_recent_highlights snapshot =
      text <$> filter (fun entry => human_attention_needed entry = true \/
                                    kind_value entry = EventKind_value APPROVAL) events /\
    length (ps_open_blockers snapshot) + length (ps_next_steps snapshot) <= 5.
Proof.
  intros st.
  apply (build_snapshot_untruncated "2024-05-01T10:00:09+00:00" st "p1"
           (mkProject "p1" "demo" "ship it" "active" None None None "")).
  reflexivity.
Defined.

Example format_03d_samples :
  format_03d 7 = "007" /\ format_03d 42 = "042" /\ format_03d 999 = "999" /\
  format_03d 1000 = "1000".
Proof. vm_compute. repeat split; reflexivity. Qed.

Example next_session_name_sample :
  _next_session_name
    (upsert_session "2024-05-01T10:00:00+00:00" (sample_session "p1-dev-001") ∅)
    "p1" "dev" = "p1-dev-002".
Proof. vm_compute. reflexivity. Qed.

(** ** From a resolution to its announcement *)

Section ResolveThenTick.
Context `{Runtime}.

(** An id in the resolved-id set of the only project that has entries
    with it is the id of no entry of the queue. *)
Lemma resolved_not_queued (st : ContextStore) (pid entry_id : string) :
  entry_id ∈ get_resolved_ids st pid ->
  (forall p e, e ∈ all_events st p -> id e = entry_id -> p = pid) ->
  entry_id ∉ (id <$> get_queue st None).
Proof.
  intros Hres Huniq (q & Hid & Hq)%list_elem_of_fmap.
  cbn [get_queue] in Hq. apply list_elem_of_bind in Hq as (p & Hq & _).
  apply elem_of_project_queue in Hq as (Hin & _ & Hnot).
  rewrite (Huniq p q Hin (eq_sym Hid)) in Hnot. by rewrite <- Hid in Hnot.
Qed.

(** X26. A resolution that arrives over HTTP is announced at the next tick: the
    resolved id leaves the remembered set, and every registered connection
    is sent, among the notifications of that tick, the removal of the id.
    This holds whether or not the response to the request could be
    written. The queue functions of the store are those modelled from the
    specification. *)
Theorem resolve_then_tick_announces_removal
    (s : QueueServer) (entry_id : string) (reader : StreamReader) (writer : StreamWriter)
    (headers : list (string * string)) (body_start : bytes) (now new_id : string)
    (body_data : bytes) (reader' : StreamReader) (members : list (string * json)) :
  has_char "/" entry_id = false -> has_char "?" entry_id = false ->
  _read_body reader headers body_start = Ok (body_data, reader') ->
  body_is_object body_data members ->
  (exists pid e, e ∈ get_events (store s) pid None 1000 /\ id e = entry_id) ->
  (forall p1 p2 e1 e2,
     e1 ∈ all_events (store s) p1 -> e2 ∈ all_events (store s) p2 ->
     id e1 = entry_id -> id e2 = entry_id -> p1 = p2) ->
  entry_id ∈ _known_queue_ids s ->
  let st' :=
    (_handle_http "POST" (resolve_path entry_id) reader writer headers body_start
                  (store s) now new_id).1.2 in
  let s' := (poll_tick None (set_store st' s)).1 in
  (entry_id ∉ _known_queue_ids s') /\
  exists before after,
    forall cid,
      conns s' !! cid =
      if decide (cid ∈ ws_clients s)
      then (fun c =>
              foldl (fun c m => sent m c) c
                (before ++ [json_dumps (queue_remove_message entry_id)] ++ after))
           <$> conns s !! cid
      else conns s !! cid.
Proof.
  intros Hs Hq Hbody Hobj Hknown Huniq Hk st' s'.
  destruct (_resolve_entry_known (store s) entry_id members now new_id Hknown)
    as (pid & st1 & (e & He & Hid) & Hres & Hresolve).
  assert (Hst' : st' = st1).
  { subst st'. rewrite (_handle_http_resolve _ _ _ _ _ _ _ _ _ _ Hs Hq Hbody).
    rewrite (body_is_object_payload _ _ Hobj), Hresolve.
    by destruct (_send_response writer 200 _). }
  assert (Hnotq : entry_id ∉ (id <$> get_queue st1 None)).
  { pose proof Hres as Hres'. unfold resolve_entry in Hres'.
    destruct (find (fun e => String.eqb (id e) entry_id) (all_events (store s) pid))
      as [target|] eqn:Hf; [|done]. clear Hres'.
    pose proof (resolve_entry_found (store s) pid entry_id
                  (py_str (dict_get "action" members (JStr "acknowledge")))
                  (py_str (dict_get "text" members (JStr ""))) now new_id target Hf)
      as (_ & Hall & Hids & Hother).
    cbv zeta in Hall, Hids, Hother. rewrite Hres in Hall, Hids, Hother.
    cbn [fst] in Hall, Hids, Hother.
    apply find_some in Hf as [Ht Htid]. apply list_elem_of_In in Ht.
    apply String.eqb_eq in Htid.
    apply (resolved_not_queued st1 pid).
    - rewrite Hids. case_decide; [done|]. apply elem_of_app. right.
      by apply list_elem_of_singleton.
    - intros p q Hq' Hqid. destruct (decide (p = pid)) as [->|Hne]; [done|].
      destruct (Hother p Hne) as [Hsame _]. rewrite Hsame in Hq'.
      by apply (Huniq p pid q target). }
  subst s'. rewrite Hst'. unfold poll_tick.
  pose proof (poll_body_broadcasts (set_store st1 s)) as Hb. cbv zeta in Hb.
  rewrite Hb. cbn [fst _known_queue_ids set_known store set_store].
  split; [by rewrite (elem_of_list_to_set (C := gset string))|].
  assert (Hrem : entry_id ∈ elements (_known_queue_ids s ∖
                   (list_to_set (id <$> get_queue st1 None) : gset string))).
  { apply elem_of_elements, elem_of_difference. split; [done|].
    by rewrite (elem_of_list_to_set (C := gset string)). }
  apply list_elem_of_split in Hrem as (l1 & l2 & Hrem). rewrite Hrem.
  exists (((fun entry => json_dumps (queue_add_message entry)) <$>
             filter (fun entry => id entry ∉ _known_queue_ids s) (get_queue st1 None)) ++
          ((fun old_id => json_dumps (queue_remove_message old_id)) <$> l1)),
         ((fun old_id => json_dumps (queue_remove_message old_id)) <$> l2).
  intros cid.
  match goal with
  | |- context [foldl _ (set_store st1 s) ?msgs] =>
      destruct (foldl_broadcast msgs (set_store st1 s)) as (_ & _ & _ & Hconns)
  end.
  cbv zeta in Hconns. cbn [conns set_known]. rewrite Hconns.
  cbn [ws_clients conns set_store].
  by rewrite fmap_app, fmap_cons, <- !app_assoc.
Qed.
End ResolveThenTick.

Lemma resolve_then_tick_announces_removal_witness :
  let s := mkServer store_p1 {[ 0 := mkConn [] (mkWriter [] false) false ]} {[ 0 ]}
             {[ "e2" ]} in
  let st' :=
    (@_handle_http sample_runtime "POST" (resolve_path "e2") [] (mkWriter [] false) [] []
                   (store s) "2024-05-01T10:00:09+00:00" "r1").1.2 in
  let s' := (@poll_tick sample_runtime None (set_store st' s)).1 in
  ("e2" ∉ _known_queue_ids s') /\
  exists before after,
    forall cid,
      conns s' !! cid =
      if decide (cid ∈ ws_clients s)
      then (fun c =>
              foldl (fun c m => sent m c) c
                (before ++ [sample_dumps (queue_remove_message "e2")] ++ after))
           <$> conns s !! cid
      else conns s !! cid.
Proof.
  intros s.
  apply (@resolve_then_tick_announces_removal sample_runtime s "e2" [] (mkWriter [] false)
           [] [] "2024-05-01T10:00:09+00:00" "r1" [] [] []).
  - reflexivity.
  - reflexivity.
  - reflexivity.
  - left. split; reflexivity.
  - exists "p1", (parse (stamped "2024-05-01T10:00:01+00:00"
                            (sample_entry "p1" "e2" APPROVAL false))).
    split; [|reflexivity]. vm_compute. right. left.
  - assert (Hp1 : forall p e, e ∈ all_events store_p1 p -> p = "p1").
    { intros p e He. destruct (decide (p = "p1")) as [->|Hne]; [done|].
      unfold all_events, store_p1, append_entry in He. simpl in He.
      rewrite !lookup_insert_ne, lookup_empty in He by done.
      by apply elem_of_nil in He. }
    intros p1 p2 e1 e2 H1 H2 _ _.
    by rewrite (Hp1 p1 e1 H1), (Hp1 p2 e2 H2).
  - vm_compute. reflexivity.
Defined.

(** ** The path of a resolve request *)

Lemma before_char_prefix (c : ascii) (s t : string) :
  has_char c s = false -> before_char c (s +:+ t) = s +:+ before_char c t.
Proof.
  induction s as [|a s IH]; [done|]. cbn [has_char].
  intros [Ha Hs]%orb_false_iff.
  change (String a s +:+ t) with (String a (s +:+ t)).
  cbn [before_char]. rewrite Ha, IH by done. done.
Qed.

Lemma rstrip_char_absent (c : ascii) (s : string) :
  has_char c s = false -> rstrip_char c s = s.
Proof.
  induction s as [|a s IH]; [done|]. cbn [has_char rstrip_char].
  intros [Ha Hs]%orb_false_iff. rewrite IH, Ha by done. by destruct s.
Qed.

(** The clean path of a request under [/queue/{id}]: the id alone, or the
    id, a slash and more. Either way the resolve branch reads the id. *)
Lemma queue_path_clean (entry_id rest : string) :
  has_char "/" entry_id = false -> has_char "?" entry_id = false ->
  entry_id <> EmptyString ->
  let clean_path :=
    rstrip_char "/" (before_char "?" ("/queue/" +:+ entry_id +:+ "/" +:+ rest)) in
  String.eqb clean_path "/queue" = false /\
  startswith "/queue/" clean_path = true /\
  nth 2 (str_split "/" clean_path) EmptyString = entry_id.
Proof.
  intros Hs Hq Hne. cbv zeta.
  assert (E : before_char "?" ("/queue/" +:+ entry_id +:+ "/" +:+ rest) =
              "/queue/" +:+ entry_id +:+ "/" +:+ before_char "?" rest).
  { rewrite <- !string_app_assoc. rewrite before_char_prefix; [done|].
    rewrite !has_char_app, Hq. done. }
  rewrite E. clear E. set (tail := before_char "?" rest).
  assert (Hid : rstrip_char "/" entry_id = entry_id) by (by apply rstrip_char_absent).
  destruct (rstrip_char "/" ("/" +:+ tail)) as [|a t] eqn:Ht.
  - assert (E : rstrip_char "/" ("/queue/" +:+ entry_id +:+ "/" +:+ tail) =
                "/queue/" +:+ entry_id).
    { rewrite <- (string_app_assoc "/queue/" entry_id ("/" +:+ tail)).
      rewrite rstrip_char_trailing by done.
      rewrite rstrip_char_app; [by rewrite Hid|]. by rewrite Hid. }
    rewrite E. split; [|split].
    + destruct entry_id; [done|]. reflexivity.
    + reflexivity.
    + change ("/queue/" +:+ entry_id)
        with (EmptyString +:+ String "/" ("queue" +:+ String "/" entry_id)).
      rewrite !str_split_app by done. by rewrite str_split_absent.
  - assert (E : rstrip_char "/" ("/queue/" +:+ entry_id +:+ "/" +:+ tail) =
                "/queue/" +:+ entry_id +:+ rstrip_char "/" ("/" +:+ tail)).
    { rewrite <- (string_app_assoc "/queue/" entry_id ("/" +:+ tail)).
      rewrite rstrip_char_app by (by rewrite Ht). by rewrite string_app_assoc. }
    rewrite E, Ht.
    assert (Ha : a = "/"%char).
    { change ("/" +:+ tail) with (String "/" tail) in Ht. cbn [rstrip_char] in Ht.
      destruct (rstrip_char "/" tail); [|by injection Ht as <- _].
      cbn [Ascii.eqb Bool.eqb] in Ht. discriminate. }
    subst a. split; [|split].
    + reflexivity.
    + reflexivity.
    + change ("/queue/" +:+ entry_id +:+ String "/" t)
        with (EmptyString +:+ String "/" ("queue" +:+ String "/" (entry_id +:+ String "/" t))).
      rewrite !str_split_app by done. done.
Qed.

Section ResolvePath.
Context `{Runtime}.

(** X27. The resolve branch is chosen by the prefix of the path alone: a [POST]
    to [/queue/{id}/] followed by anything at all is handled as the
    request to [/queue/{id}/resolve] is. *)
Theorem resolve_ignores_suffix
    (entry_id rest : string) (reader : StreamReader) (writer : StreamWriter)
    (headers : list (string * string)) (body_start : bytes)
    (st : ContextStore) (now new_id : string) :
  has_char "/" entry_id = false -> has_char "?" entry_id = false ->
  entry_id <> EmptyString ->
  _handle_http "POST" ("/queue/" +:+ entry_id +:+ "/" +:+ rest)
               reader writer headers body_start st now new_id =
  _handle_http "POST" (resolve_path entry_id)
               reader writer headers body_start st now new_id.
Proof.
  intros Hs Hq Hne.
  destruct (queue_path_clean entry_id rest Hs Hq Hne) as (E1 & E2 & E3).
  destruct (queue_path_clean entry_id "resolve" Hs Hq Hne) as (F1 & F2 & F3).
  unfold resolve_path, _handle_http. cbv zeta in E1, E2, E3, F1, F2, F3.
  change ("/queue/" +:+ entry_id +:+ "/resolve")
    with ("/queue/" +:+ entry_id +:+ "/" +:+ "resolve").
  by rewrite E1, E2, E3, F1, F2, F3.
Qed.
End ResolvePath.

Lemma resolve_ignores_suffix_witness :
  @_handle_http sample_runtime "POST" ("/queue/" +:+ "e2" +:+ "/" +:+ "reopen?x=/") []
                (mkWriter [] false) [] [] store_p1 "2024-05-01T10:00:09+00:00" "r1" =
  @_handle_http sample_runtime "POST" (resolve_path "e2") []
                (mkWriter [] false) [] [] store_p1 "2024-05-01T10:00:09+00:00" "r1".
Proof.
  apply (@resolve_ignores_suffix sample_runtime "e2" "reopen?x=/").
  - reflexivity.
  - reflexivity.
  - discriminate.
Defined.
